(** * Streaming delta assembler of the research-agent chat client

    A shallow embedding of the streaming logic of [frontend/src/api.ts]
    ([askQuestionStream], [processLine]) and of the chunk handler and the
    word-merge repair of [frontend/src/App.tsx] ([addSpaceBetweenWords] and
    the [onChunk] callback of [handleSend] / [handleSendWithAudio]), followed
    by the properties of the specification stated against that embedding.
    The helpers [getContentText] and [formatDuration] of [App.tsx] are
    embedded as well, and further properties of the code come last.

    Conventions.  A JavaScript string is modelled by a [string] holding its
    UTF-8 encoding; every pattern of the source is ASCII, so matching on
    bytes and matching on UTF-16 code units agree.  A number of a JSON
    text is kept as its exact decimal value, and is tested and compared
    through the binary64 value nearest to it. *)

From Stdlib Require Import String Ascii List ZArith NArith Bool Lia
  DecimalString.
From Stdlib Require Floats.SpecFloat.
Import ListNotations.

Set Warnings "-register-all".
Local Open Scope string_scope.
Local Open Scope bool_scope.

(* ================================================================== *)
(** ** JavaScript string primitives *)
(* ================================================================== *)

Module JsString.

Definition code (c : ascii) : N := N_of_ascii c.

Definition inRange (lo hi : N) (c : ascii) : bool :=
  (lo <=? code c)%N && (code c <=? hi)%N.

(** The character classes [[a-z]], [[A-Z]] and [[0-9]]. *)
Definition isLower : ascii -> bool := inRange 97 122.
Definition isUpper : ascii -> bool := inRange 65 90.
Definition isDigit : ascii -> bool := inRange 48 57.
Definition isLetter (c : ascii) : bool := isLower c || isUpper c.
(** [/[a-zA-Z0-9]/] *)
Definition isAlnum (c : ascii) : bool := isLetter c || isDigit c.

(** Canonicalisation used by the [i] flag (no [u] flag): ASCII letters are
    compared through their upper-case form, every other byte is itself. *)
Definition toUpper (c : ascii) : ascii :=
  if isLower c then ascii_of_N (code c - 32) else c.

Definition eqbCI (a b : ascii) : bool := Ascii.eqb (toUpper a) (toUpper b).

(** [s.startsWith(p)] *)
Fixpoint startsWith (p s : string) : bool :=
  match p with
  | EmptyString => true
  | String a p' =>
      match s with
      | EmptyString => false
      | String b s' => Ascii.eqb a b && startsWith p' s'
      end
  end.

(** [startsWith] under the [i] flag. *)
Fixpoint startsWithCI (p s : string) : bool :=
  match p with
  | EmptyString => true
  | String a p' =>
      match s with
      | EmptyString => false
      | String b s' => eqbCI a b && startsWithCI p' s'
      end
  end.

(** [s.slice(n)] for [0 <= n]. *)
Fixpoint drop (n : nat) (s : string) : string :=
  match n with
  | O => s
  | S k => match s with
           | EmptyString => EmptyString
           | String _ s' => drop k s'
           end
  end.

(** [s.slice(0, n)] (also [s.substring(0, n)]) for [0 <= n]. *)
Fixpoint take (n : nat) (s : string) : string :=
  match n with
  | O => EmptyString
  | S k => match s with
           | EmptyString => EmptyString
           | String c s' => String c (take k s')
           end
  end.

(** [s.slice(-1)]: the last character, or the empty string. *)
Fixpoint lastChar (s : string) : option ascii :=
  match s with
  | EmptyString => None
  | String c EmptyString => Some c
  | String _ s' => lastChar s'
  end.

(** [s[0]] *)
Definition firstChar (s : string) : option ascii :=
  match s with
  | EmptyString => None
  | String c _ => Some c
  end.

Definition isEmpty (s : string) : bool :=
  match s with EmptyString => true | _ => false end.

(** [l.length === 0] *)
Definition isEmpty_list {A : Type} (l : list A) : bool :=
  match l with [] => true | _ => false end.

Fixpoint rev_append (s acc : string) : string :=
  match s with
  | EmptyString => acc
  | String c s' => rev_append s' (String c acc)
  end.

Definition rev (s : string) : string := rev_append s EmptyString.

(** [s.indexOf(p)]: offset of the first occurrence of [p] in [s]. *)
Fixpoint indexOf (p s : string) : option nat :=
  if startsWith p s then Some O
  else match s with
       | EmptyString => None
       | String _ s' => option_map S (indexOf p s')
       end.

(** [s.includes(p)] *)
Definition includes (p s : string) : bool :=
  match indexOf p s with Some _ => true | None => false end.

(** *** Whitespace and [trim]

    [String.prototype.trim] removes WhiteSpace and LineTerminator code
    points: U+0009..U+000D, U+0020, U+00A0, U+1680, U+2000..U+200A, U+2028,
    U+2029, U+202F, U+205F, U+3000 and U+FEFF, listed here by their UTF-8
    encodings. *)

Definition bytes (l : list N) : string :=
  string_of_list_ascii (map ascii_of_N l).

Definition whiteSpace : list string :=
  map bytes
    [ [9]; [10]; [11]; [12]; [13]; [32]; [194; 160]; [225; 154; 128];
      [226; 128; 128]; [226; 128; 129]; [226; 128; 130]; [226; 128; 131];
      [226; 128; 132]; [226; 128; 133]; [226; 128; 134]; [226; 128; 135];
      [226; 128; 136]; [226; 128; 137]; [226; 128; 138]; [226; 128; 168];
      [226; 128; 169]; [226; 128; 175]; [226; 129; 159]; [227; 128; 128];
      [239; 187; 191] ]%N.

(** Length of the whitespace code point at the head of [s], [0] if none. *)
Fixpoint headLength (tokens : list string) (s : string) : nat :=
  match tokens with
  | [] => O
  | t :: ts => if startsWith t s then String.length t else headLength ts s
  end.

Fixpoint trimStartFrom (tokens : list string) (skip : nat) (s : string)
  : string :=
  match s with
  | EmptyString => EmptyString
  | String _ s' =>
      match skip with
      | S k => trimStartFrom tokens k s'
      | O => match headLength tokens s with
             | O => s
             | S k => trimStartFrom tokens k s'
             end
      end
  end.

Definition trimStart (s : string) : string := trimStartFrom whiteSpace 0 s.

Definition trimEnd (s : string) : string :=
  rev (trimStartFrom (map rev whiteSpace) 0 (rev s)).

(** [s.trim()] *)
Definition trim (s : string) : string := trimEnd (trimStart s).

End JsString.

(* ================================================================== *)
(** ** Regular-expression replacement, as used by the source *)
(* ================================================================== *)

Module Regex.
Import JsString.

(** A pattern is given by what it does at one position of the text: the
    length of the text it matches there and the replacement for it.  None
    of the patterns of the source matches the empty string. *)
Definition matcher := string -> option (nat * string).

(** [s.replace(/.../g, r)]: matches are looked for from left to right, a
    match is replaced and the search resumes after it.  [skip] counts the
    characters of the current match still to be passed over. *)
Fixpoint replaceFrom (m : matcher) (skip : nat) (s : string) : string :=
  match s with
  | EmptyString => EmptyString
  | String c s' =>
      match skip with
      | S k => replaceFrom m k s'
      | O => match m s with
             | Some (len, r) => r ++ replaceFrom m (Nat.pred len) s'
             | None => String c (replaceFrom m 0 s')
             end
      end
  end.

Definition replaceAll (m : matcher) (s : string) : string :=
  replaceFrom m 0 s.

(** [s.match(/.../g)]: the matched texts, from left to right. *)
Fixpoint matchFrom (m : matcher) (skip : nat) (s : string) : list string :=
  match s with
  | EmptyString => []
  | String _ s' =>
      match skip with
      | S k => matchFrom m k s'
      | O => match m s with
             | Some (len, _) => take len s :: matchFrom m (Nat.pred len) s'
             | None => matchFrom m 0 s'
             end
      end
  end.

Definition matchAll (m : matcher) (s : string) : list string :=
  matchFrom m 0 s.

(** A literal pattern replaced by the empty string: [/<\/tool>/g] and the
    like. *)
Definition literal (p : string) : matcher :=
  fun s => if startsWith p s then Some (String.length p, "") else None.

(** [s.replace(p, '')] with a string pattern: only the first occurrence. *)
Fixpoint removeFirst (p s : string) : string :=
  if startsWith p s then drop (String.length p) s
  else match s with
       | EmptyString => EmptyString
       | String c s' => String c (removeFirst p s')
       end.

End Regex.

(* ================================================================== *)
(** ** [JSON.parse] *)
(* ================================================================== *)

Module Json.
Import JsString.

Inductive json : Type :=
| JNull
| JBool (b : bool)
| JNumber (mantissa exponent : Z)   (* mantissa * 10 ^ exponent *)
| JString (s : string)
| JArray (items : list json)
| JObject (members : list (string * json)).

(** Outcome of a parsing function: a value and the text left, a
    [SyntaxError], or the recursion bound reached. *)
Inductive parsed (A : Type) : Type :=
| Ok (a : A) (rest : string)
| SyntaxError
| OutOfFuel.
Arguments Ok {A} a rest.
Arguments SyntaxError {A}.
Arguments OutOfFuel {A}.

(** JSON whitespace: tab, line feed, carriage return, space. *)
Definition isWs (c : ascii) : bool :=
  (code c =? 9)%N || (code c =? 10)%N || (code c =? 13)%N || (code c =? 32)%N.

Fixpoint skipWs (s : string) : string :=
  match s with
  | String c s' => if isWs c then skipWs s' else s
  | EmptyString => s
  end.

(** *** Strings *)

Definition hexValue (c : ascii) : option N :=
  if isDigit c then Some (code c - 48)%N
  else if inRange 97 102 c then Some (code c - 87)%N
  else if inRange 65 70 c then Some (code c - 55)%N
  else None.

Definition hex4 (a b c d : ascii) : option N :=
  match hexValue a, hexValue b, hexValue c, hexValue d with
  | Some x, Some y, Some z, Some w => Some (((x * 16 + y) * 16 + z) * 16 + w)%N
  | _, _, _, _ => None
  end.

(** A character of a string literal: a byte of the text, or the UTF-16
    code unit of an escape. *)
Inductive strItem : Type :=
| Raw (c : ascii)
| Unit16 (u : N).

(** The characters of a string literal, read after its opening quote. *)
Fixpoint stringItems (s : string) : parsed (list strItem) :=
  match s with
  | EmptyString => SyntaxError
  | String c s' =>
      if Ascii.eqb c "034" then Ok [] s'
      else if (code c <? 32)%N then SyntaxError
      else if Ascii.eqb c "\" then
        match s' with
        | String e s'' =>
            let simple (u : N) :=
              match stringItems s'' with
              | Ok l r => Ok (Unit16 u :: l) r
              | other => other
              end in
            if Ascii.eqb e "034" then simple 34%N
            else if Ascii.eqb e "\" then simple 92%N
            else if Ascii.eqb e "/" then simple 47%N
            else if Ascii.eqb e "b" then simple 8%N
            else if Ascii.eqb e "f" then simple 12%N
            else if Ascii.eqb e "n" then simple 10%N
            else if Ascii.eqb e "r" then simple 13%N
            else if Ascii.eqb e "t" then simple 9%N
            else if Ascii.eqb e "u" then
              match s'' with
              | String h1 (String h2 (String h3 (String h4 s3))) =>
                  match hex4 h1 h2 h3 h4 with
                  | Some u =>
                      match stringItems s3 with
                      | Ok l r => Ok (Unit16 u :: l) r
                      | other => other
                      end
                  | None => SyntaxError
                  end
              | _ => SyntaxError
              end
            else SyntaxError
        | EmptyString => SyntaxError
        end
      else
        match stringItems s' with
        | Ok l r => Ok (Raw c :: l) r
        | other => other
        end
  end.

(** UTF-8 encoding of a code point. *)
Definition utf8 (u : N) : string :=
  (if u <? 128 then bytes [u]
   else if u <? 2048 then bytes [192 + u / 64; 128 + u mod 64]
   else if u <? 65536 then
     bytes [224 + u / 4096; 128 + (u / 64) mod 64; 128 + u mod 64]
   else
     bytes [240 + u / 262144; 128 + (u / 4096) mod 64;
            128 + (u / 64) mod 64; 128 + u mod 64])%N.

Definition isHighSurrogate (u : N) : bool := (55296 <=? u)%N && (u <=? 56319)%N.
Definition isLowSurrogate (u : N) : bool := (56320 <=? u)%N && (u <=? 57343)%N.

(** The string denoted by the characters of a literal; a surrogate pair of
    escapes is one code point. *)
Fixpoint itemsToString (l : list strItem) : string :=
  match l with
  | [] => EmptyString
  | Raw c :: l' => String c (itemsToString l')
  | Unit16 u :: l' =>
      match l' with
      | Unit16 v :: l'' =>
          if isHighSurrogate u && isLowSurrogate v
          then utf8 (65536 + (u - 55296) * 1024 + (v - 56320))%N
                 ++ itemsToString l''
          else utf8 u ++ itemsToString l'
      | _ => utf8 u ++ itemsToString l'
      end
  end.

Definition parseString (s : string) : parsed string :=
  match stringItems s with
  | Ok l r => Ok (itemsToString l) r
  | _ => SyntaxError
  end.

(** *** Numbers *)

(** The leading digits of [s], as a number and a count, and the rest. *)
Fixpoint digits (acc : Z) (n : nat) (s : string) : Z * nat * string :=
  match s with
  | String c s' =>
      if isDigit c then digits (acc * 10 + Z.of_N (code c - 48)) (S n) s'
      else (acc, n, s)
  | EmptyString => (acc, n, s)
  end.

(** [int]: a single [0], or a non-zero digit followed by digits. *)
Definition intPart (s : string) : option (Z * string) :=
  match s with
  | String c s' =>
      if Ascii.eqb c "0" then Some (0%Z, s')
      else if isDigit c then
        let '(v, _, r) := digits 0 0 s in Some (v, r)
      else None
  | EmptyString => None
  end.

(** [frac]: the mantissa extended by the fraction digits, and their count. *)
Definition fracPart (m : Z) (s : string) : option (Z * nat * string) :=
  match s with
  | String c s' =>
      if Ascii.eqb c "." then
        let '(v, n, r) := digits m 0 s' in
        match n with O => None | S _ => Some (v, n, r) end
      else Some (m, O, s)
  | EmptyString => Some (m, O, s)
  end.

Definition expDigits (s : string) : option (Z * string) :=
  let '(v, n, r) := digits 0 0 s in
  match n with O => None | S _ => Some (v, r) end.

Definition expPart (s : string) : option (Z * string) :=
  match s with
  | String c s' =>
      if Ascii.eqb c "e" || Ascii.eqb c "E" then
        match s' with
        | String sg s'' =>
            if Ascii.eqb sg "-" then
              match expDigits s'' with
              | Some (v, r) => Some ((- v)%Z, r)
              | None => None
              end
            else if Ascii.eqb sg "+" then expDigits s''
            else expDigits s'
        | EmptyString => None
        end
      else Some (0%Z, s)
  | EmptyString => Some (0%Z, s)
  end.

Definition parseNumber (s : string) : parsed json :=
  let '(sign, s1) :=
    match s with
    | String c s' => if Ascii.eqb c "-" then ((-1)%Z, s') else (1%Z, s)
    | EmptyString => (1%Z, s)
    end in
  match intPart s1 with
  | None => SyntaxError
  | Some (i, s2) =>
      match fracPart i s2 with
      | None => SyntaxError
      | Some (m, n, s3) =>
          match expPart s3 with
          | None => SyntaxError
          | Some (e, s4) => Ok (JNumber (sign * m) (e - Z.of_nat n)) s4
          end
      end
  end.

(** *** Values *)

Definition keyword (k : string) (v : json) (s : string) : parsed json :=
  if startsWith k s then Ok v (drop (String.length k) s) else SyntaxError.

(** The elements of an array after its opening bracket, [pv] parsing one
    value. *)
Fixpoint elements (pv : string -> parsed json) (n : nat) (s : string)
    (acc : list json) : parsed (list json) :=
  match n with
  | O => OutOfFuel
  | S n' =>
      match pv s with
      | Ok v r =>
          match skipWs r with
          | String c r' =>
              if Ascii.eqb c "," then elements pv n' r' (v :: acc)
              else if Ascii.eqb c "]" then Ok (List.rev (v :: acc)) r'
              else SyntaxError
          | EmptyString => SyntaxError
          end
      | SyntaxError => SyntaxError
      | OutOfFuel => OutOfFuel
      end
  end.

(** The members of an object after its opening brace. *)
Fixpoint members (pv : string -> parsed json) (n : nat) (s : string)
    (acc : list (string * json)) : parsed (list (string * json)) :=
  match n with
  | O => OutOfFuel
  | S n' =>
      match skipWs s with
      | String q s1 =>
          if Ascii.eqb q "034" then
            match parseString s1 with
            | Ok k s2 =>
                match skipWs s2 with
                | String c s3 =>
                    if Ascii.eqb c ":" then
                      match pv s3 with
                      | Ok v r =>
                          match skipWs r with
                          | String d r' =>
                              if Ascii.eqb d ","
                              then members pv n' r' ((k, v) :: acc)
                              else if Ascii.eqb d "}"
                              then Ok (List.rev ((k, v) :: acc)) r'
                              else SyntaxError
                          | EmptyString => SyntaxError
                          end
                      | SyntaxError => SyntaxError
                      | OutOfFuel => OutOfFuel
                      end
                    else SyntaxError
                | EmptyString => SyntaxError
                end
            | SyntaxError => SyntaxError
            | OutOfFuel => OutOfFuel
            end
          else SyntaxError
      | EmptyString => SyntaxError
      end
  end.

Definition wrap {A : Type} (f : A -> json) (p : parsed A) : parsed json :=
  match p with
  | Ok a r => Ok (f a) r
  | SyntaxError => SyntaxError
  | OutOfFuel => OutOfFuel
  end.

Fixpoint parseValue (fuel : nat) (s : string) {struct fuel} : parsed json :=
  match fuel with
  | O => OutOfFuel
  | S f =>
      match skipWs s with
      | EmptyString => SyntaxError
      | String c s' =>
          if Ascii.eqb c "{" then
            match skipWs s' with
            | String d s'' =>
                if Ascii.eqb d "}" then Ok (JObject []) s''
                else wrap JObject (members (parseValue f) f s' [])
            | EmptyString => SyntaxError
            end
          else if Ascii.eqb c "[" then
            match skipWs s' with
            | String d s'' =>
                if Ascii.eqb d "]" then Ok (JArray []) s''
                else wrap JArray (elements (parseValue f) f s' [])
            | EmptyString => SyntaxError
            end
          else if Ascii.eqb c "034" then wrap JString (parseString s')
          else
            let text := String c s' in
            if Ascii.eqb c "t" then keyword "true" (JBool true) text
            else if Ascii.eqb c "f" then keyword "false" (JBool false) text
            else if Ascii.eqb c "n" then keyword "null" JNull text
            else parseNumber text
      end
  end.

(** [JSON.parse(text)]: [None] stands for the [SyntaxError] thrown.  The
    recursion bound exceeds the length of the text, which is more than any
    text needs (see [parseValue_fuel]). *)
Definition parse (text : string) : option json :=
  match parseValue (S (String.length text)) text with
  | Ok v r => if isEmpty (skipWs r) then Some v else None
  | _ => None
  end.

(** *** Reading parsed values, as JavaScript does *)

(** The Number value of the number [m * 10 ^ e] of a JSON text: the
    binary64 value nearest to it, ties to even, infinite past the largest
    finite value (what [JSON.parse] gives in the engines; past twenty
    significant digits the language allows a neighbour as well). *)
Definition toDouble (m e : Z) : SpecFloat.spec_float :=
  let rounded (negative : bool) (p : positive) :=
    if (0 <=? e)%Z
    then SpecFloat.binary_normalize 53 1024 (m * 10 ^ e) 0 false
    else SpecFloat.SFdiv 53 1024
           (SpecFloat.S754_finite negative p 0)
           (SpecFloat.S754_finite false (Z.to_pos (10 ^ (- e))) 0) in
  match m with
  | Z0 => SpecFloat.S754_zero false
  | Zpos p => rounded false p
  | Zneg p => rounded true p
  end.

(** [ToBoolean]: a number is falsy when its value is zero, as that of
    [1e-400] is. *)
Definition truthy (v : json) : bool :=
  match v with
  | JNull => false
  | JBool b => b
  | JNumber m e =>
      match toDouble m e with
      | SpecFloat.S754_zero _ | SpecFloat.S754_nan => false
      | _ => true
      end
  | JString s => negb (isEmpty s)
  | JArray _ | JObject _ => true
  end.

(** An own property of a parsed object; a later duplicate of a key
    overrides an earlier one. *)
Fixpoint lookup (k : string) (l : list (string * json)) : option json :=
  match l with
  | [] => None
  | (k', v) :: l' =>
      match lookup k l' with
      | Some w => Some w
      | None => if String.eqb k k' then Some v else None
      end
  end.

(** [v.k] for a property name [k] that no prototype defines. [None] is
    [undefined]; reading a property of [null] throws a [TypeError] and is
    handled where it can happen. *)
Definition prop (k : string) (v : json) : option json :=
  match v with
  | JObject l => lookup k l
  | _ => None
  end.

(** Equality of two numbers given as mantissa and exponent: that of their
    Number values. *)
Definition numEqb (m1 e1 m2 e2 : Z) : bool :=
  SpecFloat.SFeqb (toDouble m1 e1) (toDouble m2 e2).

(** [SameValueZero] between a stored value and a freshly parsed one:
    primitives are compared by value, and a freshly parsed array or object
    is a new reference, equal to no stored value. *)
Definition sameValueZero (a b : json) : bool :=
  match a, b with
  | JNull, JNull => true
  | JBool x, JBool y => Bool.eqb x y
  | JNumber m1 e1, JNumber m2 e2 => numEqb m1 e1 m2 e2
  | JString x, JString y => String.eqb x y
  | _, _ => false
  end.

End Json.

(* ================================================================== *)
(** ** api.ts: [StreamChunk], [processLine], [askQuestionStream] *)
(* ================================================================== *)

Module Api.
Import JsString Json.

Record ExecutedTool : Type := {
  index : Z;
  type : string;
  arguments : option string;
  search_results : option json;
  output : option string
}.

Record StreamChunk : Type := {
  reasoning : option string;
  executed_tools : option (list ExecutedTool);
  content : option string
}.

(** The integer denoted by [m * 10 ^ e]; [0] when it is not an integer. *)
Definition toInteger (m e : Z) : Z :=
  if (0 <=? e)%Z then (m * 10 ^ e)%Z
  else if (m mod 10 ^ (- e) =? 0)%Z then (m / 10 ^ (- e))%Z
  else 0%Z.

Definition stringProp (k : string) (v : json) : option string :=
  match prop k v with
  | Some (JString s) => Some s
  | _ => None
  end.

(** The source assigns [delta.executed_tools] to a field of type
    [ExecutedTool[]] without a check. This reads an element at that type:
    a field that is missing or of another type reads as absent, the index
    as [0] and the type as the empty string. *)
Definition asExecutedTool (v : json) : ExecutedTool :=
  {| index := match prop "index" v with
              | Some (JNumber m e) => toInteger m e
              | _ => 0%Z
              end;
     type := match stringProp "type" v with Some s => s | None => "" end;
     arguments := stringProp "arguments" v;
     search_results := prop "search_results" v;
     output := stringProp "output" v |}.

(** What [processLine] does to its environment, in order. *)
Inductive call : Type :=
| OnChunk (chunk : StreamChunk)
| OnComplete
| ConsoleWarn (data : string).

(** [data.length]: the number of UTF-16 code units of a string given by its
    UTF-8 encoding. Continuation bytes count for nothing, the first byte of
    a four-byte sequence for two. *)
Fixpoint utf16Length (s : string) : nat :=
  match s with
  | EmptyString => O
  | String c s' =>
      (if inRange 128 191 c then 0
       else if (240 <=? code c)%N then 2
       else 1) + utf16Length s'
  end.

(** [processedIds.has(id)] *)
Definition has (processedIds : list json) (id : json) : bool :=
  existsb (fun v => sameValueZero v id) processedIds.

(** [processedIds.add(id)] *)
Definition add (id : json) (processedIds : list json) : list json :=
  if has processedIds id then processedIds else (processedIds ++ [id])%list.

(** [json.choices && Array.isArray(json.choices) && json.choices[0] &&
    json.choices[0].delta], giving [json.choices[0].delta]. *)
Definition deltaOf (parsed : json) : option json :=
  match prop "choices" parsed with
  | Some (JArray (first :: _)) =>
      if truthy first then
        match prop "delta" first with
        | Some delta => if truthy delta then Some delta else None
        | None => None
        end
      else None
  | _ => None
  end.

(** The chunk built from a delta: only non-empty fields are kept. *)
Definition chunkOf (delta : json) : StreamChunk :=
  {| reasoning :=
       match prop "reasoning" delta with
       | Some (JString s) => if isEmpty s then None else Some s
       | _ => None
       end;
     executed_tools :=
       match prop "executed_tools" delta with
       | Some (JArray (t :: ts)) => Some (map asExecutedTool (t :: ts))
       | _ => None
       end;
     content :=
       match prop "content" delta with
       | Some (JString s) => if isEmpty s then None else Some s
       | _ => None
       end |}.

(** [chunk.reasoning || (chunk.executed_tools &&
    chunk.executed_tools.length > 0) || chunk.content] *)
Definition hasData (chunk : StreamChunk) : bool :=
  match reasoning chunk with
  | Some r => negb (isEmpty r)
  | None => false
  end
  || match executed_tools chunk with
     | Some (_ :: _) => true
     | _ => false
     end
  || match content chunk with
     | Some c => negb (isEmpty c)
     | None => false
     end.

(** The [catch] block of [processLine]. *)
Definition parseFailed (data : string) : list call :=
  if negb (isEmpty data) && negb (String.eqb data "[DONE]")
     && (10 <? utf16Length data)%nat
  then [ConsoleWarn data]   (* the first 100 characters of [data] are logged *)
  else [].

(** [processLine(line, onChunk, onComplete, processedIds)]: the value
    returned, the calls made and the set of processed ids afterwards. *)
Definition processLine (line : string) (processedIds : list json)
  : bool * list call * list json :=
  if startsWith "data: " line then
    let data := trim (drop 6 line) in
    if isEmpty data then (false, [], processedIds)
    else if String.eqb data "[DONE]" then (true, [OnComplete], processedIds)
    else
      match parse data with
      | None => (false, parseFailed data, processedIds)
      | Some JNull =>
          (* [json.id] throws a TypeError, caught like a parse failure *)
          (false, parseFailed data, processedIds)
      | Some json =>
          let chunkId := prop "id" json in
          let seen := match chunkId with
                      | Some id => truthy id && has processedIds id
                      | None => false
                      end in
          if seen then (false, [], processedIds)
          else
            match deltaOf json with
            | Some delta =>
                let chunk := chunkOf delta in
                if hasData chunk then
                  (false, [OnChunk chunk],
                   match chunkId with
                   | Some id => if truthy id then add id processedIds
                                else processedIds
                   | None => processedIds
                   end)
                else (false, [], processedIds)
            | None => (false, [], processedIds)
            end
      end
  else (false, [], processedIds).

(** *** The read loop *)

(** What the caller of [askQuestionStream] observes. *)
Inductive error : Type :=
| ApiRequestFailed (status : N) (statusText : string)
| ResponseBodyNull
| Thrown (message : string).

Inductive event : Type :=
| Chunk (chunk : StreamChunk)     (* onChunk(chunk) *)
| Complete                        (* onComplete() *)
| Failed (e : error)              (* onError(e) *)
| Warning (data : string).        (* console.warn *)

(** One [reader.read()]: a chunk of text (already decoded), or a rejection.
    The end of the list of reads is [done]. *)
Inductive readResult : Type :=
| Value (chunk : string)
| Rejected (message : string).

Inductive response : Type :=
| FetchRejected (message : string)
| NotOk (status : N) (statusText : string)
| NoBody
| Body (reads : list readResult).

(** The complete lines of a buffer (the texts before each line feed) and
    what follows the last line feed. *)
Fixpoint splitLines (buffer : string) : list string * string :=
  match buffer with
  | EmptyString => ([], EmptyString)
  | String c s' =>
      let '(lines, rest) := splitLines s' in
      if Ascii.eqb c (ascii_of_N 10) then (EmptyString :: lines, rest)
      else match lines with
           | [] => ([], String c rest)
           | l :: ls => (String c l :: ls, rest)
           end
  end.

(** The calls of one [processLine] as seen by the caller; [inLoop] tells
    which [onComplete] argument it was given: in the loop one that sets
    [isComplete] and calls the caller's [onComplete], at the end of the
    stream one that does nothing. *)
Fixpoint relay (inLoop : bool) (calls : list call) (isComplete : bool)
  : list event * bool :=
  match calls with
  | [] => ([], isComplete)
  | OnChunk c :: cs =>
      let '(evs, ic) := relay inLoop cs isComplete in (Chunk c :: evs, ic)
  | OnComplete :: cs =>
      if inLoop then
        let '(evs, ic) := relay inLoop cs true in (Complete :: evs, ic)
      else relay inLoop cs isComplete
  | ConsoleWarn d :: cs =>
      let '(evs, ic) := relay inLoop cs isComplete in (Warning d :: evs, ic)
  end.

Record loopState : Type := {
  buffer : string;
  isComplete : bool;
  processedIds : list json
}.

(** The inner [while] loop: each iteration takes the text before the first
    line feed off the buffer; here the lines are taken in turn and [rest]
    is the buffer after the last of them. A line that completes the turn
    clears the buffer and leaves the loop. *)
Fixpoint processLines (lines : list string) (rest : string)
    (isComplete : bool) (ids : list json) : list event * loopState :=
  match lines with
  | [] => ([], {| buffer := rest; isComplete := isComplete;
                  processedIds := ids |})
  | line :: ls =>
      let trimmed := trim line in
      if isEmpty trimmed then processLines ls rest isComplete ids
      else
        let '(wasComplete, calls, ids') := processLine trimmed ids in
        let '(evs, ic) := relay true calls isComplete in
        if wasComplete then
          (evs, {| buffer := EmptyString; isComplete := ic;
                   processedIds := ids' |})
        else
          let '(evs', st) := processLines ls rest ic ids' in
          ((evs ++ evs')%list, st)
  end.

(** The outer [while (true)] loop over the reads. *)
Fixpoint readLoop (reads : list readResult) (st : loopState) : list event :=
  match reads with
  | [] =>
      (* done *)
      let evs :=
        if negb (isComplete st) && negb (isEmpty (trim (buffer st))) then
          let trimmed := trim (buffer st) in
          if startsWith "data: " trimmed then
            let '(_, calls, _) := processLine trimmed (processedIds st) in
            fst (relay false calls (isComplete st))
          else []
        else [] in
      (evs ++ (if negb (isComplete st) then [Complete] else []))%list
  | Rejected message :: _ => [Failed (Thrown message)]
  | Value chunk :: reads' =>
      if isEmpty chunk then readLoop reads' st
      else
        let '(lines, rest) := splitLines (buffer st ++ chunk) in
        let '(evs, st') :=
          processLines lines rest (isComplete st) (processedIds st) in
        (evs ++ readLoop reads' st')%list
  end.

(** [askQuestionStream], from the response of [fetch] on. *)
Definition askQuestionStream (r : response) : list event :=
  match r with
  | FetchRejected message => [Failed (Thrown message)]
  | NotOk status statusText => [Failed (ApiRequestFailed status statusText)]
  | NoBody => [Failed ResponseBodyNull]
  | Body reads =>
      readLoop reads {| buffer := EmptyString; isComplete := false;
                        processedIds := [] |}
  end.

End Api.

(* ================================================================== *)
(** ** App.tsx: [addSpaceBetweenWords] and the chunk handler *)
(* ================================================================== *)

Module App.
Import JsString Regex Json.
Import Api (ExecutedTool, StreamChunk).

(** [/([a-z])([A-Z])/g] with replacement ['$1 $2']. *)
Definition camelCase : matcher := fun s =>
  match s with
  | String a (String b _) =>
      if isLower a && isUpper b
      then Some (2, String a (String " " (String b "")))
      else None
  | _ => None
  end.

(** [/([a-z])(I)([a-z])/g] with replacement ['$1 $2 $3']. *)
Definition gluedI : matcher := fun s =>
  match s with
  | String a (String b (String c _)) =>
      if isLower a && Ascii.eqb b "I" && isLower c
      then Some (3, String a (" I " ++ String c ""))
      else None
  | _ => None
  end.

Definition shortWords : list string :=
  ["will"; "can"; "should"; "would"; "may"; "might"].

(** The alternation [(will|can|should|would|may|might)] followed by
    [([a-z])], under the [i] flag: the alternatives are tried in order, and
    the next one is tried when the letter after the word is missing. *)
Fixpoint wordThenLetter (ws : list string) (s : string)
  : option (string * ascii) :=
  match ws with
  | [] => None
  | w :: ws' =>
      if startsWithCI w s then
        match firstChar (drop (String.length w) s) with
        | Some c => if isLetter c then Some (take (String.length w) s, c)
                    else wordThenLetter ws' s
        | None => wordThenLetter ws' s
        end
      else wordThenLetter ws' s
  end.

(** [/([a-z])(will|can|should|would|may|might)([a-z])/gi] with replacement
    ['$1 $2 $3']. *)
Definition gluedWord : matcher := fun s =>
  match s with
  | String a s' =>
      if isLetter a then
        match wordThenLetter shortWords s' with
        | Some (w, c) =>
            Some (String.length w + 2,
                  String a (" " ++ w ++ " " ++ String c ""))
        | None => None
        end
      else None
  | EmptyString => None
  end.

Definition addSpaceBetweenWords (text : string) : string :=
  let result := replaceAll camelCase text in
  let result := replaceAll gluedI result in
  let result := replaceAll gluedWord result in
  result.

Inductive MessageBlock : Type :=
| Reasoning (content : string)
| Tool (tool : ExecutedTool)
| Content (content : string).

(** *** Reasoning: control tags and output spans *)

(** The chain of [replace] calls on [chunk.reasoning], in source order. *)
Definition cleanedReasoning (reasoning : string) : string :=
  replaceAll (literal "</redacted_reasoning>")
    (replaceAll (literal "<think>")
      (replaceAll (literal "</think>")
        (replaceAll (literal "<think>")
          (replaceAll (literal "</tool>") reasoning)))).

(** The text captured by [(.*?)] when [/<output>(.*?)<\/output>/s] matches
    at the head of [s]: what stands between the opening tag and the first
    closing tag after it. The [s] flag lets [.] match line terminators. *)
Definition outputInner (s : string) : option string :=
  if startsWith "<output>" s then
    let after := drop 8 s in
    match indexOf "</output>" after with
    | Some n => Some (take n after)
    | None => None
    end
  else None.

(** [/<output>(.*?)<\/output>/gs] as a pattern. *)
Definition outputSpan : matcher := fun s =>
  match outputInner s with
  | Some inner => Some (8 + String.length inner + 9, "")
  | None => None
  end.

(** [outputMatch.match(/<output>(.*?)<\/output>/s)[1]]: the capture of the
    leftmost match. *)
Fixpoint firstCapture (s : string) : option string :=
  match outputInner s with
  | Some inner => Some inner
  | None => match s with
            | EmptyString => None
            | String _ s' => firstCapture s'
            end
  end.

(** [reasoningWithoutOutput]: each match is removed where it first occurs
    and the result is trimmed; without a match the text is left as it is. *)
Definition withoutOutput (cleaned : string) (outputMatches : list string)
  : string :=
  match outputMatches with
  | [] => cleaned
  | _ => trim (fold_left (fun text m => removeFirst m text)
                 outputMatches cleaned)
  end.

Definition isOutputBlock (outputContent : string) (b : MessageBlock) : bool :=
  match b with
  | Tool tool =>
      String.eqb (Api.type tool) "output"
      && match Api.output tool with
         | Some o => String.eqb o outputContent
         | None => false
         end
  | _ => false
  end.

(** The block pushed for an extracted output. *)
Definition outputTool (outputContent : string) : ExecutedTool :=
  {| Api.index := (-1)%Z;
     Api.type := "output";
     Api.arguments := None;
     Api.search_results := None;
     Api.output := Some outputContent |}.

(** The second [forEach] over the matches: an output block is pushed for
    each non-empty capture that no output block carries yet. *)
Fixpoint pushOutputs (outputMatches : list string)
    (newBlocks : list MessageBlock) (hasChanges : bool)
  : list MessageBlock * bool :=
  match outputMatches with
  | [] => (newBlocks, hasChanges)
  | outputMatch :: rest =>
      match firstCapture outputMatch with
      | Some captured =>
          let outputContent := trim captured in
          if negb (isEmpty outputContent)
             && isEmpty_list (filter (isOutputBlock outputContent) newBlocks)
          then pushOutputs rest
                 (newBlocks ++ [Tool (outputTool outputContent)])%list true
          else pushOutputs rest newBlocks hasChanges
      | None => pushOutputs rest newBlocks hasChanges
      end
  end.

(** *** Reasoning: concatenation *)

Fixpoint lastBlock (l : list MessageBlock) : option MessageBlock :=
  match l with
  | [] => None
  | [b] => Some b
  | _ :: l' => lastBlock l'
  end.

(** [newBlocks[lastIndex] = b] for a non-empty list. *)
Fixpoint setLast (b : MessageBlock) (l : list MessageBlock)
  : list MessageBlock :=
  match l with
  | [] => []
  | [_] => [b]
  | x :: l' => x :: setLast b l'
  end.

Definition isSpace (c : ascii) : bool := Ascii.eqb c " ".

(** [needsSpace], from the last character of the block and the first of
    the fragment; the test of a missing character fails. *)
Definition needsSpace (lastContent fragment : string) : bool :=
  match lastChar lastContent, firstChar fragment with
  | Some l, Some f =>
      isAlnum l && isAlnum f && negb (isSpace l) && negb (isSpace f)
  | _, _ => false
  end.

Definition appendReasoning (newBlocks : list MessageBlock)
    (reasoningWithoutOutput : string) : list MessageBlock :=
  match lastBlock newBlocks with
  | Some (Reasoning lastContent) =>
      let separator :=
        if needsSpace lastContent reasoningWithoutOutput then " " else "" in
      let combined := lastContent ++ separator ++ reasoningWithoutOutput in
      let fixedText := addSpaceBetweenWords combined in
      setLast (Reasoning fixedText) newBlocks
  | _ =>
      let fixedText := addSpaceBetweenWords reasoningWithoutOutput in
      (newBlocks ++ [Reasoning fixedText])%list
  end.

Definition handleReasoning (newBlocks : list MessageBlock)
    (hasChanges : bool) (reasoning : string) : list MessageBlock * bool :=
  let cleaned := cleanedReasoning reasoning in
  let outputMatches := matchAll outputSpan cleaned in
  let reasoningWithoutOutput := withoutOutput cleaned outputMatches in
  let '(newBlocks, hasChanges) :=
    pushOutputs outputMatches newBlocks hasChanges in
  if negb (isEmpty reasoningWithoutOutput)
  then (appendReasoning newBlocks reasoningWithoutOutput, true)
  else (newBlocks, hasChanges).

(** *** Tools *)

Definition toolIndices (l : list MessageBlock) : list Z :=
  flat_map (fun b => match b with
                     | Tool tool => [Api.index tool]
                     | _ => []
                     end) l.

Definition hasIndex (existingToolIndices : list Z) (i : Z) : bool :=
  existsb (Z.eqb i) existingToolIndices.

(** The [for] loop over [chunk.executed_tools]. *)
Fixpoint pushTools (tools : list ExecutedTool)
    (existingToolIndices : list Z) (newBlocks : list MessageBlock)
    (hasChanges : bool) : list MessageBlock * bool :=
  match tools with
  | [] => (newBlocks, hasChanges)
  | tool :: rest =>
      if negb (hasIndex existingToolIndices (Api.index tool))
      then pushTools rest (Api.index tool :: existingToolIndices)
             (newBlocks ++ [Tool tool])%list true
      else pushTools rest existingToolIndices newBlocks hasChanges
  end.

Definition handleTools (newBlocks : list MessageBlock) (hasChanges : bool)
    (tools : list ExecutedTool) : list MessageBlock * bool :=
  pushTools tools (toolIndices newBlocks) newBlocks hasChanges.

(** *** Content *)

Definition handleContent (newBlocks : list MessageBlock) (content : string)
  : list MessageBlock :=
  match lastBlock newBlocks with
  | Some (Content lastContent) =>
      setLast (Content (lastContent ++ content)) newBlocks
  | _ => (newBlocks ++ [Content content])%list
  end.

(** *** The handler *)

(** The body of the state updater of [onChunk], from the blocks of the
    streaming message: the new blocks and [hasChanges]. *)
Definition handleChunk (currentBlocks : list MessageBlock)
    (chunk : StreamChunk) : list MessageBlock * bool :=
  let newBlocks := currentBlocks in
  let hasChanges := false in
  let '(newBlocks, hasChanges) :=
    match Api.reasoning chunk with
    | Some r => if negb (isEmpty r)
                then handleReasoning newBlocks hasChanges r
                else (newBlocks, hasChanges)
    | None => (newBlocks, hasChanges)
    end in
  let '(newBlocks, hasChanges) :=
    match Api.executed_tools chunk with
    | Some (t :: ts) => handleTools newBlocks hasChanges (t :: ts)
    | _ => (newBlocks, hasChanges)
    end in
  match Api.content chunk with
  | Some c => if negb (isEmpty c)
              then (handleContent newBlocks c, true)
              else (newBlocks, hasChanges)
  | None => (newBlocks, hasChanges)
  end.

(** The blocks after a chunk: the new blocks when something changed, the
    previous ones otherwise. *)
Definition applyChunk (blocks : list MessageBlock) (chunk : StreamChunk)
  : list MessageBlock :=
  let '(newBlocks, hasChanges) := handleChunk blocks chunk in
  if hasChanges then newBlocks else blocks.

(** *** The state of the component during a turn *)

Inductive Role : Type := user | assistant.

Record Message : Type := {
  role : Role;
  content : option string;
  audioUrl : option string;
  blocks : option (list MessageBlock)
}.

Record State : Type := {
  messages : list Message;
  streamingMessageIndexRef : Z;
  isLoading : bool;
  error : option Api.error
}.

Fixpoint setNth (n : nat) (m : Message) (l : list Message) : list Message :=
  match l, n with
  | [], _ => []
  | _ :: l', O => m :: l'
  | x :: l', S k => x :: setNth k m l'
  end.

Fixpoint removeNth (n : nat) (l : list Message) : list Message :=
  match l, n with
  | [], _ => []
  | _ :: l', O => l'
  | x :: l', S k => x :: removeNth k l'
  end.

Definition blocksOf (m : Message) : list MessageBlock :=
  match blocks m with Some bs => bs | None => [] end.

(** The state updater that the [onChunk] callback gives to [setMessages],
    applied to the state in which it runs: the ref is read when the updater
    runs. *)
Definition onChunk (st : State) (chunk : StreamChunk) : State :=
  let index := streamingMessageIndexRef st in
  if (0 <=? index)%Z && (index <? Z.of_nat (List.length (messages st)))%Z then
    match nth_error (messages st) (Z.to_nat index) with
    | Some currentMessage =>
        let '(newBlocks, hasChanges) :=
          handleChunk (blocksOf currentMessage) chunk in
        if hasChanges then
          {| messages :=
               setNth (Z.to_nat index)
                 {| role := role currentMessage;
                    content := content currentMessage;
                    audioUrl := audioUrl currentMessage;
                    blocks := Some newBlocks |} (messages st);
             streamingMessageIndexRef := index;
             isLoading := isLoading st;
             error := error st |}
        else st
    | None => st
    end
  else st.

(** The [onComplete] callback. *)
Definition onComplete (st : State) : State :=
  {| messages := messages st;
     streamingMessageIndexRef := (-1)%Z;
     isLoading := false;
     error := error st |}.

(** The [onError] callback: an empty streaming message is removed. *)
Definition onError (st : State) (err : Api.error) : State :=
  let index := streamingMessageIndexRef st in
  {| messages :=
       if (0 <=? index)%Z
          && match nth_error (messages st) (Z.to_nat index) with
             | Some m => isEmpty_list (blocksOf m)
             | None => true
             end
       then removeNth (Z.to_nat index) (messages st)
       else messages st;
     streamingMessageIndexRef := (-1)%Z;
     isLoading := false;
     error := Some err |}.

(** The callbacks with every state updater run when its callback is
    called, as when React renders after each callback. *)
Definition handle (st : State) (ev : Api.event) : State :=
  match ev with
  | Api.Chunk chunk => onChunk st chunk
  | Api.Complete => onComplete st
  | Api.Failed err => onError st err
  | Api.Warning _ => st
  end.

(** The state when a turn starts: the user message and an empty assistant
    message, which is the streaming one. *)
Definition startTurn (prev : list Message) (userMessage : string) : State :=
  {| messages :=
       (prev ++ [ {| role := user; content := Some userMessage;
                     audioUrl := None; blocks := None |};
                  {| role := assistant; content := None;
                     audioUrl := None; blocks := Some [] |} ])%list;
     streamingMessageIndexRef := Z.of_nat (List.length prev) + 1;
     isLoading := true;
     error := None |}.

(** The blocks of the last message. *)
Definition transcript (st : State) : list MessageBlock :=
  match List.rev (messages st) with
  | m :: _ => blocksOf m
  | [] => []
  end.

End App.

(* ================================================================== *)
(** ** A turn: frames fed to the decoder and handled by the component *)
(* ================================================================== *)

Module Turn.
Import JsString Json Api App.

Definition reasoningChunk (r : string) : StreamChunk :=
  {| reasoning := Some r; executed_tools := None; Api.content := None |}.
Definition toolsChunk (ts : list ExecutedTool) : StreamChunk :=
  {| reasoning := None; executed_tools := Some ts; Api.content := None |}.
Definition contentChunk (c : string) : StreamChunk :=
  {| reasoning := None; executed_tools := None; Api.content := Some c |}.

(** One frame given to [processLine] and its calls handled by the
    component: the state and the processed ids afterwards. *)
Definition feedLine (s : State * list json) (line : string)
  : State * list json :=
  let '(st, ids) := s in
  let '(_, calls, ids') := processLine line ids in
  (fold_left handle (fst (relay true calls false)) st, ids').

Definition feedLines (lines : list string) (s : State * list json)
  : State * list json :=
  fold_left feedLine lines s.

(** The state of a turn under way: the messages before it, the user
    message, and the streaming assistant message with its blocks. *)
Definition streaming (prev : list Message) (userMessage : string)
    (bs : list MessageBlock) : State :=
  {| messages :=
       (prev ++ [ {| role := user; App.content := Some userMessage;
                     audioUrl := None; blocks := None |};
                  {| role := assistant; App.content := None;
                     audioUrl := None; blocks := Some bs |} ])%list;
     streamingMessageIndexRef := Z.of_nat (List.length prev) + 1;
     isLoading := true;
     error := None |}.

(** *** Inputs of the examples *)

Definition lineFeed : string := String (ascii_of_N 10) "".

(** [jsonText s] is [s] with every apostrophe turned into a double quote:
    JSON texts are written with apostrophes below. *)
Fixpoint jsonText (s : string) : string :=
  match s with
  | EmptyString => EmptyString
  | String c s' =>
      String (if Ascii.eqb c "'" then "034"%char else c) (jsonText s')
  end.

Definition helloLines : list string :=
  map jsonText
    [ "data: {'id':'1','choices':[{'delta':{'content':'Hello'}}]}";
      "data: {'id':'2','choices':[{'delta':{'content':' world'}}]}";
      "data: [DONE]" ].

Definition doneChunk : string := "data: [DONE]" ++ lineFeed.
Definition lateChunk : string :=
  jsonText "data: {'choices':[{'delta':{'content':'late'}}]}" ++ lineFeed.
Definition malformedLine : string := "data: {not valid json".

Definition emptyDeltaLine : string :=
  jsonText "data: {'id':'a','choices':[{'delta':{'content':''}}]}".
Definition reusedIdLine : string :=
  jsonText "data: {'id':'a','choices':[{'delta':{'content':'x'}}]}".
Definition idLine : string :=
  jsonText "data: {'id':'7','choices':[{'delta':{'content':'x'}}]}".
Definition otherLine : string :=
  jsonText "data: {'id':'8','choices':[{'delta':{'reasoning':'y'}}]}".
Definition emptyIdLine : string :=
  jsonText "data: {'id':'','choices':[{'delta':{'content':'x'}}]}".

Definition searchTool : ExecutedTool :=
  {| index := 0; type := "search"; arguments := None;
     search_results := None; output := None |}.

End Turn.

(* ================================================================== *)
(** ** Predicates used by the statements *)
(* ================================================================== *)

Module Props.
Import JsString Regex Json Api App.

(** No lower-case letter of [s] is followed by an upper-case one. *)
Fixpoint noCamel (s : string) : bool :=
  match s with
  | String a ((String b _) as s') =>
      negb (isLower a && isUpper b) && noCamel s'
  | _ => true
  end.

(** [spaced s t]: [t] is [s] with spaces inserted. *)
Inductive spaced : string -> string -> Prop :=
| spaced_nil : spaced "" ""
| spaced_keep c s t : spaced s t -> spaced (String c s) (String c t)
| spaced_insert s t : spaced s t -> spaced s (String " " t).

(** No character of [s] is ["<"]. *)
Fixpoint noLt (s : string) : bool :=
  match s with
  | EmptyString => true
  | String c s' => negb (Ascii.eqb c "<") && noLt s'
  end.

(** A pattern that can only match at a ["<"]. *)
Definition anchored (m : matcher) : Prop :=
  forall c s, Ascii.eqb c "<" = false -> m (String c s) = None.

(** The parse consumed something and did not reach the recursion bound. *)
Definition shorter {A : Type} (s : string) (p : parsed A) : Prop :=
  match p with
  | Ok _ r => String.length r < String.length s
  | SyntaxError => True
  | OutOfFuel => False
  end.

(** A reasoning fragment with one output span, and the span. *)
Definition spanOf (inner : string) : string :=
  "<output>" ++ inner ++ "</output>".
Definition fragmentOf (pre inner post : string) : string :=
  pre ++ "<output>" ++ inner ++ "</output>" ++ post.

Definition isWarn (c : call) : bool :=
  match c with ConsoleWarn _ => true | _ => false end.

Definition isTool (b : MessageBlock) : bool :=
  match b with Tool _ => true | _ => false end.

(** The indices of the tool blocks, those equal to [-1] left out. *)
Definition realIndices (l : list MessageBlock) : list Z :=
  filter (fun i => negb (i =? -1)%Z) (toolIndices l).

(** The first span of a text: what stands before the first [<output>],
    what stands between it and the first [</output>] after it, and what
    follows that closing tag. *)
Definition firstSpan (s : string) : option (string * string * string) :=
  match indexOf "<output>" s with
  | Some p =>
      let after := drop (p + 8) s in
      match indexOf "</output>" after with
      | Some q => Some (take p s, take q after, drop (q + 9) after)
      | None => None
      end
  | None => None
  end.

End Props.

(* ================================================================== *)
(** ** App.tsx: [getContentText] and [formatDuration] *)
(* ================================================================== *)

Module Helpers.
Import JsString App.

(** [getContentText(message)]: the texts of the content blocks, joined by
    two line feeds; the empty string for a message without blocks. *)
Definition getContentText (message : Message) : string :=
  match blocks message with
  | None => EmptyString
  | Some bs =>
      String.concat (String (ascii_of_N 10) (String (ascii_of_N 10) ""))
        (flat_map (fun block => match block with
                                | Content c => [c]
                                | _ => []
                                end) bs)
  end.

(** [n.toString()] for a natural number (below [10 ^ 21]): its decimal
    digits. *)
Definition toString (n : nat) : string :=
  NilEmpty.string_of_uint (Nat.to_uint n).

Fixpoint repeated (pad : string) (k : nat) : string :=
  match k with
  | O => EmptyString
  | S k' => pad ++ repeated pad k'
  end.

(** [s.padStart(targetLength, padString)] for ASCII strings: [s] when it is
    long enough or the padding is empty, else [s] after as much of the
    repeated padding as is missing. *)
Definition padStart (targetLength : nat) (padString s : string) : string :=
  if (targetLength <=? String.length s)%nat || isEmpty padString then s
  else
    let missing := targetLength - String.length s in
    take missing (repeated padString missing) ++ s.

(** [formatDuration(seconds)] for a whole number of seconds, which is what
    the recording timer counts. *)
Definition formatDuration (seconds : nat) : string :=
  let mins := seconds / 60 in
  let secs := seconds mod 60 in
  toString mins ++ ":" ++ padStart 2 "0" (toString secs).

End Helpers.

(* ================================================================== *)
(** ** Further predicates used by the statements *)
(* ================================================================== *)

Module MoreProps.
Import JsString Regex Json Api App Props.

(** The lines and the rest put together again. *)
Definition joinLines (lines : list string) (rest : string) : string :=
  fold_right (fun l acc => l ++ String (ascii_of_N 10) acc) rest lines.

Fixpoint noLineFeed (s : string) : bool :=
  match s with
  | EmptyString => true
  | String c s' => negb (Ascii.eqb c (ascii_of_N 10)) && noLineFeed s'
  end.

(** A line whose payload is the completion sentinel. *)
Definition isSentinelLine (line : string) : bool :=
  startsWith "data: " line && String.eqb (trim (drop 6 line)) "[DONE]".

(** A line that does not complete the turn. *)
Definition liveLine (l : string) : bool := negb (isSentinelLine (trim l)).

Definition isFailed (ev : event) : bool :=
  match ev with Failed _ => true | _ => false end.

Definition notFailed (ev : event) : bool := negb (isFailed ev).

Definition isComplete_event (ev : event) : bool :=
  match ev with Complete => true | _ => false end.

Definition isValue (r : readResult) : bool :=
  match r with Value _ => true | Rejected _ => false end.

Definition isOnComplete (c : call) : bool :=
  match c with OnComplete => true | _ => false end.

(** [s] without its spaces. *)
Fixpoint stripSpaces (s : string) : string :=
  match s with
  | EmptyString => EmptyString
  | String c s' =>
      if Ascii.eqb c " " then stripSpaces s' else String c (stripSpaces s')
  end.

(** A pattern whose replacement is the matched text with spaces
    inserted. *)
Definition inserting (m : matcher) : Prop :=
  forall s len r,
    m s = Some (len, r) ->
    0 < len /\ len <= String.length s /\ spaced (take len s) r.

(** The texts of the content blocks, and of the reasoning blocks, put end
    to end. *)
Fixpoint contentOf (l : list MessageBlock) : string :=
  match l with
  | [] => EmptyString
  | Content c :: l' => c ++ contentOf l'
  | _ :: l' => contentOf l'
  end.

Fixpoint reasoningOf (l : list MessageBlock) : string :=
  match l with
  | [] => EmptyString
  | Reasoning c :: l' => c ++ reasoningOf l'
  | _ :: l' => reasoningOf l'
  end.

(** The fragment a chunk carries on a channel, empty when it has none. *)
Definition contentFragment (chunk : StreamChunk) : string :=
  match Api.content chunk with Some c => c | None => EmptyString end.

Definition reasoningFragment (chunk : StreamChunk) : string :=
  match reasoning chunk with Some r => r | None => EmptyString end.

(** A chunk whose reasoning holds no ["<"], and a chunk without tools. *)
Definition plainReasoning (chunk : StreamChunk) : bool :=
  noLt (reasoningFragment chunk).

Definition noTools (chunk : StreamChunk) : bool :=
  match executed_tools chunk with
  | Some (_ :: _) => false
  | _ => true
  end.

(** Two text blocks of the same type. *)
Definition sameText (a b : MessageBlock) : bool :=
  match a, b with
  | Reasoning _, Reasoning _ => true
  | Content _, Content _ => true
  | _, _ => false
  end.

(** No two text blocks of the same type follow one another. *)
Fixpoint coalesced (l : list MessageBlock) : bool :=
  match l with
  | a :: ((b :: _) as l') => negb (sameText a b) && coalesced l'
  | _ => true
  end.

(** The text of a text block is not empty. *)
Definition hasText (b : MessageBlock) : bool :=
  match b with
  | Reasoning c | Content c => negb (isEmpty c)
  | Tool _ => true
  end.

(** The tools of the tool blocks, in order. *)
Definition toolsOf (l : list MessageBlock) : list ExecutedTool :=
  flat_map (fun b => match b with Tool t => [t] | _ => [] end) l.

(** The texts carried by the output blocks (tool blocks of type
    ["output"] with an output), in order. *)
Definition outputTexts (l : list MessageBlock) : list string :=
  flat_map (fun b => match b with
                     | Tool t =>
                         if String.eqb (Api.type t) "output"
                         then match Api.output t with
                              | Some o => [o]
                              | None => []
                              end
                         else []
                     | _ => []
                     end) l.

(** The size of a list of blocks: one for each block and one for each
    character of text. *)
Definition weight (b : MessageBlock) : nat :=
  match b with
  | Reasoning c | Content c => S (String.length c)
  | Tool _ => 1
  end.

Definition size (l : list MessageBlock) : nat :=
  fold_right (fun b n => weight b + n) 0 l.

(** [nb] keeps the history of [bs]: it is no shorter, and every block of
    [bs] but the last is where it was. *)
Definition keepsHistory (bs nb : list MessageBlock) : Prop :=
  List.length bs <= List.length nb
  /\ firstn (List.length bs - 1) nb = firstn (List.length bs - 1) bs.

(** A chunk that carries nothing but content. *)
Definition contentOnly (chunk : StreamChunk) : bool :=
  isEmpty (reasoningFragment chunk) && noTools chunk.

(** A tool whose index the list holds, and one whose index it does not
    hold. *)
Definition knownTool (indices : list Z) (tool : ExecutedTool) : bool :=
  hasIndex indices (Api.index tool).

Definition freshTool (indices : list Z) (tool : ExecutedTool) : bool :=
  negb (hasIndex indices (Api.index tool)).

(** The character of a decimal digit. *)
Definition digit (k : nat) : ascii := ascii_of_nat (48 + k).

(** A call, and an event, that passes no chunk without data. *)
Definition callHasData (c : call) : bool :=
  match c with OnChunk chunk => hasData chunk | _ => true end.

Definition carriesData (ev : event) : bool :=
  match ev with Chunk chunk => hasData chunk | _ => true end.

(** An event that ends the turn, and a state in which no turn is under
    way. *)
Definition isFinal (ev : event) : bool :=
  isComplete_event ev || isFailed ev.

Definition idle (st : State) : Prop :=
  isLoading st = false /\ streamingMessageIndexRef st = (-1)%Z.

(** One step of the handler from [(bs, hc)] to [(nb, hc')]: nothing is
    lost, [hc'] stays [false] only if nothing was done, and becomes [true]
    only with a growth. *)
Definition stepOk (bs : list MessageBlock) (hc : bool)
    (p : list MessageBlock * bool) : Prop :=
  size bs <= size (fst p)
  /\ (snd p = false -> hc = false /\ fst p = bs)
  /\ (snd p = true -> hc = true \/ size bs < size (fst p)).

End MoreProps.

(* ================================================================== *)
(** ** App.tsx: when React runs the state updaters *)
(* ================================================================== *)

Module Updates.
Import JsString Api App Turn.

(** [setMessages(updater)] does not run [updater] when it is called: React
    (the component is mounted with [createRoot]) queues it and runs the
    queue, in order, when it next renders the component, which is after the
    synchronous code that made the calls has returned. The updater of
    [onChunk] reads [streamingMessageIndexRef.current] when it runs. Only
    when no update of the component is pending may React compute the new
    state at once (the fast path of [useState]); a state so computed is the
    one rendered.

    [App.onChunk] is the updater of [onChunk] applied to the state it runs
    in, and [App.handle] has every updater run when its callback is called,
    which is [pass] on one event: React renders after each callback. *)

(** An updater waiting for the next render. *)
Inductive update : Type :=
| ChunkUpdate (chunk : StreamChunk)
    (* the updater of [onChunk] *)
| ErrorUpdate (index : Z).
    (* the updater of [onError], with the index read before the reset *)

(** The updater of [onError] on [prev]. *)
Definition dropEmpty (index : Z) (prev : list Message) : list Message :=
  if (0 <=? index)%Z
     && match nth_error prev (Z.to_nat index) with
        | Some m => isEmpty_list (blocksOf m)
        | None => true
        end
  then removeNth (Z.to_nat index) prev
  else prev.

Definition runUpdate (st : State) (u : update) : State :=
  match u with
  | ChunkUpdate chunk => onChunk st chunk
  | ErrorUpdate index =>
      {| messages := dropEmpty index (messages st);
         streamingMessageIndexRef := streamingMessageIndexRef st;
         isLoading := isLoading st;
         error := error st |}
  end.

(** Whether the updater of [onChunk] returns new messages, and not
    [prev]. *)
Definition chunkChanges (st : State) (chunk : StreamChunk) : bool :=
  let index := streamingMessageIndexRef st in
  (0 <=? index)%Z && (index <? Z.of_nat (List.length (messages st)))%Z
  && match nth_error (messages st) (Z.to_nat index) with
     | Some currentMessage =>
         snd (handleChunk (blocksOf currentMessage) chunk)
     | None => false
     end.

(** The component between two renders: the ref and the states as last
    computed, the updaters queued since, and whether an update is
    pending. *)
Record Ui : Type := {
  current : State;
  queue : list update;
  pending : bool
}.

(** One callback of [askQuestionStream]. The updater of a chunk is run at
    once when no update is pending, and an update is pending afterwards
    when it returned new messages; it is queued otherwise. After
    [onComplete] and [onError] the ref is [-1], so that the updater of a
    later chunk returns [prev] whenever it runs; and the updater of
    [onError] uses the index it was given, so that it gives the same
    messages at the render as at once, which React may do only when
    nothing is queued. Both callbacks are therefore taken to leave an
    update pending, and the updater of [onError] to be queued: that changes
    nothing of what is rendered. *)
Definition dispatch (ui : Ui) (ev : event) : Ui :=
  match ev with
  | Chunk chunk =>
      if pending ui then
        {| current := current ui;
           queue := (queue ui ++ [ChunkUpdate chunk])%list;
           pending := true |}
      else
        {| current := onChunk (current ui) chunk;
           queue := queue ui;
           pending := chunkChanges (current ui) chunk |}
  | Complete =>
      {| current := onComplete (current ui);
         queue := queue ui;
         pending := true |}
  | Failed err =>
      {| current :=
           {| messages := messages (current ui);
              streamingMessageIndexRef := (-1)%Z;
              isLoading := false;
              error := Some err |};
         queue :=
           (queue ui
            ++ [ErrorUpdate (streamingMessageIndexRef (current ui))])%list;
         pending := true |}
  | Warning _ => ui
  end.

(** The render: the queued updaters are run in order. *)
Definition render (ui : Ui) : State :=
  fold_left runUpdate (queue ui) (current ui).

(** The events of one synchronous pass (the lines of one read), handled
    from the rendered state [st], and the render that follows. [clean]
    tells whether React finds no update pending when the pass starts, which
    depends on the renders before it. *)
Definition pass (clean : bool) (evs : list event) (st : State) : State :=
  render (fold_left dispatch evs
            {| current := st; queue := []; pending := negb clean |}).

(** The state after a turn that ended without an error: the messages of
    the turn, nothing loading and no streaming message. *)
Definition settled (prev : list Message) (userMessage : string)
    (bs : list MessageBlock) : State :=
  {| messages := messages (streaming prev userMessage bs);
     streamingMessageIndexRef := (-1)%Z;
     isLoading := false;
     error := None |}.

(** The three lines of the scenario as the text of one read. *)
Definition helloRead : string :=
  String.concat lineFeed helloLines ++ lineFeed.

End Updates.

(* ================================================================== *)
(** ** Facts about the string primitives *)
(* ================================================================== *)

Module StringFacts.
Import JsString Regex.

Lemma append_nil_r (s : string) : s ++ "" = s.
Proof. induction s; simpl; congruence. Qed.

Lemma append_assoc (a b c : string) : (a ++ b) ++ c = a ++ (b ++ c).
Proof. induction a; simpl; congruence. Qed.

Lemma length_append (a b : string) :
  String.length (a ++ b) = String.length a + String.length b.
Proof. induction a; simpl; congruence. Qed.

Lemma drop_append (a b : string) : drop (String.length a) (a ++ b) = b.
Proof. induction a; simpl; auto. Qed.

Lemma take_append (a b : string) : take (String.length a) (a ++ b) = a.
Proof. induction a; simpl; congruence. Qed.

Lemma take_drop (n : nat) (s : string) : take n s ++ drop n s = s.
Proof.
  revert s; induction n as [|n IH]; intros [|c s]; simpl; auto.
  now rewrite IH.
Qed.

Lemma length_drop (n : nat) (s : string) :
  String.length (drop n s) = String.length s - n.
Proof. revert s; induction n as [|n IH]; intros [|c s]; simpl; auto. Qed.

Lemma startsWith_append (p s : string) : startsWith p (p ++ s) = true.
Proof. induction p; simpl; auto. now rewrite Ascii.eqb_refl. Qed.

Lemma startsWith_take (p s : string) :
  startsWith p s = true -> take (String.length p) s = p.
Proof.
  revert s; induction p as [|a p IH]; intros [|b s]; simpl; auto;
    try discriminate.
  intros H. apply andb_true_iff in H as [Hab Hp].
  apply Ascii.eqb_eq in Hab. subst b. now rewrite IH.
Qed.

(** The character classes are disjoint where the proofs need it. *)
Lemma lower_not_upper (c : ascii) : isLower c = true -> isUpper c = false.
Proof.
  destruct c as [[] [] [] [] [] [] [] []]; vm_compute; congruence.
Qed.

Lemma alnum_not_space (c : ascii) :
  isAlnum c = true -> Ascii.eqb c " " = false.
Proof.
  destruct c as [[] [] [] [] [] [] [] []]; vm_compute; congruence.
Qed.

(** Passing over the characters of a match is resuming after them. *)
Lemma replaceFrom_skip (m : matcher) (k : nat) (s : string) :
  replaceFrom m k s = replaceAll m (drop k s).
Proof.
  unfold replaceAll. revert k; induction s as [|c s IH]; intros [|k];
    simpl; auto.
Qed.

Lemma matchFrom_skip (m : matcher) (k : nat) (s : string) :
  matchFrom m k s = matchAll m (drop k s).
Proof.
  unfold matchAll. revert k; induction s as [|c s IH]; intros [|k];
    simpl; auto.
Qed.

Lemma replaceAll_cons (m : matcher) (c : ascii) (s : string) :
  replaceAll m (String c s) =
  match m (String c s) with
  | Some (len, r) => r ++ replaceAll m (drop (Nat.pred len) s)
  | None => String c (replaceAll m s)
  end.
Proof.
  unfold replaceAll at 1. simpl.
  destruct (m (String c s)) as [[len r]|]; auto.
  now rewrite replaceFrom_skip.
Qed.

Lemma matchAll_cons (m : matcher) (c : ascii) (s : string) :
  matchAll m (String c s) =
  match m (String c s) with
  | Some (len, _) =>
      take len (String c s) :: matchAll m (drop (Nat.pred len) s)
  | None => matchAll m s
  end.
Proof.
  unfold matchAll at 1. simpl.
  destruct (m (String c s)) as [[len r]|]; auto.
  now rewrite matchFrom_skip.
Qed.

Lemma replaceAll_none (m : matcher) (c : ascii) (s : string) :
  m (String c s) = None ->
  replaceAll m (String c s) = String c (replaceAll m s).
Proof. intros H. now rewrite replaceAll_cons, H. Qed.

Lemma removeFirst_head (p s : string) :
  startsWith p s = true -> removeFirst p s = drop (String.length p) s.
Proof.
  intros H. destruct s; cbn [removeFirst]; rewrite H; reflexivity.
Qed.

End StringFacts.

(* ================================================================== *)
(** ** [JSON.parse] always returns *)
(* ================================================================== *)

Module JsonFacts.
Import JsString Json Props StringFacts.

Lemma skipWs_length (s : string) :
  String.length (skipWs s) <= String.length s.
Proof.
  induction s as [|c s IH]; simpl; auto.
  destruct (isWs c); simpl; lia.
Qed.

Lemma skipWs_cons (s : string) (c : ascii) (r : string) :
  skipWs s = String c r -> String.length r < String.length s.
Proof.
  intros H. pose proof (skipWs_length s) as L. rewrite H in L. simpl in L. lia.
Qed.

Lemma stringItems_shorter (n : nat) : forall s,
  String.length s <= n -> shorter s (stringItems s).
Proof.
  induction n as [|n IH]; intros [|c s] Hn; simpl in Hn; try lia;
    try exact I.
  assert (Hstep : forall t (u : strItem),
             String.length t <= String.length s ->
             shorter (String c s)
               match stringItems t with
               | Ok l r => Ok (u :: l) r
               | other => other
               end).
  { intros t u Ht. assert (Hi : shorter t (stringItems t)) by (apply IH; lia).
    destruct (stringItems t); simpl in *; auto; lia. }
  cbn [stringItems].
  destruct (Ascii.eqb c "034"); [simpl; lia|].
  destruct (code c <? 32)%N; [exact I|].
  destruct (Ascii.eqb c "\").
  - destruct s as [|e s]; [exact I|].
    assert (Hs : forall u, shorter (String c (String e s))
               match stringItems s with
               | Ok l r => Ok (Unit16 u :: l) r
               | other => other
               end).
    { intros u.
      assert (Hi : shorter s (stringItems s)) by (apply IH; simpl in *; lia).
      destruct (stringItems s); simpl in *; auto; lia. }
    repeat match goal with
           | |- context [if Ascii.eqb e ?x then _ else _] =>
               destruct (Ascii.eqb e x); [apply Hs|]
           end.
    destruct (Ascii.eqb e "u"); [|exact I].
    destruct s as [|h1 [|h2 [|h3 [|h4 s3]]]]; try exact I.
    destruct (hex4 h1 h2 h3 h4); [|exact I].
    assert (Hi : shorter s3 (stringItems s3)) by (apply IH; simpl in *; lia).
    destruct (stringItems s3); simpl in *; auto; lia.
  - apply Hstep. lia.
Qed.

Lemma parseString_shorter (s : string) : shorter s (parseString s).
Proof.
  unfold parseString.
  pose proof (stringItems_shorter _ s (le_n _)) as H.
  destruct (stringItems s); simpl in *; auto.
Qed.

Lemma digits_length (s : string) : forall acc n v k r,
  digits acc n s = (v, k, r) ->
  String.length r + k = String.length s + n.
Proof.
  induction s as [|c s IH]; intros acc n v k r; simpl.
  - intros [= <- <- <-]. reflexivity.
  - destruct (isDigit c).
    + intros H. apply IH in H. lia.
    + intros [= <- <- <-]. reflexivity.
Qed.

Lemma digits_count (s : string) : forall acc n v k r,
  digits acc n s = (v, k, r) -> n <= k.
Proof.
  induction s as [|c s IH]; intros acc n v k r; simpl.
  - intros [= <- <- <-]. auto.
  - destruct (isDigit c).
    + intros H. apply IH in H. lia.
    + intros [= <- <- <-]. auto.
Qed.

Lemma intPart_shorter (s : string) (i : Z) (r : string) :
  intPart s = Some (i, r) -> String.length r < String.length s.
Proof.
  destruct s as [|c s]; [discriminate|]. unfold intPart.
  destruct (Ascii.eqb c "0"); [intros [= <- <-]; simpl; lia|].
  destruct (isDigit c) eqn:D; [|discriminate].
  destruct (digits 0 0 (String c s)) as [[v k] r'] eqn:E.
  intros [= <- <-]. pose proof E as E'. apply digits_length in E.
  simpl in E'. rewrite D in E'. apply digits_count in E'. simpl in *. lia.
Qed.

Lemma fracPart_length (m : Z) (s : string) (v : Z) (n : nat) (r : string) :
  fracPart m s = Some (v, n, r) -> String.length r <= String.length s.
Proof.
  destruct s as [|c s]; [intros [= <- <- <-]; auto|]. unfold fracPart.
  destruct (Ascii.eqb c ".").
  - destruct (digits m 0 s) as [[v' k] r'] eqn:E.
    destruct k; [discriminate|]. intros [= <- <- <-].
    apply digits_length in E. simpl. lia.
  - intros [= <- <- <-]. auto.
Qed.

Lemma expDigits_length (s : string) (v : Z) (r : string) :
  expDigits s = Some (v, r) -> String.length r <= String.length s.
Proof.
  unfold expDigits. destruct (digits 0 0 s) as [[v' k] r'] eqn:E.
  destruct k; [discriminate|]. intros [= <- <-].
  apply digits_length in E. lia.
Qed.

Lemma expPart_length (s : string) (v : Z) (r : string) :
  expPart s = Some (v, r) -> String.length r <= String.length s.
Proof.
  destruct s as [|c s]; [intros [= <- <-]; auto|]. unfold expPart.
  destruct (_ || _); [|intros [= <- <-]; auto].
  destruct s as [|sg s]; [discriminate|].
  destruct (Ascii.eqb sg "-").
  { destruct (expDigits s) as [[v' r']|] eqn:E; [|discriminate].
    intros [= <- <-]. apply expDigits_length in E. simpl. lia. }
  destruct (Ascii.eqb sg "+").
  { intros E. apply expDigits_length in E. simpl. lia. }
  intros E. apply expDigits_length in E. simpl in *. lia.
Qed.

Lemma parseNumber_shorter (s : string) : shorter s (parseNumber s).
Proof.
  unfold parseNumber.
  set (p := match s with
            | String c s' => if Ascii.eqb c "-" then ((-1)%Z, s') else (1%Z, s)
            | EmptyString => (1%Z, s)
            end).
  assert (Hp : String.length (snd p) <= String.length s).
  { subst p. destruct s as [|c s]; simpl; auto.
    destruct (Ascii.eqb c "-"); simpl; lia. }
  destruct p as [sign s1]. cbn [snd] in Hp.
  destruct (intPart s1) as [[i s2]|] eqn:Ei; [|exact I].
  apply intPart_shorter in Ei.
  destruct (fracPart i s2) as [[[m n] s3]|] eqn:Ef; [|exact I].
  apply fracPart_length in Ef.
  destruct (expPart s3) as [[e s4]|] eqn:Ee; [|exact I].
  apply expPart_length in Ee. simpl. lia.
Qed.

Lemma keyword_shorter (k : string) (v : json) (c : ascii) (s : string) :
  String.length k > 0 -> shorter (String c s) (keyword k v (String c s)).
Proof.
  intros Hk. unfold keyword. destruct (startsWith k (String c s)); [|exact I].
  simpl. destruct k; simpl in *; [lia|]. rewrite length_drop. lia.
Qed.

Section Loops.

Variable pv : string -> parsed json.
Variable bound : nat.
Hypothesis pv_shorter : forall s, String.length s < bound -> shorter s (pv s).

Lemma elements_shorter (n : nat) : forall s acc,
  String.length s < n -> String.length s < bound ->
  shorter s (elements pv n s acc).
Proof.
  induction n as [|n IH]; intros s acc Hn Hb; [lia|].
  cbn [elements]. pose proof (pv_shorter s Hb) as Hv.
  destruct (pv s) as [v r| |]; simpl in Hv; auto.
  destruct (skipWs r) as [|c r'] eqn:E; [exact I|].
  apply skipWs_cons in E.
  destruct (Ascii.eqb c ",").
  - assert (Hi : shorter r' (elements pv n r' (v :: acc)))
      by (apply IH; lia).
    destruct (elements pv n r' (v :: acc)); simpl in *; auto; lia.
  - destruct (Ascii.eqb c "]"); simpl; auto; lia.
Qed.

Lemma members_shorter (n : nat) : forall s acc,
  String.length s < n -> String.length s < bound ->
  shorter s (members pv n s acc).
Proof.
  induction n as [|n IH]; intros s acc Hn Hb; [lia|].
  cbn [members].
  destruct (skipWs s) as [|q s1] eqn:E1; [exact I|]. apply skipWs_cons in E1.
  destruct (Ascii.eqb q "034"); [|exact I].
  pose proof (parseString_shorter s1) as Hk.
  destruct (parseString s1) as [k s2| |]; simpl in Hk; auto.
  destruct (skipWs s2) as [|c s3] eqn:E2; [exact I|]. apply skipWs_cons in E2.
  destruct (Ascii.eqb c ":"); [|exact I].
  assert (Hv : shorter s3 (pv s3)) by (apply pv_shorter; lia).
  destruct (pv s3) as [v r| |]; simpl in Hv; auto.
  destruct (skipWs r) as [|d r'] eqn:E3; [exact I|]. apply skipWs_cons in E3.
  destruct (Ascii.eqb d ",").
  - assert (Hi : shorter r' (members pv n r' ((k, v) :: acc)))
      by (apply IH; lia).
    destruct (members pv n r' ((k, v) :: acc)); simpl in *; auto; lia.
  - destruct (Ascii.eqb d "}"); simpl; auto; lia.
Qed.

End Loops.

Lemma wrap_shorter {A : Type} (f : A -> json) (s t : string) (p : parsed A) :
  shorter t p -> String.length t <= String.length s -> shorter s (wrap f p).
Proof. destruct p; simpl; auto; lia. Qed.

Lemma parseValue_shorter (fuel : nat) : forall s,
  String.length s < fuel -> shorter s (parseValue fuel s).
Proof.
  induction fuel as [|f IH]; intros s Hs; [lia|].
  cbn [parseValue].
  destruct (skipWs s) as [|c s'] eqn:E; [exact I|].
  pose proof (skipWs_length s) as L. rewrite E in L. simpl in L.
  destruct (Ascii.eqb c "{").
  { destruct (skipWs s') as [|d s''] eqn:E'; [exact I|].
    pose proof (skipWs_cons _ _ _ E') as L'.
    destruct (Ascii.eqb d "}"); [simpl; lia|].
    eapply wrap_shorter; [apply (members_shorter _ f IH); lia|lia]. }
  destruct (Ascii.eqb c "[").
  { destruct (skipWs s') as [|d s''] eqn:E'; [exact I|].
    pose proof (skipWs_cons _ _ _ E') as L'.
    destruct (Ascii.eqb d "]"); [simpl; lia|].
    eapply wrap_shorter; [apply (elements_shorter _ f IH); lia|lia]. }
  destruct (Ascii.eqb c "034").
  { eapply wrap_shorter; [apply parseString_shorter|lia]. }
  assert (K : forall k v, String.length k > 0 ->
                shorter s (keyword k v (String c s'))).
  { intros k v Hk. pose proof (keyword_shorter k v c s' Hk) as H.
    destruct (keyword k v (String c s')); simpl in *; auto; lia. }
  destruct (Ascii.eqb c "t"); [apply K; simpl; lia|].
  destruct (Ascii.eqb c "f"); [apply K; simpl; lia|].
  destruct (Ascii.eqb c "n"); [apply K; simpl; lia|].
  pose proof (parseNumber_shorter (String c s')) as H.
  destruct (parseNumber (String c s')); simpl in *; auto; lia.
Qed.

(** The recursion bound of [parse] is never reached: [parse] answers
    [None] only for a text that is not JSON. *)
Theorem parseValue_fuel (text : string) :
  parseValue (S (String.length text)) text <> OutOfFuel.
Proof.
  pose proof (parseValue_shorter (S (String.length text)) text
                (Nat.lt_succ_diag_r _)) as H.
  intros E. rewrite E in H. exact H.
Qed.

End JsonFacts.

(* ================================================================== *)
(** ** Patterns that start with ["<"] *)
(* ================================================================== *)

Module TagFacts.
Import JsString Regex App Props StringFacts.

Lemma anchored_literal (p : string) : anchored (literal (String "<" p)).
Proof.
  intros a s H. unfold literal. cbn [startsWith].
  rewrite Ascii.eqb_sym, H. reflexivity.
Qed.

Lemma anchored_outputSpan : anchored outputSpan.
Proof.
  intros a s H. unfold outputSpan, outputInner. cbn [startsWith].
  rewrite Ascii.eqb_sym, H. reflexivity.
Qed.

Lemma replaceAll_noLt_app (m : matcher) (a b : string) :
  anchored m -> noLt a = true ->
  replaceAll m (a ++ b) = a ++ replaceAll m b.
Proof.
  intros Hm. induction a as [|c a IH]; intros H; [reflexivity|].
  simpl in H. apply andb_true_iff in H as [Hc Ha].
  apply negb_true_iff in Hc.
  change (String c a ++ b) with (String c (a ++ b)).
  rewrite replaceAll_none by now apply Hm.
  now rewrite IH.
Qed.

Lemma matchAll_noLt_app (m : matcher) (a b : string) :
  anchored m -> noLt a = true -> matchAll m (a ++ b) = matchAll m b.
Proof.
  intros Hm. induction a as [|c a IH]; intros H; [reflexivity|].
  simpl in H. apply andb_true_iff in H as [Hc Ha].
  apply negb_true_iff in Hc.
  change (String c a ++ b) with (String c (a ++ b)).
  rewrite matchAll_cons, (Hm c (a ++ b) Hc). now apply IH.
Qed.

Lemma replaceAll_noLt (m : matcher) (a : string) :
  anchored m -> noLt a = true -> replaceAll m a = a.
Proof.
  intros Hm Ha. rewrite <- (append_nil_r a) at 1.
  rewrite replaceAll_noLt_app by assumption. apply append_nil_r.
Qed.

Lemma matchAll_noLt (m : matcher) (a : string) :
  anchored m -> noLt a = true -> matchAll m a = [].
Proof.
  intros Hm Ha. rewrite <- (append_nil_r a).
  now rewrite matchAll_noLt_app.
Qed.

(** A fragment without ["<"] goes through the cleaning and the extraction
    unchanged. *)
Lemma cleanedReasoning_noLt (r : string) :
  noLt r = true -> cleanedReasoning r = r.
Proof.
  intros H. unfold cleanedReasoning.
  pose proof anchored_literal as A.
  rewrite (replaceAll_noLt (literal "</tool>") r) by auto.
  rewrite (replaceAll_noLt (literal "<think>") r) by auto.
  rewrite (replaceAll_noLt (literal "</think>") r) by auto.
  rewrite (replaceAll_noLt (literal "<think>") r) by auto.
  now rewrite (replaceAll_noLt (literal "</redacted_reasoning>") r) by auto.
Qed.

Lemma handleReasoning_noLt
    (bs : list MessageBlock) (hc : bool) (r : string) :
  noLt r = true ->
  handleReasoning bs hc r
  = if negb (isEmpty r) then (appendReasoning bs r, true) else (bs, hc).
Proof.
  intros H. unfold handleReasoning. cbv zeta.
  rewrite (cleanedReasoning_noLt r H).
  rewrite (matchAll_noLt _ r anchored_outputSpan H). reflexivity.
Qed.

End TagFacts.

(* ================================================================== *)
(** ** The word-merge repair *)
(* ================================================================== *)

Module Repair.
Import JsString Regex Api App Turn Props StringFacts TagFacts.

Lemma noCamel_cons (a : ascii) (s : string) :
  noCamel (String a s) =
  match firstChar s with
  | Some b => negb (isLower a && isUpper b)
  | None => true
  end && noCamel s.
Proof. destruct s; simpl; auto. Qed.

Lemma camelPass_cons (a b : ascii) (s : string) :
  replaceAll camelCase (String a (String b s)) =
  if isLower a && isUpper b
  then String a (String " " (String b (replaceAll camelCase s)))
  else String a (replaceAll camelCase (String b s)).
Proof.
  rewrite replaceAll_cons.
  change (camelCase (String a (String b s)))
    with (if isLower a && isUpper b
          then Some (2, String a (String " " (String b "")))
          else None).
  destruct (isLower a && isUpper b); reflexivity.
Qed.

Lemma firstChar_camelPass (c : ascii) (s : string) :
  firstChar (replaceAll camelCase (String c s)) = Some c.
Proof.
  destruct s as [|b s]; [reflexivity|].
  rewrite camelPass_cons. destruct (isLower c && isUpper b); reflexivity.
Qed.

Lemma noCamel_camelPass_bounded (n : nat) : forall s,
  String.length s <= n -> noCamel (replaceAll camelCase s) = true.
Proof.
  induction n as [|n IH]; intros [|a s] Hn; simpl in Hn; try lia; auto.
  destruct s as [|b s]; [reflexivity|].
  rewrite camelPass_cons.
  destruct (isLower a && isUpper b) eqn:E.
  - apply andb_true_iff in E as [Ha Hb].
    assert (Hlb : isLower b = false).
    { destruct (isLower b) eqn:Eb; auto.
      apply lower_not_upper in Eb. congruence. }
    rewrite !noCamel_cons. simpl firstChar.
    assert (Hs : String.length s <= n) by (simpl in Hn; lia).
    rewrite (IH s Hs), Hlb, Ha.
    change (isUpper " ") with false. change (isLower " ") with false.
    destruct (firstChar (replaceAll camelCase s)); reflexivity.
  - rewrite noCamel_cons, firstChar_camelPass, E.
    simpl. apply IH. simpl in *. lia.
Qed.

(** The camel-case pass leaves no lower-case letter before an upper-case
    one. *)
Lemma noCamel_camelPass (s : string) :
  noCamel (replaceAll camelCase s) = true.
Proof. eapply noCamel_camelPass_bounded; eauto. Qed.

Lemma camelPass_noCamel (s : string) :
  noCamel s = true -> replaceAll camelCase s = s.
Proof.
  induction s as [|a s IH]; intros H; auto.
  destruct s as [|b s]; auto.
  rewrite camelPass_cons.
  simpl in H. apply andb_true_iff in H as [H1 H2].
  apply negb_true_iff in H1. rewrite H1. now rewrite IH.
Qed.

Lemma gluedI_noCamel (s : string) : noCamel s = true -> gluedI s = None.
Proof.
  destruct s as [|a [|b [|c s]]]; auto.
  intros H. simpl in H. apply andb_true_iff in H as [H _].
  apply negb_true_iff in H.
  change (gluedI (String a (String b (String c s))))
    with (if isLower a && Ascii.eqb b "I" && isLower c
          then Some (3, String a (" I " ++ String c ""))
          else None).
  destruct (isLower a); simpl in *; auto.
  destruct (Ascii.eqb b "I") eqn:Eb; simpl; auto.
  apply Ascii.eqb_eq in Eb. subst b. discriminate.
Qed.

(** After the camel-case pass the ["I"] pass finds nothing: an ["I"] that
    follows a lower-case letter has been split off already. *)
Lemma gluedIPass_noCamel (s : string) :
  noCamel s = true -> replaceAll gluedI s = s.
Proof.
  induction s as [|a s IH]; intros H; auto.
  rewrite replaceAll_none by now apply gluedI_noCamel.
  rewrite noCamel_cons in H. apply andb_true_iff in H as [_ H].
  now rewrite IH.
Qed.

Lemma spaced_refl (s : string) : spaced s s.
Proof. induction s; constructor; auto. Qed.

Lemma spaced_app (a b c d : string) :
  spaced a b -> spaced c d -> spaced (a ++ c) (b ++ d).
Proof. induction 1; simpl; intros; auto; constructor; auto. Qed.

Lemma spaced_first (s t : string) :
  spaced s t -> firstChar t = firstChar s \/ firstChar t = Some " "%char.
Proof. destruct 1; simpl; auto. Qed.

Lemma spaced_noCamel (s t : string) :
  spaced s t -> noCamel s = true -> noCamel t = true.
Proof.
  induction 1 as [|c s t Hst IH|s t Hst IH]; intros H; auto.
  - rewrite noCamel_cons in *. apply andb_true_iff in H as [H1 H2].
    rewrite (IH H2), andb_true_r.
    destruct (spaced_first _ _ Hst) as [E|E]; rewrite E; auto.
    change (isUpper " ") with false. now rewrite andb_false_r.
  - rewrite noCamel_cons, (IH H). destruct (firstChar t); reflexivity.
Qed.

Lemma wordThenLetter_spec (ws : list string) (s w : string) (c : ascii) :
  wordThenLetter ws s = Some (w, c) ->
  s = w ++ String c (drop (S (String.length w)) s).
Proof.
  induction ws as [|p ws IH]; simpl; try discriminate.
  destruct (startsWithCI p s); auto.
  destruct (firstChar (drop (String.length p) s)) as [d|] eqn:E; auto.
  destruct (isLetter d); auto.
  intros H; injection H as <- <-.
  clear IH. revert s E. generalize (String.length p) as n.
  induction n as [|n IH]; intros [|a s]; simpl; try discriminate.
  - intros H; injection H as ->. reflexivity.
  - intros H. f_equal. now apply IH.
Qed.

Lemma spaced_gluedWordPass_bounded (n : nat) : forall s,
  String.length s <= n -> spaced s (replaceAll gluedWord s).
Proof.
  induction n as [|n IH]; intros [|a s] Hn; simpl in Hn; try lia;
    try constructor.
  rewrite replaceAll_cons.
  change (gluedWord (String a s))
    with (if isLetter a then
            match wordThenLetter shortWords s with
            | Some (w, c) =>
                Some (String.length w + 2,
                      String a (" " ++ w ++ " " ++ String c ""))
            | None => None
            end
          else None).
  destruct (isLetter a).
  2:{ constructor. apply IH. lia. }
  destruct (wordThenLetter shortWords s) as [[w c]|] eqn:E.
  2:{ constructor. apply IH. lia. }
  apply wordThenLetter_spec in E.
  replace (Nat.pred (String.length w + 2)) with (S (String.length w)) by lia.
  set (r := drop (S (String.length w)) s) in *.
  assert (Hr : String.length r <= n).
  { unfold r. rewrite length_drop. lia. }
  rewrite E at 1.
  change (String a (" " ++ w ++ " " ++ String c "") ++ replaceAll gluedWord r)
    with (String a (String " " ((w ++ String " " (String c ""))
                                  ++ replaceAll gluedWord r))).
  rewrite append_assoc. simpl.
  constructor. constructor. apply spaced_app; [apply spaced_refl|].
  constructor. constructor. now apply IH.
Qed.

(** The short-word pass only inserts spaces. *)
Lemma spaced_gluedWordPass (s : string) : spaced s (replaceAll gluedWord s).
Proof. eapply spaced_gluedWordPass_bounded; eauto. Qed.

Lemma noCamel_addSpaceBetweenWords (s : string) :
  noCamel (addSpaceBetweenWords s) = true.
Proof.
  unfold addSpaceBetweenWords.
  eapply spaced_noCamel; [apply spaced_gluedWordPass|].
  rewrite gluedIPass_noCamel; apply noCamel_camelPass.
Qed.

(** C9, the claim as stated fails: two short words that share a flanking
    letter are split one per application, so repaired text changes again
    when the repair is applied to it. *)
Lemma addSpaceBetweenWords_not_idempotent :
  addSpaceBetweenWords "acanbcanc" = "a can bcanc"
  /\ addSpaceBetweenWords (addSpaceBetweenWords "acanbcanc") = "a can b can c"
  /\ addSpaceBetweenWords (addSpaceBetweenWords "acanbcanc")
     <> addSpaceBetweenWords "acanbcanc".
Proof. repeat split; vm_compute; congruence. Qed.

(** C9, amended: on repaired text the camel-case pass and the ["I"] pass
    change nothing, so a second application of [addSpaceBetweenWords] is
    the short-word pass alone applied to the first result; the repair is
    idempotent on every string whose repaired text that pass leaves as it
    is. *)
Theorem addSpaceBetweenWords_second_application (s : string) :
  addSpaceBetweenWords (addSpaceBetweenWords s)
    = replaceAll gluedWord (addSpaceBetweenWords s)
  /\ (replaceAll gluedWord (addSpaceBetweenWords s) = addSpaceBetweenWords s ->
      addSpaceBetweenWords (addSpaceBetweenWords s) = addSpaceBetweenWords s).
Proof.
  assert (E : addSpaceBetweenWords (addSpaceBetweenWords s)
              = replaceAll gluedWord (addSpaceBetweenWords s)).
  { pose proof (noCamel_addSpaceBetweenWords s) as H.
    unfold addSpaceBetweenWords at 1.
    now rewrite (camelPass_noCamel _ H), (gluedIPass_noCamel _ H). }
  split; [exact E|]. intros H. now rewrite E.
Qed.

Lemma addSpaceBetweenWords_second_application_witness :
  addSpaceBetweenWords (addSpaceBetweenWords "MayaResearch willI")
  = addSpaceBetweenWords "MayaResearch willI".
Proof.
  apply (proj2 (addSpaceBetweenWords_second_application "MayaResearch willI")).
  vm_compute. reflexivity.
Defined.

(** C5: a fragment joined to a reasoning block gets one space in front
    when the block ends and the fragment starts with a letter or digit, and
    the repair is applied to the text so combined; ["To"] then ["gather"]
    gives ["To gather"], and ["willI"] is repaired to ["will I"]. *)
Theorem word_merge_space_inserted
    (newBlocks : list MessageBlock) (lastContent fragment : string)
    (l f : ascii) :
  lastBlock newBlocks = Some (Reasoning lastContent) ->
  lastChar lastContent = Some l ->
  firstChar fragment = Some f ->
  isAlnum l = true ->
  isAlnum f = true ->
  let joined :=
    setLast (Reasoning (addSpaceBetweenWords (lastContent ++ " " ++ fragment)))
      newBlocks in
  appendReasoning newBlocks fragment = joined
  /\ (noLt fragment = true ->
      applyChunk newBlocks (reasoningChunk fragment) = joined)
  /\ fold_left applyChunk [reasoningChunk "To"; reasoningChunk "gather"] []
     = [Reasoning "To gather"]
  /\ applyChunk [] (reasoningChunk "willI") = [Reasoning "will I"]
  /\ includes "will I" (addSpaceBetweenWords "willI") = true.
Proof.
  intros Hlast Hl Hf Al Af joined.
  assert (E : appendReasoning newBlocks fragment = joined).
  { unfold appendReasoning, needsSpace, isSpace.
    rewrite Hlast, Hl, Hf, Al, Af, (alnum_not_space _ Al),
      (alnum_not_space _ Af).
    reflexivity. }
  split; [exact E|split; [|repeat split; vm_compute; reflexivity]].
  intros Hnolt. unfold applyChunk, handleChunk, reasoningChunk.
  cbn [reasoning executed_tools Api.content].
  rewrite (handleReasoning_noLt _ _ _ Hnolt).
  destruct fragment; [discriminate|]. cbn [isEmpty negb]. exact E.
Qed.

Lemma word_merge_space_inserted_witness :
  appendReasoning [Reasoning "To"] "gather" = [Reasoning "To gather"]
  /\ applyChunk [Reasoning "To"] (reasoningChunk "gather")
     = [Reasoning "To gather"].
Proof.
  destruct (word_merge_space_inserted [Reasoning "To"] "To" "gather" "o" "g")
    as (H1 & H2 & _); try reflexivity.
  split; [exact H1|]. apply H2. reflexivity.
Defined.

End Repair.

(* ================================================================== *)
(** ** The blocks of a turn *)
(* ================================================================== *)

Module Blocks.
Import JsString Regex Api App Turn Props StringFacts TagFacts.

(** *** The state of the component and the list of blocks *)

Lemma startTurn_streaming (prev : list Message) (q : string) :
  startTurn prev q = streaming prev q [].
Proof. reflexivity. Qed.

Lemma nth_error_streaming (prev : list Message) (a b : Message) :
  nth_error (prev ++ [a; b]) (S (List.length prev)) = Some b.
Proof. induction prev; simpl; auto. Qed.

Lemma setNth_streaming (prev : list Message) (a b c : Message) :
  setNth (S (List.length prev)) c (prev ++ [a; b]) = (prev ++ [a; c])%list.
Proof.
  induction prev as [|x prev IH]; [reflexivity|].
  cbn [List.length app]. change (setNth (S (S (List.length prev))) c
    (x :: prev ++ [a; b])) with (x :: setNth (S (List.length prev)) c
    (prev ++ [a; b])). now rewrite IH.
Qed.

(** While a turn is under way [onChunk] is [applyChunk] on the blocks of
    the streaming message. *)
Lemma onChunk_streaming (prev : list Message) (q : string)
    (bs : list MessageBlock) (chunk : StreamChunk) :
  onChunk (streaming prev q bs) chunk = streaming prev q (applyChunk bs chunk).
Proof.
  unfold onChunk, applyChunk. cbn [streaming streamingMessageIndexRef messages].
  replace (Z.to_nat (Z.of_nat (List.length prev) + 1))
    with (S (List.length prev)) by lia.
  rewrite length_app. cbn [List.length].
  replace ((0 <=? Z.of_nat (List.length prev) + 1)%Z) with true
    by (symmetry; apply Z.leb_le; lia).
  replace ((Z.of_nat (List.length prev) + 1 <?
            Z.of_nat (List.length prev + 2))%Z) with true
    by (symmetry; apply Z.ltb_lt; lia).
  cbn [andb]. rewrite nth_error_streaming.
  cbn [blocksOf blocks].
  destruct (handleChunk bs chunk) as [newBlocks [|]]; [|reflexivity].
  unfold streaming. cbn [role App.content audioUrl isLoading error].
  now rewrite setNth_streaming.
Qed.



(** *** Tool indices *)

Lemma toolIndices_app (a b : list MessageBlock) :
  toolIndices (a ++ b) = (toolIndices a ++ toolIndices b)%list.
Proof. apply flat_map_app. Qed.

Lemma realIndices_app (a b : list MessageBlock) :
  realIndices (a ++ b) = (realIndices a ++ realIndices b)%list.
Proof. unfold realIndices. now rewrite toolIndices_app, filter_app. Qed.

Lemma toolIndices_setLast (b b' : MessageBlock) (l : list MessageBlock) :
  lastBlock l = Some b -> isTool b = false -> isTool b' = false ->
  toolIndices (setLast b' l) = toolIndices l.
Proof.
  intros H Hb Hb'. induction l as [|x l IH]; [reflexivity|].
  destruct l as [|y l].
  - injection H as ->. destruct b, b'; try discriminate; reflexivity.
  - change (setLast b' (x :: y :: l)) with (x :: setLast b' (y :: l)).
    change (toolIndices (x :: setLast b' (y :: l)))
      with ((match x with Tool t => [index t] | _ => [] end)
              ++ toolIndices (setLast b' (y :: l)))%list.
    rewrite IH by exact H. reflexivity.
Qed.

(** Output blocks all carry the index [-1]. *)
Lemma realIndices_pushOutputs (ms : list string) : forall bs hc,
  realIndices (fst (pushOutputs ms bs hc)) = realIndices bs.
Proof.
  induction ms as [|m ms IH]; intros bs hc; [reflexivity|].
  cbn [pushOutputs]. destruct (firstCapture m) as [cap|]; [|apply IH].
  destruct (_ && _); [|apply IH].
  rewrite IH, realIndices_app. cbn. apply app_nil_r.
Qed.

Lemma toolIndices_appendReasoning (bs : list MessageBlock) (r : string) :
  toolIndices (appendReasoning bs r) = toolIndices bs.
Proof.
  unfold appendReasoning.
  destruct (lastBlock bs) as [[c|t|c]|] eqn:E;
    try (rewrite toolIndices_app; cbn; apply app_nil_r).
  eapply toolIndices_setLast; eauto.
Qed.

Lemma realIndices_handleReasoning
    (bs : list MessageBlock) (hc : bool) (r : string) :
  realIndices (fst (handleReasoning bs hc r)) = realIndices bs.
Proof.
  unfold handleReasoning. cbv zeta.
  pose proof (realIndices_pushOutputs
                (matchAll outputSpan (cleanedReasoning r)) bs hc) as H.
  destruct (pushOutputs _ bs hc) as [nb hc']. cbn [fst] in H.
  destruct (negb _); cbn [fst]; auto.
  unfold realIndices in *. now rewrite toolIndices_appendReasoning.
Qed.

Lemma toolIndices_handleContent (bs : list MessageBlock) (c : string) :
  toolIndices (handleContent bs c) = toolIndices bs.
Proof.
  unfold handleContent.
  destruct (lastBlock bs) as [[x|t|x]|] eqn:E;
    try (rewrite toolIndices_app; cbn; apply app_nil_r).
  eapply toolIndices_setLast; eauto.
Qed.

Lemma hasIndex_In (l : list Z) (i : Z) : hasIndex l i = true <-> In i l.
Proof.
  unfold hasIndex. rewrite existsb_exists. split.
  - intros (x & Hx & E). apply Z.eqb_eq in E. now subst.
  - intros H. exists i. split; auto. apply Z.eqb_refl.
Qed.

Lemma NoDup_snoc (l : list Z) (i : Z) :
  NoDup l -> ~ In i l -> NoDup (l ++ [i]).
Proof.
  intros Hl Hi. apply NoDup_app; auto.
  - repeat constructor. intros [].
  - intros x Hx [<-|[]]. contradiction.
Qed.

Lemma realIndices_In (i : Z) (l : list MessageBlock) :
  In i (realIndices l) -> In i (toolIndices l).
Proof. unfold realIndices. rewrite filter_In. tauto. Qed.

(** The loop over the tools keeps the indices other than [-1] distinct,
    as long as its set holds the indices of the blocks. *)
Lemma NoDup_pushTools (tools : list ExecutedTool) : forall existing bs hc,
  (forall i, In i existing <-> In i (toolIndices bs)) ->
  NoDup (realIndices bs) ->
  NoDup (realIndices (fst (pushTools tools existing bs hc))).
Proof.
  induction tools as [|t tools IH]; intros existing bs hc Hex Hnd; [exact Hnd|].
  cbn [pushTools].
  destruct (hasIndex existing (index t)) eqn:E; cbn [negb]; [now apply IH|].
  assert (Hnew : ~ In (index t) (toolIndices bs)).
  { rewrite <- Hex, <- hasIndex_In. congruence. }
  apply IH.
  - intros i. rewrite toolIndices_app, in_app_iff. cbn. rewrite Hex. tauto.
  - rewrite realIndices_app. unfold realIndices at 2. cbn.
    destruct (index t =? -1)%Z; cbn [negb].
    + now rewrite app_nil_r.
    + apply NoDup_snoc; auto. intros H. now apply realIndices_In in H.
Qed.

Lemma NoDup_handleChunk (bs : list MessageBlock) (chunk : StreamChunk) :
  NoDup (realIndices bs) -> NoDup (realIndices (fst (handleChunk bs chunk))).
Proof.
  intros H. unfold handleChunk. cbv zeta.
  set (r := match reasoning chunk with
            | Some r => if negb (isEmpty r) then handleReasoning bs false r
                        else (bs, false)
            | None => (bs, false)
            end).
  assert (Hr : NoDup (realIndices (fst r))).
  { subst r. destruct (reasoning chunk) as [s|]; auto.
    destruct (negb (isEmpty s)); auto.
    now rewrite realIndices_handleReasoning. }
  destruct r as [nb hc]. cbn [fst] in Hr.
  set (t := match executed_tools chunk with
            | Some (t :: ts) => handleTools nb hc (t :: ts)
            | _ => (nb, hc)
            end).
  assert (Ht : NoDup (realIndices (fst t))).
  { subst t. destruct (executed_tools chunk) as [[|t ts]|]; auto.
    unfold handleTools. apply NoDup_pushTools; auto. tauto. }
  destruct t as [nb' hc']. cbn [fst] in Ht.
  destruct (Api.content chunk) as [c|]; auto.
  destruct (negb (isEmpty c)); auto. cbn [fst].
  unfold realIndices. rewrite toolIndices_handleContent. exact Ht.
Qed.

Lemma NoDup_applyChunk (bs : list MessageBlock) (chunk : StreamChunk) :
  NoDup (realIndices bs) -> NoDup (realIndices (applyChunk bs chunk)).
Proof.
  intros H. unfold applyChunk.
  pose proof (NoDup_handleChunk bs chunk H) as H'.
  destruct (handleChunk bs chunk) as [nb [|]]; auto.
Qed.

Lemma NoDup_fold (chunks : list StreamChunk) : forall bs,
  NoDup (realIndices bs) ->
  NoDup (realIndices (fold_left applyChunk chunks bs)).
Proof.
  induction chunks as [|c chunks IH]; intros bs H; simpl; auto.
  apply IH. now apply NoDup_applyChunk.
Qed.

(** C2, the claim as stated fails: each output span of a reasoning
    fragment becomes a tool block with the index [-1], whatever blocks
    carry that index already. *)
Lemma output_blocks_share_index :
  ~ NoDup (toolIndices
             (fold_left applyChunk
                [reasoningChunk "<output>A</output><output>B</output>"] [])).
Proof.
  vm_compute. intros H. inversion H as [|x l Hin Hnd]. apply Hin. now left.
Qed.

(** C2, amended: whatever chunks a fresh turn receives, no two tool blocks
    share an index other than [-1], and a tool whose index some tool block
    carries already (the index [-1] of an output block included) is
    dropped. *)
Theorem tool_index_unique (chunks : list StreamChunk) (tool : ExecutedTool) :
  let t := fold_left applyChunk chunks [] in
  NoDup (realIndices t)
  /\ (In (index tool) (toolIndices t) -> applyChunk t (toolsChunk [tool]) = t).
Proof.
  intros t. split.
  - apply NoDup_fold. constructor.
  - intros H. apply hasIndex_In in H.
    unfold applyChunk, handleChunk, toolsChunk, handleTools.
    cbn [reasoning executed_tools Api.content pushTools]. now rewrite H.
Qed.

Lemma tool_index_unique_witness :
  let t := fold_left applyChunk [toolsChunk [searchTool]] [] in
  NoDup (realIndices t) /\ applyChunk t (toolsChunk [searchTool]) = t.
Proof.
  intros t.
  destruct (tool_index_unique [toolsChunk [searchTool]] searchTool) as [H1 H2].
  split; [exact H1|]. apply H2. left. reflexivity.
Defined.

End Blocks.

(* ================================================================== *)
(** ** Output spans and control tags *)
(* ================================================================== *)

Module Output.
Import JsString Regex Api App Turn Props StringFacts TagFacts.

(** *** Occurrences of a text *)

Lemma startsWith_extend (p s t : string) :
  startsWith p s = true -> startsWith p (s ++ t) = true.
Proof.
  revert s; induction p as [|a p IH]; intros [|b s]; simpl; auto;
    try discriminate.
  intros H. apply andb_true_iff in H as [-> H]. now rewrite IH.
Qed.

Lemma startsWith_prefix (p q s : string) :
  startsWith (p ++ q) s = true -> startsWith p s = true.
Proof.
  revert s; induction p as [|a p IH]; intros [|b s]; simpl; auto;
    try discriminate.
  intros H. apply andb_true_iff in H as [-> H]. now rewrite (IH s).
Qed.

Lemma startsWith_split (p s : string) :
  startsWith p s = true -> s = p ++ drop (String.length p) s.
Proof.
  revert s; induction p as [|a p IH]; intros [|b s]; simpl; auto;
    try discriminate.
  intros H. apply andb_true_iff in H as [Hab H].
  apply Ascii.eqb_eq in Hab. subst b. now rewrite <- IH.
Qed.

Lemma drop_drop (k n : nat) (s : string) :
  drop n (drop k s) = drop (k + n) s.
Proof.
  revert s; induction k as [|k IH]; intros s; [reflexivity|].
  destruct s as [|c s]; cbn [drop plus]; [now destruct n|apply IH].
Qed.

Lemma drop_append_le (n : nat) (a b : string) :
  n <= String.length a -> drop n (a ++ b) = drop n a ++ b.
Proof.
  revert a; induction n as [|n IH]; intros [|c a] H; simpl in *; auto; try lia.
  apply IH. lia.
Qed.

Lemma length_take (n : nat) (s : string) :
  n <= String.length s -> String.length (take n s) = n.
Proof.
  revert s; induction n as [|n IH]; intros [|c s] H; simpl in *; auto; try lia.
  rewrite IH; lia.
Qed.

Lemma indexOf_cons (p : string) (c : ascii) (s : string) :
  indexOf p (String c s)
  = if startsWith p (String c s) then Some 0
    else option_map S (indexOf p s).
Proof. reflexivity. Qed.

(** [indexOf] gives the first occurrence. *)
Lemma indexOf_Some (p s : string) (n : nat) :
  indexOf p s = Some n ->
  startsWith p (drop n s) = true
  /\ n <= String.length s
  /\ forall i, i < n -> startsWith p (drop i s) = false.
Proof.
  revert n; induction s as [|c s IH]; intros n.
  - cbn [indexOf]. destruct (startsWith p "") eqn:E; [|discriminate].
    intros [= <-]. repeat split; auto. intros i Hi. lia.
  - rewrite indexOf_cons. destruct (startsWith p (String c s)) eqn:E.
    + intros [= <-]. repeat split; auto; [simpl; lia|]. intros i Hi. lia.
    + destruct (indexOf p s) as [k|]; [|discriminate].
      intros [= <-]. destruct (IH k eq_refl) as (H1 & H2 & H3).
      repeat split; auto; [simpl; lia|].
      intros [|i] Hi; [exact E|]. apply H3. lia.
Qed.

Lemma indexOf_None (p s : string) :
  indexOf p s = None -> forall i, startsWith p (drop i s) = false.
Proof.
  induction s as [|c s IH].
  - cbn [indexOf]. destruct (startsWith p "") eqn:E; [discriminate|].
    intros _ [|i]; exact E.
  - rewrite indexOf_cons. destruct (startsWith p (String c s)) eqn:E;
      [discriminate|].
    destruct (indexOf p s) as [k|]; [discriminate|].
    intros _ [|i]; [exact E|]. now apply IH.
Qed.

Lemma indexOf_first (p s : string) (n : nat) :
  n <= String.length s ->
  startsWith p (drop n s) = true ->
  (forall i, i < n -> startsWith p (drop i s) = false) ->
  indexOf p s = Some n.
Proof.
  revert s; induction n as [|n IH]; intros s L H F.
  - cbn [drop] in H. destruct s; cbn [indexOf]; now rewrite H.
  - destruct s as [|c s]; [simpl in L; lia|].
    pose proof (F 0 (Nat.lt_0_succ n)) as F0. cbn [drop] in F0.
    rewrite indexOf_cons, F0.
    rewrite (IH s); auto; [simpl in L; lia|].
    intros i Hi. apply (F (S i)). lia.
Qed.

(** *** Matches *)

Lemma matchAll_skip (m : matcher) (n : nat) : forall s,
  (forall i, i < n -> m (drop i s) = None) ->
  matchAll m s = matchAll m (drop n s).
Proof.
  induction n as [|n IH]; intros s F; [reflexivity|].
  destruct s as [|c s]; [reflexivity|].
  pose proof (F 0 (Nat.lt_0_succ n)) as F0. cbn [drop] in F0.
  rewrite matchAll_cons, F0. cbn [drop].
  apply IH. intros i Hi. apply (F (S i)). lia.
Qed.

Lemma matchAll_nowhere (m : matcher) (s : string) :
  (forall i, m (drop i s) = None) -> matchAll m s = [].
Proof.
  intros F. rewrite (matchAll_skip m (String.length s)) by auto.
  replace (drop (String.length s) s) with "".
  - reflexivity.
  - rewrite <- (append_nil_r s) at 2. now rewrite drop_append.
Qed.

Lemma outputSpan_no_opening (s : string) :
  startsWith "<output>" s = false -> outputSpan s = None.
Proof. intros H. unfold outputSpan, outputInner. now rewrite H. Qed.

Lemma outputSpan_no_closing (s : string) :
  indexOf "</output>" (drop 8 s) = None -> outputSpan s = None.
Proof.
  intros H. unfold outputSpan, outputInner. cbv zeta. rewrite H.
  now destruct (startsWith "<output>" s).
Qed.

Lemma removeFirst_skip (p : string) (n : nat) : forall s,
  (forall i, i < n -> startsWith p (drop i s) = false) ->
  n <= String.length s ->
  removeFirst p s = take n s ++ removeFirst p (drop n s).
Proof.
  induction n as [|n IH]; intros s F L; [reflexivity|].
  destruct s as [|c s]; [simpl in L; lia|].
  pose proof (F 0 (Nat.lt_0_succ n)) as F0. cbn [drop] in F0.
  cbn [removeFirst]. rewrite F0. cbn [take drop append].
  f_equal. apply IH; [|simpl in L; lia].
  intros i Hi. apply (F (S i)). lia.
Qed.

(** *** The first span *)

Lemma fragment_span (pre inner post : string) :
  fragmentOf pre inner post = pre ++ spanOf inner ++ post.
Proof.
  unfold fragmentOf, spanOf. f_equal.
  change ("<output>" ++ inner ++ "</output>" ++ post)
    with ("<output>" ++ (inner ++ "</output>" ++ post)).
  change ("<output>" ++ inner ++ "</output>")
    with ("<output>" ++ (inner ++ "</output>")).
  now rewrite !append_assoc.
Qed.

Lemma length_span (inner : string) :
  String.length (spanOf inner) = 8 + String.length inner + 9.
Proof.
  unfold spanOf.
  change ("<output>" ++ inner ++ "</output>")
    with ("<output>" ++ (inner ++ "</output>")).
  rewrite !length_append. simpl. lia.
Qed.

(** What [firstSpan] finds: the text is the three parts around the tags,
    no [<output>] starts before the span, and the closing tag of the span
    is the first one after its opening tag. *)
Lemma firstSpan_Some (s pre inner post : string) :
  firstSpan s = Some (pre, inner, post) ->
  s = fragmentOf pre inner post
  /\ (forall i, i < String.length pre ->
                startsWith "<output>" (drop i s) = false)
  /\ indexOf "</output>" (inner ++ "</output>" ++ post)
     = Some (String.length inner).
Proof.
  unfold firstSpan.
  destruct (indexOf "<output>" s) as [p|] eqn:Ho; [|discriminate].
  cbv zeta.
  destruct (indexOf "</output>" (drop (p + 8) s)) as [q|] eqn:Hc;
    [|discriminate].
  intros [= <- <- <-].
  destruct (indexOf_Some _ _ _ Ho) as (O1 & O2 & O3).
  destruct (indexOf_Some _ _ _ Hc) as (C1 & C2 & C3).
  set (after := drop (p + 8) s) in *.
  assert (Ea : after = take q after ++ "</output>" ++ drop (q + 9) after).
  { rewrite <- (take_drop q after) at 1. f_equal.
    rewrite (startsWith_split _ _ C1) at 1. now rewrite drop_drop. }
  assert (Es : drop p s = "<output>" ++ after).
  { rewrite (startsWith_split _ _ O1) at 1. now rewrite drop_drop. }
  rewrite (length_take p s O2), (length_take q after C2).
  split; [|split].
  - unfold fragmentOf. rewrite <- Ea, <- Es. symmetry. apply take_drop.
  - exact O3.
  - now rewrite <- Ea.
Qed.

Section FirstSpan.

Variables pre inner post : string.
Hypothesis opening_first :
  forall i, i < String.length pre ->
            startsWith "<output>" (drop i (fragmentOf pre inner post)) = false.
Hypothesis closing_first :
  indexOf "</output>" (inner ++ "</output>" ++ post)
  = Some (String.length inner).

Lemma outputInner_span : outputInner (spanOf inner ++ post) = Some inner.
Proof.
  unfold spanOf, outputInner.
  change (("<output>" ++ inner ++ "</output>") ++ post)
    with ("<output>" ++ ((inner ++ "</output>") ++ post)).
  rewrite startsWith_append.
  change 8 with (String.length "<output>"). rewrite drop_append.
  rewrite append_assoc, closing_first. now rewrite take_append.
Qed.

Lemma firstCapture_span : firstCapture (spanOf inner) = Some inner.
Proof.
  assert (H : outputInner (spanOf inner) = Some inner).
  { destruct (indexOf_Some _ _ _ closing_first) as (C1 & C2 & C3).
    unfold spanOf, outputInner.
    change ("<output>" ++ inner ++ "</output>")
      with ("<output>" ++ (inner ++ "</output>")).
    rewrite startsWith_append.
    change 8 with (String.length "<output>"). rewrite drop_append.
    rewrite (indexOf_first "</output>" (inner ++ "</output>")
               (String.length inner)).
    - now rewrite take_append.
    - rewrite length_append. lia.
    - rewrite drop_append. reflexivity.
    - intros i Hi. specialize (C3 i Hi).
      rewrite <- append_assoc, drop_append_le in C3
        by (rewrite length_append; lia).
      destruct (startsWith "</output>" (drop i (inner ++ "</output>")))
        eqn:E; [|reflexivity].
      now rewrite (startsWith_extend _ _ post E) in C3. }
  destruct (spanOf inner); cbn [firstCapture]; now rewrite H.
Qed.

Lemma outputMatches_fragment :
  matchAll outputSpan (fragmentOf pre inner post)
  = spanOf inner :: matchAll outputSpan post.
Proof.
  rewrite (matchAll_skip outputSpan (String.length pre))
    by (intros i Hi; apply outputSpan_no_opening, opening_first, Hi).
  rewrite fragment_span, drop_append.
  pose proof outputInner_span as Hi.
  pose proof (length_span inner) as Hl.
  destruct (spanOf inner ++ post) as [|c rest] eqn:E; [discriminate|].
  rewrite matchAll_cons. unfold outputSpan at 1. rewrite Hi, <- Hl.
  rewrite <- E, take_append. f_equal.
  assert (Hrest : rest = drop 1 (spanOf inner ++ post)) by now rewrite E.
  rewrite Hrest, drop_drop.
  replace (1 + Nat.pred (String.length (spanOf inner)))
    with (String.length (spanOf inner)) by (rewrite Hl; lia).
  now rewrite drop_append.
Qed.

Lemma removeFirst_fragment :
  removeFirst (spanOf inner) (fragmentOf pre inner post) = pre ++ post.
Proof.
  rewrite (removeFirst_skip _ (String.length pre)).
  - rewrite fragment_span, take_append, drop_append. f_equal.
    rewrite removeFirst_head by apply startsWith_append.
    apply drop_append.
  - intros i Hi.
    destruct (startsWith (spanOf inner) (drop i (fragmentOf pre inner post)))
      eqn:E; [|reflexivity].
    unfold spanOf in E. apply startsWith_prefix in E.
    now rewrite (opening_first i Hi) in E.
  - rewrite fragment_span, length_append. lia.
Qed.

End FirstSpan.

(** A text without a first span has no match. *)
Lemma firstSpan_None (s : string) :
  firstSpan s = None -> matchAll outputSpan s = [].
Proof.
  unfold firstSpan. intros H. apply matchAll_nowhere. intros i.
  destruct (indexOf "<output>" s) as [p|] eqn:Ho.
  - cbv zeta in H.
    destruct (indexOf "</output>" (drop (p + 8) s)) eqn:Hc; [discriminate|].
    destruct (startsWith "<output>" (drop i s)) eqn:E;
      [|now apply outputSpan_no_opening].
    apply outputSpan_no_closing. rewrite drop_drop.
    destruct (indexOf_Some _ _ _ Ho) as (_ & _ & O3).
    assert (Hp : p <= i).
    { destruct (Nat.le_gt_cases p i) as [L|L]; auto.
      now rewrite (O3 i L) in E. }
    replace (i + 8) with ((p + 8) + (i - p)) by lia.
    rewrite <- drop_drop.
    destruct (indexOf "</output>" (drop (i - p) (drop (p + 8) s)))
      as [k|] eqn:Hk; [|reflexivity].
    destruct (indexOf_Some _ _ _ Hk) as (K & _ & _).
    rewrite drop_drop in K.
    now rewrite (indexOf_None _ _ Hc) in K.
  - apply outputSpan_no_opening. now apply indexOf_None.
Qed.

(** C3, the claim as stated fails: the pattern has the flags [g] and [s]
    and no [i], so a span whose tags are not in lower case is not matched;
    no tool block is made and the span stays in the reasoning text. *)
Lemma output_tags_case_sensitive :
  let result := applyChunk [] (reasoningChunk "<OUTPUT>Result A</OUTPUT>") in
  matchAll outputSpan (cleanedReasoning "<OUTPUT>Result A</OUTPUT>") = []
  /\ existsb isTool result = false
  /\ result = [Reasoning "<OUTPUT>Result A</OUTPUT>"].
Proof. repeat split; vm_compute; reflexivity. Qed.

(** C3, amended: the tags are matched in lower case only, and the text
    between them may hold anything, line feeds included. In a text that
    holds an [<output>] with an [</output>] after it, the span from the
    first [<output>] to the first [</output>] after it is the first match,
    the other matches are those of the text after it, and the text of the
    span first occurs where it was matched. In a text without such a pair,
    whatever tags in another case it holds, nothing matches. The handler
    looks for the spans in the reasoning once the control tags are removed:
    for the first span a tool block with the trimmed inner text is pushed
    unless that text is empty or an output block carries it already, the
    other matches go through the same loop, every match is removed where
    its text first occurs in what is left, and what is left is trimmed;
    without a span no tool block is pushed and the text is kept as it
    is. *)
Theorem output_span_extracted
    (blocks : list MessageBlock) (reasoning text : string) :
  (forall pre inner post,
     firstSpan text = Some (pre, inner, post) ->
     text = fragmentOf pre inner post
     /\ matchAll outputSpan text = spanOf inner :: matchAll outputSpan post
     /\ removeFirst (spanOf inner) text = pre ++ post)
  /\ (firstSpan text = None -> matchAll outputSpan text = [])
  /\ (forall pre inner post,
       firstSpan (cleanedReasoning reasoning) = Some (pre, inner, post) ->
       let outputContent := trim inner in
       let pushed :=
         negb (isEmpty outputContent)
         && isEmpty_list (filter (isOutputBlock outputContent) blocks) in
       let newBlocks :=
         if pushed then (blocks ++ [Tool (outputTool outputContent)])%list
         else blocks in
       let others := matchAll outputSpan post in
       let left :=
         trim (fold_left (fun rest m => removeFirst m rest) others
                 (pre ++ post)) in
       handleReasoning blocks false reasoning
       = let '(newBlocks', hasChanges) :=
           pushOutputs others newBlocks pushed in
         if negb (isEmpty left)
         then (appendReasoning newBlocks' left, true)
         else (newBlocks', hasChanges))
  /\ (firstSpan (cleanedReasoning reasoning) = None ->
      handleReasoning blocks false reasoning
      = if negb (isEmpty (cleanedReasoning reasoning))
        then (appendReasoning blocks (cleanedReasoning reasoning), true)
        else (blocks, false)).
Proof.
  assert (S1 : forall s pre inner post,
             firstSpan s = Some (pre, inner, post) ->
             s = fragmentOf pre inner post
             /\ matchAll outputSpan s
                = spanOf inner :: matchAll outputSpan post
             /\ removeFirst (spanOf inner) s = pre ++ post
             /\ firstCapture (spanOf inner) = Some inner).
  { intros s pre inner post H.
    destruct (firstSpan_Some _ _ _ _ H) as (Es & Ho & Hc).
    rewrite Es in Ho. rewrite Es.
    split; [reflexivity|]. split; [|split].
    - exact (outputMatches_fragment pre inner post Ho Hc).
    - exact (removeFirst_fragment pre inner post Ho).
    - exact (firstCapture_span inner post Hc). }
  split; [|split; [|split]].
  - intros pre inner post H.
    destruct (S1 _ _ _ _ H) as (E1 & E2 & E3 & _). auto.
  - apply firstSpan_None.
  - intros pre inner post H outputContent pushed newBlocks others left.
    destruct (S1 _ _ _ _ H) as (Ec & Hm & Hr & Hf).
    fold others in Hm.
    unfold handleReasoning. cbv zeta. rewrite Hm.
    unfold withoutOutput. cbn [fold_left]. rewrite Hr. fold left.
    cbn [pushOutputs]. rewrite Hf.
    fold outputContent. fold pushed. subst newBlocks.
    destruct pushed; reflexivity.
  - intros H. unfold handleReasoning. cbv zeta.
    now rewrite (firstSpan_None _ H).
Qed.

Lemma output_span_extracted_witness :
  let reasoning :=
    "<think>plan</think> <output>a <" ++ lineFeed
    ++ "b</OUTPUT> c </output> done" in
  let inner := "a <" ++ lineFeed ++ "b</OUTPUT> c " in
  firstSpan (cleanedReasoning reasoning) = Some ("plan ", inner, " done")
  /\ matchAll outputSpan (cleanedReasoning reasoning) = [spanOf inner]
  /\ handleReasoning [] false reasoning
     = ([Tool (outputTool (trim inner)); Reasoning "plan  done"], true)
  /\ firstSpan (cleanedReasoning "see <output>x</OUTPUT>") = None
  /\ handleReasoning [] false "see <output>x</OUTPUT>"
     = ([Reasoning "see <output>x</OUTPUT>"], true).
Proof.
  cbv zeta.
  destruct (output_span_extracted []
              ("<think>plan</think> <output>a <" ++ lineFeed
               ++ "b</OUTPUT> c </output> done")
              (cleanedReasoning
                 ("<think>plan</think> <output>a <" ++ lineFeed
                  ++ "b</OUTPUT> c </output> done")))
    as (M & _ & A & _).
  destruct (output_span_extracted [] "see <output>x</OUTPUT>" "")
    as (_ & _ & _ & B).
  specialize (M "plan " ("a <" ++ lineFeed ++ "b</OUTPUT> c ") " done"
                eq_refl).
  specialize (A "plan " ("a <" ++ lineFeed ++ "b</OUTPUT> c ") " done"
                eq_refl).
  specialize (B eq_refl). cbv zeta in A.
  destruct M as (_ & M & _).
  split; [reflexivity|]. split; [rewrite M; reflexivity|].
  split; [rewrite A; vm_compute; reflexivity|].
  split; [reflexivity|]. rewrite B. vm_compute. reflexivity.
Defined.

(** C8, the code at the failing input: the fourth [replace] of the chain
    removes [<think>] a second time where its comment announces the opening
    redacted tag, so [<redacted_reasoning>] reaches the rendered text. *)
Theorem redacted_opening_tag_kept :
  cleanedReasoning "<redacted_reasoning>plan</redacted_reasoning>"
    = "<redacted_reasoning>plan"
  /\ applyChunk []
       (reasoningChunk "<redacted_reasoning>plan</redacted_reasoning>")
     = [Reasoning "<redacted_reasoning>plan"]
  /\ applyChunk [] (reasoningChunk "<think>plan</think>") = [Reasoning "plan"].
Proof. repeat split; vm_compute; reflexivity. Qed.

End Output.

(* ================================================================== *)
(** ** Frames *)
(* ================================================================== *)

Module Frames.
Import JsString Regex Json Api App Turn Props StringFacts Blocks Updates.

Lemma parseFailed_warns (data : string) :
  forallb isWarn (parseFailed data) = true.
Proof. unfold parseFailed. destruct (_ && _); reflexivity. Qed.

Lemma relay_warns (inLoop : bool) (calls : list call) (ic : bool) :
  forallb isWarn calls = true ->
  forall st, fold_left handle (fst (relay inLoop calls ic)) st = st.
Proof.
  induction calls as [|[c| |d] calls IH]; simpl; intros H st; auto;
    try discriminate.
  specialize (IH H).
  destruct (relay inLoop calls ic) as [evs ic'] eqn:E. simpl in *. apply IH.
Qed.

(** C6: a frame whose payload is not JSON (the sentinel is recognised
    before any parsing) makes [processLine] return [false] with the ids
    unchanged, calling neither [onChunk] nor [onComplete]: the most it does
    is log a warning, and the state of the component is unchanged.  In a
    stream, the frames after it are decoded as usual and no error is
    reported. *)
Theorem malformed_frame_dropped (line : string) (ids : list json) :
  startsWith "data: " line = true ->
  trim (drop 6 line) <> "[DONE]" ->
  parse (trim (drop 6 line)) = None ->
  (exists calls,
      processLine line ids = (false, calls, ids)
      /\ forallb isWarn calls = true)
  /\ (forall st, feedLine (st, ids) line = (st, ids))
  /\ askQuestionStream
       (Body [Value (malformedLine ++ lineFeed ++ nth 0 helloLines ""
                     ++ lineFeed ++ doneChunk)])
     = [Warning "{not valid json"; Chunk (contentChunk "Hello"); Complete].
Proof.
  intros Hdata Hdone Hparse.
  assert (E : exists calls, processLine line ids = (false, calls, ids)
                            /\ forallb isWarn calls = true).
  { unfold processLine. rewrite Hdata. cbv zeta.
    destruct (isEmpty (trim (drop 6 line))); [now exists []|].
    apply String.eqb_neq in Hdone. rewrite Hdone, Hparse.
    eexists; split; [reflexivity|apply parseFailed_warns]. }
  split; [exact E|split; [|vm_compute; reflexivity]].
  destruct E as (calls & E & W).
  intros st. unfold feedLine. rewrite E. f_equal. now apply relay_warns.
Qed.

Lemma malformed_frame_dropped_witness :
  (exists calls,
      processLine malformedLine [] = (false, calls, [])
      /\ forallb isWarn calls = true)
  /\ (forall st, feedLine (st, []) malformedLine = (st, [])).
Proof.
  destruct (malformed_frame_dropped malformedLine []) as (H1 & H2 & _).
  - reflexivity.
  - vm_compute. discriminate.
  - vm_compute. reflexivity.
  - split; [exact H1|exact H2].
Defined.

Lemma parse_not_empty (data : string) (j : json) :
  parse data = Some j -> isEmpty data = false.
Proof. destruct data; [discriminate|reflexivity]. Qed.

Lemma parse_not_done (data : string) (j : json) :
  parse data = Some j -> String.eqb data "[DONE]" = false.
Proof.
  destruct (String.eqb_spec data "[DONE]") as [->|]; auto. discriminate.
Qed.

(** [processLine] on a frame whose payload is an object with an [id]. *)
Lemma processLine_parsed (line : string) (ids : list json) (j id : json) :
  startsWith "data: " line = true ->
  parse (trim (drop 6 line)) = Some j ->
  prop "id" j = Some id ->
  processLine line ids =
  if truthy id && has ids id then (false, [], ids)
  else match deltaOf j with
       | Some delta =>
           if hasData (chunkOf delta)
           then (false, [OnChunk (chunkOf delta)],
                 if truthy id then add id ids else ids)
           else (false, [], ids)
       | None => (false, [], ids)
       end.
Proof.
  intros Hdata Hparse Hid. unfold processLine. cbv zeta.
  rewrite Hdata, (parse_not_empty _ _ Hparse), (parse_not_done _ _ Hparse),
    Hparse.
  destruct j; try discriminate. rewrite Hid. reflexivity.
Qed.

(** The set of ids changes only together with a call of [onChunk] on a
    chunk that has data. *)
Lemma recorded_only_with_data
    (line : string) (ids : list json) (done : bool) (calls : list call)
    (ids' : list json) :
  processLine line ids = (done, calls, ids') ->
  ids' <> ids ->
  exists chunk, calls = [OnChunk chunk] /\ hasData chunk = true.
Proof.
  unfold processLine. cbv zeta.
  destruct (startsWith "data: " line); [|intros [= <- <- <-]; congruence].
  destruct (isEmpty (trim (drop 6 line))); [intros [= <- <- <-]; congruence|].
  destruct (String.eqb (trim (drop 6 line)) "[DONE]");
    [intros [= <- <- <-]; congruence|].
  destruct (parse (trim (drop 6 line))) as [j|];
    [|intros [= <- <- <-]; congruence].
  destruct j; try (intros [= <- <- <-]; congruence);
    (match goal with |- context [if ?b then _ else _] => destruct b end;
     [intros [= <- <- <-]; congruence|]);
    (match goal with
     | |- context [deltaOf ?j] => destruct (deltaOf j) as [d|]
     end;
     [|intros [= <- <- <-]; congruence]);
    (destruct (hasData (chunkOf d)) eqn:Hd;
     [|intros [= <- <- <-]; congruence]);
    intros [= <- <- <-] _; eauto.
Qed.

(** C10: a frame with an id (a string, as the ids of the set are) whose
    delta has no data, or that has no delta, leaves the set of processed
    ids as it was, so a later frame with the same id and with data is
    passed to [onChunk], provided the id was not recorded before, and only
    then is the id recorded (the empty id never is); and whenever
    [processLine] changes the set, it calls [onChunk] with a chunk that has
    data. *)
Theorem empty_delta_id_not_recorded
    (line later : string) (j j' delta' : json) (id : string)
    (ids : list json) :
  startsWith "data: " line = true ->
  parse (trim (drop 6 line)) = Some j ->
  prop "id" j = Some (JString id) ->
  match deltaOf j with
  | Some delta => hasData (chunkOf delta) = false
  | None => True
  end ->
  startsWith "data: " later = true ->
  parse (trim (drop 6 later)) = Some j' ->
  prop "id" j' = Some (JString id) ->
  deltaOf j' = Some delta' ->
  hasData (chunkOf delta') = true ->
  has ids (JString id) = false ->
  processLine line ids = (false, [], ids)
  /\ processLine later (snd (processLine line ids))
     = (false, [OnChunk (chunkOf delta')],
        if isEmpty id then ids else (ids ++ [JString id])%list)
  /\ forall l i done calls i',
       processLine l i = (done, calls, i') -> i' <> i ->
       exists chunk, calls = [OnChunk chunk] /\ hasData chunk = true.
Proof.
  intros H1 P1 I1 E1 H2 P2 I2 D2 N2 Hnew.
  assert (L1 : processLine line ids = (false, [], ids)).
  { rewrite (processLine_parsed _ _ _ _ H1 P1 I1), Hnew, andb_false_r.
    destruct (deltaOf j); [now rewrite E1|reflexivity]. }
  split; [exact L1|split].
  - rewrite L1. cbn [snd].
    rewrite (processLine_parsed _ _ _ _ H2 P2 I2), Hnew, andb_false_r,
      D2, N2.
    unfold add. rewrite Hnew. cbn [truthy]. now destruct (isEmpty id).
  - intros l i done calls i' E N. eapply recorded_only_with_data; eauto.
Qed.

Lemma empty_delta_id_not_recorded_witness :
  processLine emptyDeltaLine [] = (false, [], [])
  /\ processLine reusedIdLine (snd (processLine emptyDeltaLine []))
     = (false, [OnChunk (contentChunk "x")], [JString "a"]).
Proof.
  destruct (empty_delta_id_not_recorded emptyDeltaLine reusedIdLine
           (JObject [("id", JString "a");
                     ("choices",
                      JArray [JObject [("delta",
                                        JObject [("content", JString "")])]])])
           (JObject [("id", JString "a");
                     ("choices",
                      JArray [JObject [("delta",
                                        JObject [("content", JString "x")])]])])
           (JObject [("content", JString "x")]) "a" [])
    as (H1 & H2 & _); try (vm_compute; reflexivity).
  split; [exact H1|exact H2].
Defined.

(** *** De-duplication *)

Lemma has_app (ids more : list json) (v : json) :
  has ids v = true -> has (ids ++ more) v = true.
Proof. unfold has. rewrite existsb_app. now intros ->. Qed.

Lemma has_add_other (ids : list json) (id v : json) :
  has ids v = true -> has (add id ids) v = true.
Proof. unfold add. destruct (has ids id); auto using has_app. Qed.

Lemma has_add_string (ids : list json) (s : string) :
  has (add (JString s) ids) (JString s) = true.
Proof.
  unfold add. destruct (has ids (JString s)) eqn:E; auto.
  unfold has. rewrite existsb_app. simpl.
  now rewrite String.eqb_refl, orb_true_r.
Qed.

(** An id once in the set stays in it. *)
Lemma has_processLine (line : string) (ids : list json) (v : json) :
  has ids v = true -> has (snd (processLine line ids)) v = true.
Proof.
  intros H.
  destruct (processLine line ids) as [[done calls] ids'] eqn:E. cbn [snd].
  revert E. unfold processLine. cbv zeta.
  repeat match goal with
         | |- (_, _, _) = _ -> _ => intros [= <- <- <-]
         | |- context [match ?x with _ => _ end] => destruct x eqn:?
         end; auto using has_add_other.
Qed.

Lemma snd_feedLine (st : State) (ids : list json) (line : string) :
  snd (feedLine (st, ids) line) = snd (processLine line ids).
Proof.
  unfold feedLine. now destruct (processLine line ids) as [[done calls] ids'].
Qed.

Lemma has_feedLines (lines : list string) : forall st ids v,
  has ids v = true -> has (snd (feedLines lines (st, ids))) v = true.
Proof.
  induction lines as [|l lines IH]; intros st ids v H; [exact H|].
  change (feedLines (l :: lines) (st, ids))
    with (feedLines lines (feedLine (st, ids) l)).
  pose proof (has_processLine l ids v H) as H'.
  rewrite <- (snd_feedLine st) in H'.
  destruct (feedLine (st, ids) l) as [st1 ids1]. now apply IH.
Qed.

Lemma feedLine_seen
    (line : string) (j : json) (s : string) (st : State) (ids : list json) :
  startsWith "data: " line = true ->
  parse (trim (drop 6 line)) = Some j ->
  prop "id" j = Some (JString s) ->
  s <> "" ->
  has ids (JString s) = true ->
  feedLine (st, ids) line = (st, ids).
Proof.
  intros H P I Hs Hhas. unfold feedLine.
  rewrite (processLine_parsed _ _ _ _ H P I), Hhas.
  destruct s; [congruence|reflexivity].
Qed.

(** C7, the claim as stated fails: an id that is the empty string is
    falsy, so it is neither looked up nor recorded, and a delta carrying it
    is processed each time it is fed. *)
Lemma dedup_empty_id_processed_twice :
  transcript (fst (feedLines [emptyIdLine; emptyIdLine]
                     (startTurn [] "q", [])))
    = [Content "xx"]
  /\ transcript (fst (feedLines [emptyIdLine] (startTurn [] "q", [])))
     = [Content "x"]
  /\ feedLines [emptyIdLine; emptyIdLine] (startTurn [] "q", [])
     <> feedLines [emptyIdLine] (startTurn [] "q", []).
Proof. repeat split; vm_compute; congruence. Qed.

(** C7, amended: for a frame whose id is a non-empty string, feeding the
    frame a second time, at once or after any other frames, leaves the
    state of the component and the set of processed ids as they were after
    those frames. *)
Theorem dedup_idempotent
    (line : string) (j : json) (s : string) (between : list string)
    (st : State) (ids : list json) :
  startsWith "data: " line = true ->
  parse (trim (drop 6 line)) = Some j ->
  prop "id" j = Some (JString s) ->
  s <> "" ->
  feedLines (line :: between ++ [line]) (st, ids)
  = feedLines (line :: between) (st, ids).
Proof.
  intros H P I Hs.
  change (line :: between ++ [line])%list
    with ((line :: between) ++ [line])%list.
  unfold feedLines. rewrite fold_left_app. cbn [fold_left].
  fold (feedLines between (feedLine (st, ids) line)).
  (* either the frame never does anything, or its id is recorded *)
  assert (C : (forall st' ids', feedLine (st', ids') line = (st', ids'))
              \/ has (snd (feedLine (st, ids) line)) (JString s) = true).
  { unfold feedLine.
    destruct (deltaOf j) as [delta|] eqn:D.
    2:{ left. intros st' ids'.
        rewrite (processLine_parsed _ _ _ _ H P I), D.
        now destruct (_ && _). }
    destruct (hasData (chunkOf delta)) eqn:Hd.
    2:{ left. intros st' ids'.
        rewrite (processLine_parsed _ _ _ _ H P I), D, Hd.
        now destruct (_ && _). }
    right. rewrite (processLine_parsed _ _ _ _ H P I), D, Hd.
    assert (T : truthy (JString s) = true) by (destruct s; [congruence|auto]).
    rewrite T. cbn [andb].
    destruct (has ids (JString s)) eqn:E; cbn [snd]; auto.
    apply has_add_string. }
  destruct C as [C|C].
  - destruct (feedLines between (feedLine (st, ids) line)) as [st' ids'].
    apply C.
  - destruct (feedLine (st, ids) line) as [st1 ids1]. cbn [snd] in C.
    pose proof (has_feedLines between st1 ids1 _ C) as C'.
    destruct (feedLines between (st1, ids1)) as [st' ids']. cbn [snd] in C'.
    eapply feedLine_seen; eauto.
Qed.

Lemma dedup_idempotent_witness :
  feedLines (idLine :: [otherLine] ++ [idLine]) (startTurn [] "q", [])
  = feedLines (idLine :: [otherLine]) (startTurn [] "q", []).
Proof.
  apply (dedup_idempotent idLine
           (JObject [("id", JString "7");
                     ("choices",
                      JArray [JObject [("delta",
                                        JObject [("content", JString "x")])]])])
           "7" [otherLine] (startTurn [] "q") []).
  - reflexivity.
  - vm_compute. reflexivity.
  - reflexivity.
  - discriminate.
Defined.

(** *** The whole stream, and when the updaters run *)

Lemma onChunk_idle (st : State) (chunk : StreamChunk) :
  streamingMessageIndexRef st = (-1)%Z -> onChunk st chunk = st.
Proof. intros H. unfold onChunk. now rewrite H. Qed.

Lemma chunkChanges_streaming (prev : list Message) (q : string)
    (bs : list MessageBlock) (chunk : StreamChunk) :
  chunkChanges (streaming prev q bs) chunk = snd (handleChunk bs chunk).
Proof.
  unfold chunkChanges. cbn [streaming streamingMessageIndexRef messages].
  replace (Z.to_nat (Z.of_nat (List.length prev) + 1))
    with (S (List.length prev)) by lia.
  rewrite length_app. cbn [List.length].
  replace ((0 <=? Z.of_nat (List.length prev) + 1)%Z) with true
    by (symmetry; apply Z.leb_le; lia).
  replace ((Z.of_nat (List.length prev) + 1 <?
            Z.of_nat (List.length prev + 2))%Z) with true
    by (symmetry; apply Z.ltb_lt; lia).
  now rewrite nth_error_streaming.
Qed.

(** A render after each callback: every updater runs in the state its
    callback was called in. *)
Lemma pass_one (clean : bool) (ev : event) (st : State) :
  pass clean [ev] st = handle st ev.
Proof.
  unfold pass, render. cbn [fold_left].
  destruct ev as [chunk| |err|w], clean; reflexivity.
Qed.

(** C4, the code at the failing input: the three lines of the scenario
    come in one read. [processLine] calls [onChunk] twice and [onComplete]
    once before React renders; the updater of a chunk reads the ref when it
    runs, [onComplete] has reset the ref by then, and the updater returns
    the messages as they were. [" world"] is lost, and ["Hello"] too unless
    React computed the first update at once; the turn is finalized all the
    same. With a render after each line the transcript is the one content
    block ["Hello world"]: two content fragments in a row give one block
    holding the first followed by the second, nothing added. *)
Theorem hello_world_in_one_read
    (clean : bool) (prev : list Message) (userMessage : string) :
  let hello := contentChunk "Hello" in
  let world := contentChunk " world" in
  let start := startTurn prev userMessage in
  askQuestionStream (Body [Value helloRead])
    = [Chunk hello; Chunk world; Complete]
  /\ pass clean (askQuestionStream (Body [Value helloRead])) start
     = settled prev userMessage (if clean then [Content "Hello"] else [])
  /\ (forall clean1 clean2 clean3,
        pass clean3 [Complete]
          (pass clean2 [Chunk world] (pass clean1 [Chunk hello] start))
        = settled prev userMessage [Content "Hello world"])
  /\ forall c a d b,
       fold_left applyChunk
         [contentChunk (String c a); contentChunk (String d b)] []
       = [Content (String c a ++ String d b)].
Proof.
  cbv zeta. rewrite startTurn_streaming.
  assert (E : askQuestionStream (Body [Value helloRead])
              = [Chunk (contentChunk "Hello"); Chunk (contentChunk " world");
                 Complete])
    by (vm_compute; reflexivity).
  rewrite E. split; [reflexivity|]. split; [|split].
  - unfold pass. cbn [fold_left]. destruct clean; cbn [negb].
    + unfold dispatch at 3. cbn [pending current queue].
      rewrite chunkChanges_streaming, onChunk_streaming.
      change (snd (handleChunk [] (contentChunk "Hello"))) with true.
      change (applyChunk [] (contentChunk "Hello")) with [Content "Hello"].
      cbn [dispatch pending current queue app].
      unfold render. cbn [queue current fold_left runUpdate].
      apply onChunk_idle. reflexivity.
    + cbn [dispatch pending current queue app].
      unfold render. cbn [queue current fold_left runUpdate].
      rewrite !onChunk_idle; reflexivity.
  - intros c1 c2 c3. rewrite !pass_one. cbn [handle].
    rewrite !onChunk_streaming. reflexivity.
  - reflexivity.
Qed.

(** The line that completes the turn ends the inner loop: the lines after
    it in the buffer are not looked at. *)
Lemma sentinel_same_chunk (after : list string) (rest : string)
    (ic : bool) (ids : list json) :
  processLines ("data: [DONE]" :: after) rest ic ids
  = ([Complete],
     {| buffer := ""; isComplete := true; processedIds := ids |}).
Proof. reflexivity. Qed.

(** C1, the code at the failing input: after the sentinel the outer loop
    goes on reading, and the lines of a later chunk are processed with no
    test of [isComplete]; a second sentinel notifies completion a second
    time, and a delta is passed to [onChunk] after the completion. *)
Theorem sentinel_then_later_chunk :
  askQuestionStream (Body [Value doneChunk; Value doneChunk])
    = [Complete; Complete]
  /\ askQuestionStream (Body [Value doneChunk; Value lateChunk])
     = [Complete; Chunk (contentChunk "late")]
  /\ askQuestionStream (Body [Value (doneChunk ++ lateChunk)]) = [Complete].
Proof. repeat split; vm_compute; reflexivity. Qed.

End Frames.

(* ================================================================== *)
(** ** Further properties: reading the stream *)
(* ================================================================== *)

Module Reader.
Import JsString Regex Json Api App Turn Props MoreProps StringFacts.

(** *** Lines *)

Lemma splitLines_cons (c : ascii) (s : string) :
  splitLines (String c s) =
  if Ascii.eqb c (ascii_of_N 10)
  then (EmptyString :: fst (splitLines s), snd (splitLines s))
  else match fst (splitLines s) with
       | [] => ([], String c (snd (splitLines s)))
       | l :: ls => (String c l :: ls, snd (splitLines s))
       end.
Proof.
  cbn [splitLines]. destruct (splitLines s) as [lines rest]. reflexivity.
Qed.

(** X1: [splitLines] loses nothing and splits at every line feed: the
    lines, each followed by a line feed, and then the rest are the buffer
    again, and neither a line nor the rest holds a line feed. *)
Theorem splitLines_joinLines (buffer : string) :
  joinLines (fst (splitLines buffer)) (snd (splitLines buffer)) = buffer
  /\ forallb noLineFeed (fst (splitLines buffer)) = true
  /\ noLineFeed (snd (splitLines buffer)) = true.
Proof.
  induction buffer as [|c s (IH1 & IH2 & IH3)]; [repeat split|].
  rewrite splitLines_cons.
  destruct (Ascii.eqb c (ascii_of_N 10)) eqn:E.
  - apply Ascii.eqb_eq in E. subst c. cbn [fst snd].
    split; [|split; [|exact IH3]].
    + unfold joinLines in *. cbn [fold_right append]. now rewrite IH1.
    + cbn [forallb noLineFeed]. exact IH2.
  - destruct (fst (splitLines s)) as [|l ls] eqn:F; cbn [fst snd].
    + split; [|split; [reflexivity|]].
      * unfold joinLines in *. cbn [fold_right] in *. now rewrite IH1.
      * cbn [noLineFeed]. now rewrite E, IH3.
    + cbn [forallb] in IH2. apply andb_true_iff in IH2 as [Hl Hls].
      split; [|split; [|exact IH3]].
      * unfold joinLines in *. cbn [fold_right append] in *. now rewrite IH1.
      * cbn [forallb noLineFeed]. now rewrite E, Hl, Hls.
Qed.

(** Reading a text in two pieces: the rest of the first piece is put in
    front of the second. *)
Lemma splitLines_app (x y : string) :
  splitLines (x ++ y)
  = ((fst (splitLines x) ++ fst (splitLines (snd (splitLines x) ++ y)))%list,
     snd (splitLines (snd (splitLines x) ++ y))).
Proof.
  induction x as [|c x IH].
  - cbn. now destruct (splitLines y).
  - change (String c x ++ y) with (String c (x ++ y)).
    rewrite (splitLines_cons c (x ++ y)), (splitLines_cons c x), IH.
    cbn [fst snd].
    destruct (Ascii.eqb c (ascii_of_N 10)) eqn:E; [reflexivity|].
    destruct (fst (splitLines x)) as [|l ls]; cbn [fst snd app].
    + change (String c (snd (splitLines x)) ++ y)
        with (String c (snd (splitLines x) ++ y)).
      rewrite splitLines_cons, E.
      destruct (fst (splitLines (snd (splitLines x) ++ y))); reflexivity.
    + reflexivity.
Qed.

(** *** [processLine] *)

(** The value returned by [processLine] and its [onComplete] calls. *)
Lemma processLine_sentinel (line : string) (ids : list json) :
  fst (fst (processLine line ids)) = isSentinelLine line
  /\ (isSentinelLine line = true ->
      processLine line ids = (true, [OnComplete], ids))
  /\ (isSentinelLine line = false ->
      existsb isOnComplete (snd (fst (processLine line ids))) = false)
  /\ List.length (snd (fst (processLine line ids))) <= 1.
Proof.
  assert (W1 : forall d, existsb isOnComplete (parseFailed d) = false).
  { intros d. unfold parseFailed. destruct (_ && _); reflexivity. }
  assert (W2 : forall d, List.length (parseFailed d) <= 1).
  { intros d. unfold parseFailed. destruct (_ && _); cbn; auto. }
  unfold processLine, isSentinelLine. cbv zeta.
  destruct (startsWith "data: " line); cbn [andb];
    [|repeat split; intros; auto; discriminate].
  destruct (trim (drop 6 line)) as [|c data] eqn:D; cbn [isEmpty];
    [repeat split; intros; auto; discriminate|].
  destruct (String.eqb (String c data) "[DONE]") eqn:E;
    [repeat split; intros; auto; discriminate|].
  destruct (parse (String c data)) as [j|];
    [|cbn [fst snd]; repeat split; intros; auto; discriminate].
  destruct j; cbn [fst snd];
    try (repeat split; intros; auto; discriminate);
    repeat match goal with
           | |- context [if ?b then _ else _] => destruct b
           | |- context [match deltaOf ?j with _ => _ end] =>
               destruct (deltaOf j)
           end; cbn [fst snd]; repeat split; intros; auto; discriminate.
Qed.

Lemma parseFailed_hasData (d : string) :
  forallb callHasData (parseFailed d) = true.
Proof. unfold parseFailed. now destruct (_ && _). Qed.

Lemma processLine_hasData (line : string) (ids : list json) :
  forallb callHasData (snd (fst (processLine line ids))) = true.
Proof.
  pose proof parseFailed_hasData as W.
  unfold processLine. cbv zeta.
  destruct (startsWith "data: " line); [|reflexivity].
  destruct (isEmpty (trim (drop 6 line))); [reflexivity|].
  destruct (String.eqb (trim (drop 6 line)) "[DONE]"); [reflexivity|].
  destruct (parse (trim (drop 6 line))) as [j|]; [|apply W].
  destruct j; cbn [fst snd]; try apply W;
    repeat match goal with
           | |- context [if hasData ?c then _ else _] =>
               destruct (hasData c) eqn:?
           | |- context [if ?b then _ else _] => destruct b
           | |- context [match deltaOf ?j with _ => _ end] =>
               destruct (deltaOf j)
           end; cbn [fst snd forallb callHasData]; auto;
    match goal with H : hasData _ = true |- _ => now rewrite H end.
Qed.

(** X2: [processLine] returns [true] exactly for a line whose payload is
    the sentinel, and then it calls [onComplete] once and leaves the
    processed ids as they were; for every line it makes at most one call,
    it calls [onComplete] for no other line, and it passes no chunk
    without data to [onChunk]. *)
Theorem processLine_completes (line : string) (ids : list json) :
  fst (fst (processLine line ids)) = isSentinelLine line
  /\ (if isSentinelLine line
      then processLine line ids = (true, [OnComplete], ids)
      else existsb isOnComplete (snd (fst (processLine line ids))) = false)
  /\ List.length (snd (fst (processLine line ids))) <= 1
  /\ forallb callHasData (snd (fst (processLine line ids))) = true.
Proof.
  destruct (processLine_sentinel line ids) as (W & S & L & B).
  split; [exact W|]. split; [|split; [exact B|apply processLine_hasData]].
  destruct (isSentinelLine line); auto.
Qed.

(** *** The loops *)

Lemma processLine_wasComplete (line : string) (ids : list json) :
  fst (fst (processLine line ids)) = isSentinelLine line.
Proof. apply processLine_sentinel. Qed.

Lemma processLines_app (la lb : list string) (rest rest' : string) :
  forall ic ids,
  forallb liveLine la = true ->
  let p1 := processLines la rest' ic ids in
  let p2 := processLines lb rest (isComplete (snd p1))
              (processedIds (snd p1)) in
  processLines (la ++ lb) rest ic ids = ((fst p1 ++ fst p2)%list, snd p2)
  /\ buffer (snd p1) = rest'.
Proof.
  induction la as [|l la IH]; intros ic ids H.
  - cbn. split; [now destruct (processLines lb rest ic ids)|reflexivity].
  - cbn [forallb] in H. apply andb_true_iff in H as [Hl Hla].
    cbn [app processLines]. cbv zeta.
    destruct (isEmpty (trim l)); [now apply IH|].
    pose proof (processLine_wasComplete (trim l) ids) as Hw.
    unfold liveLine in Hl. apply negb_true_iff in Hl. rewrite Hl in Hw.
    destruct (processLine (trim l) ids) as [[wc calls] ids'].
    cbn [fst] in Hw. subst wc.
    destruct (relay true calls ic) as [evs ic'].
    destruct (IH ic' ids' Hla) as [E B]. cbv zeta in E, B.
    rewrite E.
    destruct (processLines la rest' ic' ids') as [e1 s1]. cbn [fst snd] in *.
    destruct (processLines lb rest (isComplete s1) (processedIds s1))
      as [e2 s2]. cbn [fst snd].
    split; [now rewrite app_assoc|exact B].
Qed.

(** X3: where the stream is cut into reads makes no difference before the
    sentinel: when no complete line of the first of two reads completes the
    turn, the two reads give the events of the one read that holds both
    texts. *)
Theorem chunk_boundary_irrelevant
    (a b : string) (reads : list readResult) (st : loopState) :
  forallb liveLine (fst (splitLines (buffer st ++ a))) = true ->
  readLoop (Value a :: Value b :: reads) st
  = readLoop (Value (a ++ b) :: reads) st.
Proof.
  intros H.
  destruct a as [|ca a]; [reflexivity|].
  destruct b as [|cb b].
  { rewrite append_nil_r. reflexivity. }
  set (x := String ca a) in *. set (y := String cb b).
  assert (Ex : isEmpty x = false) by reflexivity.
  assert (Ey : isEmpty y = false) by reflexivity.
  assert (Exy : isEmpty (x ++ y) = false) by reflexivity.
  cbn [readLoop]. rewrite Ex, Exy.
  rewrite <- append_assoc, (splitLines_app (buffer st ++ x) y).
  destruct (splitLines (buffer st ++ x)) as [la ra]. cbn [fst snd] in *.
  destruct (processLines_app la (fst (splitLines (ra ++ y)))
              (snd (splitLines (ra ++ y))) ra (isComplete st)
              (processedIds st) H) as [E B].
  cbv zeta in E, B. rewrite E.
  destruct (processLines la ra (isComplete st) (processedIds st)) as [e1 s1].
  cbn [fst snd] in *. cbn [readLoop]. rewrite Ey, B.
  destruct (splitLines (ra ++ y)) as [lb rb]. cbn [fst snd].
  destruct (processLines lb rb (isComplete s1) (processedIds s1)) as [e2 s2].
  cbn [fst snd]. now rewrite app_assoc.
Qed.

Lemma chunk_boundary_irrelevant_witness :
  let a := jsonText "data: {'choices':[{'delta':{'cont" in
  let b := jsonText "ent':'Hi'}}]}" ++ lineFeed ++ doneChunk in
  let st := {| buffer := ""; isComplete := false; processedIds := [] |} in
  forallb liveLine (fst (splitLines (buffer st ++ a))) = true
  /\ readLoop [Value a; Value b] st = readLoop [Value (a ++ b)] st.
Proof.
  cbv zeta. split; [reflexivity|].
  apply chunk_boundary_irrelevant. reflexivity.
Defined.

Lemma relay_notFailed (inLoop : bool) (calls : list call) (ic : bool) :
  forallb notFailed (fst (relay inLoop calls ic)) = true.
Proof.
  revert ic. induction calls as [|[c| |d] calls IH]; intros ic; cbn [relay];
    auto.
  - specialize (IH ic). destruct (relay inLoop calls ic). cbn in *. auto.
  - destruct inLoop; [|apply IH].
    specialize (IH true). destruct (relay true calls true). cbn in *. auto.
  - specialize (IH ic). destruct (relay inLoop calls ic). cbn in *. auto.
Qed.

Lemma processLines_notFailed (lines : list string) (rest : string) :
  forall ic ids,
  forallb notFailed (fst (processLines lines rest ic ids)) = true.
Proof.
  induction lines as [|l lines IH]; intros ic ids; [reflexivity|].
  cbn [processLines]. cbv zeta.
  destruct (isEmpty (trim l)); [apply IH|].
  destruct (processLine (trim l) ids) as [[wc calls] ids'].
  pose proof (relay_notFailed true calls ic) as R.
  destruct (relay true calls ic) as [evs ic']. cbn [fst] in R.
  destruct wc; [exact R|].
  specialize (IH ic' ids').
  destruct (processLines lines rest ic' ids') as [evs' st']. cbn [fst] in *.
  rewrite forallb_app. now rewrite R, IH.
Qed.

Lemma readLoop_failed_last (reads : list readResult) : forall st,
  exists evs,
    forallb notFailed evs = true
    /\ (readLoop reads st = evs
        \/ exists e, readLoop reads st = (evs ++ [Failed e])%list).
Proof.
  induction reads as [|[chunk|m] reads IH]; intros st.
  - eexists. split; [|left; reflexivity].
    cbn [readLoop]. rewrite forallb_app. apply andb_true_iff. split.
    + destruct (_ && _); [|reflexivity].
      destruct (startsWith "data: " (trim (buffer st))); [|reflexivity].
      destruct (processLine _ _) as [[wc calls] ids'].
      apply relay_notFailed.
    + destruct (negb (isComplete st)); reflexivity.
  - cbn [readLoop]. destruct (isEmpty chunk); [apply IH|].
    destruct (splitLines (buffer st ++ chunk)) as [lines rest].
    pose proof (processLines_notFailed lines rest (isComplete st)
                  (processedIds st)) as P.
    destruct (processLines lines rest (isComplete st) (processedIds st))
      as [evs st']. cbn [fst] in P.
    destruct (IH st') as (evs' & N & [E|(e & E)]); rewrite E.
    + exists (evs ++ evs')%list. split; [|now left].
      rewrite forallb_app. now rewrite P, N.
    + exists (evs ++ evs')%list. split.
      * rewrite forallb_app. now rewrite P, N.
      * right. exists e. now rewrite app_assoc.
  - exists []. split; [reflexivity|]. right. now exists (Thrown m).
Qed.

(** X4: [onError] is called at most once, and nothing is called after it:
    the events of a call are events that are no failure, then at most one
    failure. *)
Theorem onError_once_and_last (r : response) :
  exists evs,
    forallb notFailed evs = true
    /\ (askQuestionStream r = evs
        \/ exists e, askQuestionStream r = (evs ++ [Failed e])%list).
Proof.
  destruct r as [m|status text| |reads]; cbn [askQuestionStream];
    try (exists []; split; [reflexivity|]; right; eexists; reflexivity).
  apply readLoop_failed_last.
Qed.

Lemma relay_isComplete (calls : list call) (ic : bool) :
  snd (relay true calls ic) = true ->
  ic = true \/ existsb isComplete_event (fst (relay true calls ic)) = true.
Proof.
  revert ic. induction calls as [|[c| |d] calls IH]; intros ic; cbn [relay].
  - cbn. auto.
  - specialize (IH ic). destruct (relay true calls ic). cbn in *. auto.
  - destruct (relay true calls true). cbn. auto.
  - specialize (IH ic). destruct (relay true calls ic). cbn in *. auto.
Qed.

Lemma processLines_isComplete (lines : list string) (rest : string) :
  forall ic ids,
  isComplete (snd (processLines lines rest ic ids)) = true ->
  ic = true
  \/ existsb isComplete_event (fst (processLines lines rest ic ids)) = true.
Proof.
  induction lines as [|l lines IH]; intros ic ids; [cbn; auto|].
  cbn [processLines]. cbv zeta.
  destruct (isEmpty (trim l)); [apply IH|].
  destruct (processLine (trim l) ids) as [[wc calls] ids'].
  pose proof (relay_isComplete calls ic) as R.
  destruct (relay true calls ic) as [evs ic']. cbn [fst snd] in R.
  destruct wc; [cbn [fst snd]; exact R|].
  specialize (IH ic' ids').
  destruct (processLines lines rest ic' ids') as [evs' st']. cbn [fst snd] in *.
  intros H. rewrite existsb_app.
  destruct (IH H) as [I|I].
  - destruct (R I) as [R'|R']; [now left|right; now rewrite R'].
  - right. rewrite I. apply orb_true_r.
Qed.

Lemma readLoop_completes (reads : list readResult) : forall st,
  forallb isValue reads = true ->
  isComplete st = false ->
  existsb isComplete_event (readLoop reads st) = true.
Proof.
  induction reads as [|[chunk|m] reads IH]; intros st V C; cbn [readLoop].
  - rewrite C. cbn [negb]. rewrite existsb_app. cbn. apply orb_true_r.
  - cbn [forallb isValue andb] in V.
    destruct (isEmpty chunk); [now apply IH|].
    destruct (splitLines (buffer st ++ chunk)) as [lines rest].
    pose proof (processLines_isComplete lines rest (isComplete st)
                  (processedIds st)) as P.
    destruct (processLines lines rest (isComplete st) (processedIds st))
      as [evs st']. cbn [fst snd] in P.
    rewrite existsb_app.
    destruct (isComplete st') eqn:C'.
    + destruct (P eq_refl) as [P'|P']; [congruence|].
      now rewrite P'.
    + rewrite (IH st' V C'). apply orb_true_r.
  - discriminate.
Qed.

Lemma readLoop_done_notFailed (st : loopState) :
  forallb notFailed (readLoop [] st) = true.
Proof.
  cbn [readLoop]. rewrite forallb_app. apply andb_true_iff. split.
  - destruct (_ && _); [|reflexivity].
    destruct (startsWith "data: " (trim (buffer st))); [|reflexivity].
    destruct (processLine _ _) as [[wc calls] ids'].
    apply relay_notFailed.
  - destruct (negb (isComplete st)); reflexivity.
Qed.

Lemma readLoop_notFailed (reads : list readResult) : forall st,
  forallb isValue reads = true ->
  forallb notFailed (readLoop reads st) = true.
Proof.
  induction reads as [|[chunk|m] reads IH]; intros st V.
  - apply readLoop_done_notFailed.
  - cbn [forallb isValue andb] in V. cbn [readLoop].
    destruct (isEmpty chunk); [now apply IH|].
    destruct (splitLines (buffer st ++ chunk)) as [lines rest].
    pose proof (processLines_notFailed lines rest (isComplete st)
                  (processedIds st)) as P.
    destruct (processLines lines rest (isComplete st) (processedIds st))
      as [evs st']. cbn [fst] in P.
    rewrite forallb_app. now rewrite P, IH.
  - discriminate.
Qed.

(** X5: when no read is rejected, the caller is told of the completion
    and of no failure, whether or not the stream holds the sentinel. *)
Theorem completion_always_notified (reads : list readResult) :
  forallb isValue reads = true ->
  forallb notFailed (askQuestionStream (Body reads)) = true
  /\ existsb isComplete_event (askQuestionStream (Body reads)) = true.
Proof.
  intros V. cbn [askQuestionStream]. split.
  - now apply readLoop_notFailed.
  - now apply readLoop_completes.
Qed.

Lemma completion_always_notified_witness :
  let reads := [Value lateChunk; Value "data: [DO"] in
  forallb isValue reads = true
  /\ forallb notFailed (askQuestionStream (Body reads)) = true
  /\ existsb isComplete_event (askQuestionStream (Body reads)) = true.
Proof.
  cbv zeta. split; [reflexivity|].
  apply completion_always_notified. reflexivity.
Defined.

End Reader.

(* ================================================================== *)
(** ** Further properties: chunks with data, the last line *)
(* ================================================================== *)

Module ReaderMore.
Import JsString Regex Json Api App Turn Props MoreProps StringFacts Reader.

(** *** No chunk without data *)

Lemma relay_carriesData (inLoop : bool) (calls : list call) (ic : bool) :
  forallb callHasData calls = true ->
  forallb carriesData (fst (relay inLoop calls ic)) = true.
Proof.
  revert ic. induction calls as [|[c| |d] calls IH]; intros ic H;
    cbn [relay]; auto; cbn [forallb callHasData] in H.
  - apply andb_true_iff in H as [Hc H]. specialize (IH ic H).
    destruct (relay inLoop calls ic). cbn in *. now rewrite Hc.
  - destruct inLoop; [|now apply IH].
    specialize (IH true H). destruct (relay true calls true). cbn in *. auto.
  - specialize (IH ic H). destruct (relay inLoop calls ic). cbn in *. auto.
Qed.

Lemma processLines_carriesData (lines : list string) (rest : string) :
  forall ic ids,
  forallb carriesData (fst (processLines lines rest ic ids)) = true.
Proof.
  induction lines as [|l lines IH]; intros ic ids; [reflexivity|].
  cbn [processLines]. cbv zeta.
  destruct (isEmpty (trim l)); [apply IH|].
  pose proof (processLine_hasData (trim l) ids) as D.
  destruct (processLine (trim l) ids) as [[wc calls] ids']. cbn [fst snd] in D.
  pose proof (relay_carriesData true calls ic D) as R.
  destruct (relay true calls ic) as [evs ic']. cbn [fst] in R.
  destruct wc; [exact R|].
  specialize (IH ic' ids').
  destruct (processLines lines rest ic' ids') as [evs' st']. cbn [fst] in *.
  rewrite forallb_app. now rewrite R, IH.
Qed.

Lemma readLoop_carriesData (reads : list readResult) : forall st,
  forallb carriesData (readLoop reads st) = true.
Proof.
  induction reads as [|[chunk|m] reads IH]; intros st; cbn [readLoop].
  - rewrite forallb_app. apply andb_true_iff. split.
    + destruct (_ && _); [|reflexivity].
      destruct (startsWith "data: " (trim (buffer st))); [|reflexivity].
      pose proof (processLine_hasData (trim (buffer st)) (processedIds st))
        as D.
      destruct (processLine _ _) as [[wc calls] ids'].
      now apply relay_carriesData.
    + destruct (negb (isComplete st)); reflexivity.
  - destruct (isEmpty chunk); [apply IH|].
    destruct (splitLines (buffer st ++ chunk)) as [lines rest].
    pose proof (processLines_carriesData lines rest (isComplete st)
                  (processedIds st)) as P.
    destruct (processLines lines rest (isComplete st) (processedIds st))
      as [evs st']. cbn [fst] in P.
    rewrite forallb_app. now rewrite P, IH.
  - reflexivity.
Qed.

(** X6: no chunk without data reaches the caller: every chunk passed to
    [onChunk] has a non-empty reasoning, a non-empty list of tools or a
    non-empty content. *)
Theorem every_chunk_carries_data (r : response) :
  forallb carriesData (askQuestionStream r) = true.
Proof.
  destruct r as [m|status text| |reads]; try reflexivity.
  apply readLoop_carriesData.
Qed.

(** *** The last line of a stream *)

Lemma splitLines_noLineFeed (s : string) :
  noLineFeed s = true -> splitLines s = ([], s).
Proof.
  induction s as [|c s IH]; [reflexivity|].
  cbn [noLineFeed]. intros H. apply andb_true_iff in H as [Hc Hs].
  rewrite splitLines_cons, (IH Hs). apply negb_true_iff in Hc.
  now rewrite Hc.
Qed.

Lemma splitLines_line (s : string) :
  noLineFeed s = true -> splitLines (s ++ lineFeed) = ([s], "").
Proof.
  induction s as [|c s IH]; [reflexivity|].
  cbn [noLineFeed]. intros H. apply andb_true_iff in H as [Hc Hs].
  change (String c s ++ lineFeed) with (String c (s ++ lineFeed)).
  rewrite splitLines_cons, (IH Hs). apply negb_true_iff in Hc.
  now rewrite Hc.
Qed.

Lemma relay_no_complete (inLoop : bool) (calls : list call) (ic : bool) :
  existsb isOnComplete calls = false ->
  relay inLoop calls ic = (fst (relay false calls ic), ic).
Proof.
  induction calls as [|[c| |d] calls IH]; intros H; cbn [relay];
    auto; cbn [existsb isOnComplete orb] in H; try discriminate;
    rewrite (IH H); destruct (relay false calls ic); reflexivity.
Qed.

Lemma readLoop_lineFeed (st : loopState) :
  isComplete st = false ->
  noLineFeed (buffer st) = true ->
  readLoop [Value lineFeed] st = readLoop [] st.
Proof.
  intros C N. cbn [readLoop]. change (isEmpty lineFeed) with false.
  cbv iota. rewrite (splitLines_line _ N), C. cbn [negb andb].
  cbn [processLines]. cbv zeta.
  destruct (isEmpty (trim (buffer st))) eqn:E; cbn [negb].
  - cbn. reflexivity.
  - destruct (processLine_sentinel (trim (buffer st)) (processedIds st))
      as (W & S & L & _).
    destruct (isSentinelLine (trim (buffer st))) eqn:Sn.
    + rewrite (S eq_refl). unfold isSentinelLine in Sn.
      apply andb_true_iff in Sn as [-> _]. cbn. reflexivity.
    + specialize (L eq_refl).
      destruct (processLine (trim (buffer st)) (processedIds st))
        as [[wc calls] ids'] eqn:P.
      cbn [fst snd] in W, L. subst wc.
      rewrite (relay_no_complete true calls false L).
      cbn [buffer isComplete processedIds].
      destruct (startsWith "data: " (trim (buffer st))) eqn:D.
      * cbn. now rewrite app_nil_r.
      * revert P. unfold processLine. rewrite D. intros [= <-].
        cbn. reflexivity.
Qed.

(** X7: the line feed after the last line is optional: while the turn is
    not complete, a last read that ends a line with a line feed gives the
    events of the same read without it, the text being then processed when
    the stream ends. *)
Theorem last_line_feed_optional (s : string) (st : loopState) :
  isComplete st = false ->
  noLineFeed (buffer st ++ s) = true ->
  readLoop [Value (s ++ lineFeed)] st = readLoop [Value s] st.
Proof.
  intros C N.
  destruct s as [|c s].
  { rewrite append_nil_r in N. now apply readLoop_lineFeed. }
  set (x := String c s) in *.
  set (st' := {| buffer := buffer st ++ x; isComplete := isComplete st;
                 processedIds := processedIds st |}).
  transitivity (readLoop [Value lineFeed] st').
  - cbn [readLoop]. change (isEmpty (x ++ lineFeed)) with false.
    change (isEmpty lineFeed) with false. cbv iota.
    cbn [buffer isComplete processedIds st'].
    now rewrite append_assoc.
  - rewrite (readLoop_lineFeed st' C N).
    change (readLoop [Value x] st)
      with (let '(lines, rest) := splitLines (buffer st ++ x) in
            let '(evs, st1) :=
              processLines lines rest (isComplete st) (processedIds st) in
            (evs ++ readLoop [] st1)%list).
    rewrite (splitLines_noLineFeed _ N). reflexivity.
Qed.

Lemma last_line_feed_optional_witness :
  let s := jsonText "data: {'choices':[{'delta':{'content':'Hi'}}]}" in
  let st := {| buffer := ""; isComplete := false; processedIds := [] |} in
  isComplete st = false
  /\ noLineFeed (buffer st ++ s) = true
  /\ readLoop [Value (s ++ lineFeed)] st = readLoop [Value s] st.
Proof.
  cbv zeta. split; [reflexivity|]. split; [reflexivity|].
  apply last_line_feed_optional; reflexivity.
Defined.

End ReaderMore.

(* ================================================================== *)
(** ** Further properties: the word-merge repair inserts spaces *)
(* ================================================================== *)

Module RepairMore.
Import JsString Regex Json Api App Turn Props MoreProps StringFacts TagFacts
  Repair.

Lemma spaced_trans (a b c : string) : spaced a b -> spaced b c -> spaced a c.
Proof.
  intros Hab Hbc. revert a Hab.
  induction Hbc as [|ch b c Hbc IH|b c Hbc IH]; intros a Hab.
  - exact Hab.
  - inversion Hab as [|ch' a' b' Ha'|a' b' Ha']; subst.
    + constructor. now apply IH.
    + constructor. now apply IH.
  - constructor. now apply IH.
Qed.

Lemma spaced_strip (s t : string) :
  spaced s t -> stripSpaces t = stripSpaces s.
Proof.
  induction 1 as [|c s t H IH|s t H IH]; cbn [stripSpaces]; auto.
  - now rewrite IH.
Qed.

Lemma spaced_length (s t : string) :
  spaced s t -> String.length s <= String.length t.
Proof. induction 1; simpl; lia. Qed.

Lemma length_take_le (n : nat) (s : string) :
  n <= String.length s -> String.length (take n s) = n.
Proof.
  revert s; induction n as [|n IH]; intros [|c s] H; simpl in *; auto; try lia.
  rewrite IH; lia.
Qed.

Lemma spaced_replaceAll_bounded (m : matcher) (n : nat) :
  inserting m ->
  forall s, String.length s <= n -> spaced s (replaceAll m s).
Proof.
  intros Hm. induction n as [|n IH]; intros [|c s] Hn; simpl in Hn; try lia;
    try constructor.
  rewrite replaceAll_cons.
  destruct (m (String c s)) as [[len r]|] eqn:E.
  2:{ constructor. apply IH. lia. }
  destruct (Hm _ _ _ E) as (Hpos & Hlen & Hsp).
  destruct len as [|k]; [lia|]. cbn [Nat.pred].
  rewrite <- (take_drop (S k) (String c s)) at 1.
  apply spaced_app; [exact Hsp|].
  cbn [drop]. apply IH. rewrite length_drop. lia.
Qed.

Lemma spaced_replaceAll (m : matcher) (s : string) :
  inserting m -> spaced s (replaceAll m s).
Proof. intros Hm. eapply spaced_replaceAll_bounded; eauto. Qed.

Lemma inserting_camelCase : inserting camelCase.
Proof.
  intros [|a [|b s]] len r; try discriminate.
  change (camelCase (String a (String b s)))
    with (if isLower a && isUpper b
          then Some (2, String a (String " " (String b "")))
          else None).
  destruct (isLower a && isUpper b); [|discriminate].
  intros [= <- <-]. cbn. repeat split; try lia.
  repeat constructor.
Qed.

Lemma inserting_gluedI : inserting gluedI.
Proof.
  intros [|a [|b [|c s]]] len r; try discriminate.
  change (gluedI (String a (String b (String c s))))
    with (if isLower a && Ascii.eqb b "I" && isLower c
          then Some (3, String a (" I " ++ String c ""))
          else None).
  destruct (isLower a && Ascii.eqb b "I" && isLower c) eqn:E; [|discriminate].
  apply andb_true_iff in E as [E _]. apply andb_true_iff in E as [_ E].
  apply Ascii.eqb_eq in E. subst b.
  intros [= <- <-]. cbn. repeat split; try lia.
  repeat constructor.
Qed.

Lemma inserting_gluedWord : inserting gluedWord.
Proof.
  intros [|a s] len r; [discriminate|].
  change (gluedWord (String a s))
    with (if isLetter a then
            match wordThenLetter shortWords s with
            | Some (w, c) =>
                Some (String.length w + 2,
                      String a (" " ++ w ++ " " ++ String c ""))
            | None => None
            end
          else None).
  destruct (isLetter a); [|discriminate].
  destruct (wordThenLetter shortWords s) as [[w c]|] eqn:E; [|discriminate].
  apply wordThenLetter_spec in E. intros [= <- <-].
  assert (L : String.length s
              = String.length w + S (String.length
                                       (drop (S (String.length w)) s))).
  { rewrite E at 1. rewrite length_append. reflexivity. }
  split; [lia|]. split; [simpl; lia|].
  replace (String.length w + 2) with (S (String.length w + 1)) by lia.
  cbn [take].
  assert (T : take (String.length w + 1) s = w ++ String c "").
  { rewrite E at 1.
    replace (String.length w + 1) with (String.length (w ++ String c ""))
      by (rewrite length_append; reflexivity).
    change (String c (drop (S (String.length w)) s))
      with (String c "" ++ drop (S (String.length w)) s).
    rewrite <- append_assoc. apply take_append. }
  rewrite T.
  change (String a (" " ++ w ++ " " ++ String c ""))
    with (String a (String " " (w ++ String " " (String c "")))).
  constructor. constructor. apply spaced_app; [apply spaced_refl|].
  repeat constructor.
Qed.

Lemma spaced_addSpaceBetweenWords (s : string) :
  spaced s (addSpaceBetweenWords s).
Proof.
  unfold addSpaceBetweenWords.
  eapply spaced_trans; [|apply spaced_replaceAll, inserting_gluedWord].
  eapply spaced_trans; [|apply spaced_replaceAll, inserting_gluedI].
  apply spaced_replaceAll, inserting_camelCase.
Qed.

(** X8: [addSpaceBetweenWords] only inserts spaces: its result is the text
    with spaces put in, so that without the spaces both are the same text,
    and the result is no shorter. *)
Theorem addSpaceBetweenWords_only_inserts_spaces (text : string) :
  spaced text (addSpaceBetweenWords text)
  /\ stripSpaces (addSpaceBetweenWords text) = stripSpaces text
  /\ String.length text <= String.length (addSpaceBetweenWords text).
Proof.
  pose proof (spaced_addSpaceBetweenWords text) as H.
  split; [exact H|]. split; [now apply spaced_strip|now apply spaced_length].
Qed.

End RepairMore.

(* ================================================================== *)
(** ** Further properties: the stages of the handler, [hasChanges] *)
(* ================================================================== *)

Module Transcript.
Import JsString Regex Json Api App Turn Props MoreProps Helpers StringFacts
  TagFacts Repair Blocks RepairMore.

(** *** The last block *)

Lemma lastBlock_snoc (bs : list MessageBlock) (b : MessageBlock) :
  lastBlock (bs ++ [b])%list = Some b.
Proof.
  induction bs as [|x bs IH]; [reflexivity|].
  cbn [app]. destruct (bs ++ [b])%list eqn:E; [now destruct bs|].
  rewrite <- E. cbn [lastBlock]. rewrite E in *. exact IH.
Qed.

Lemma lastBlock_decomp (bs : list MessageBlock) (b : MessageBlock) :
  lastBlock bs = Some b -> exists init, bs = (init ++ [b])%list.
Proof.
  induction bs as [|x bs IH]; [discriminate|].
  destruct bs as [|y bs].
  - intros [= ->]. now exists [].
  - intros H. destruct (IH H) as (init & E). exists (x :: init).
    now rewrite E.
Qed.

Lemma setLast_snoc (init : list MessageBlock) (b b' : MessageBlock) :
  setLast b' (init ++ [b])%list = (init ++ [b'])%list.
Proof.
  induction init as [|x init IH]; [reflexivity|].
  cbn [app]. rewrite <- IH.
  destruct (init ++ [b])%list eqn:E; [now destruct init|reflexivity].
Qed.

(** What the two text channels do to the list, in one form: a block is
    pushed, or the last block is replaced by one of the same type. *)
Lemma appendReasoning_cases (bs : list MessageBlock) (r : string) :
  (exists init last sep,
      bs = (init ++ [Reasoning last])%list
      /\ (sep = "" \/ sep = " ")
      /\ appendReasoning bs r
         = (init ++ [Reasoning (addSpaceBetweenWords (last ++ sep ++ r))])%list)
  \/ ((forall last, lastBlock bs <> Some (Reasoning last))
      /\ appendReasoning bs r
         = (bs ++ [Reasoning (addSpaceBetweenWords r)])%list).
Proof.
  unfold appendReasoning.
  destruct (lastBlock bs) as [[last|t|c]|] eqn:E;
    try (right; split; [congruence|reflexivity]).
  left. destruct (lastBlock_decomp _ _ E) as (init & ->).
  exists init, last, (if needsSpace last r then " " else "").
  split; [reflexivity|]. split; [destruct (needsSpace last r); auto|].
  apply setLast_snoc.
Qed.

Lemma handleContent_cases (bs : list MessageBlock) (c : string) :
  (exists init last,
      bs = (init ++ [Content last])%list
      /\ handleContent bs c = (init ++ [Content (last ++ c)])%list)
  \/ ((forall last, lastBlock bs <> Some (Content last))
      /\ handleContent bs c = (bs ++ [Content c])%list).
Proof.
  unfold handleContent.
  destruct (lastBlock bs) as [[last|t|last]|] eqn:E;
    try (right; split; [congruence|reflexivity]).
  left. destruct (lastBlock_decomp _ _ E) as (init & ->).
  exists init, last. split; [reflexivity|apply setLast_snoc].
Qed.

(** *** Size: a change is notified exactly when there is one *)

Lemma size_app (a b : list MessageBlock) : size (a ++ b)%list = size a + size b.
Proof. unfold size. induction a; simpl; auto. rewrite IHa. lia. Qed.

Lemma length_addSpaceBetweenWords (s : string) :
  String.length s <= String.length (addSpaceBetweenWords s).
Proof. apply spaced_length, spaced_addSpaceBetweenWords. Qed.

Lemma stepOk_refl (bs : list MessageBlock) (hc : bool) : stepOk bs hc (bs, hc).
Proof. unfold stepOk. cbn. repeat split; auto. Qed.

Lemma stepOk_trans (bs nb : list MessageBlock) (hc hc' : bool)
    (q : list MessageBlock * bool) :
  stepOk bs hc (nb, hc') -> stepOk nb hc' q -> stepOk bs hc q.
Proof.
  unfold stepOk. cbn [fst snd]. intros (A1 & A2 & A3) (B1 & B2 & B3).
  split; [lia|]. split.
  - intros H. destruct (B2 H) as [E1 E2]. destruct (A2 E1) as [E3 E4].
    split; congruence.
  - intros H. destruct (B3 H) as [E|E].
    + destruct (A3 E); auto. right. lia.
    + right. lia.
Qed.

Lemma stepOk_pushOutputs (ms : list string) : forall bs hc,
  stepOk bs hc (pushOutputs ms bs hc).
Proof.
  induction ms as [|m ms IH]; intros bs hc; [apply stepOk_refl|].
  cbn [pushOutputs]. destruct (firstCapture m) as [cap|]; [|apply IH].
  destruct (_ && _); [|apply IH].
  eapply stepOk_trans; [|apply IH].
  unfold stepOk. cbn [fst snd]. rewrite size_app. cbn.
  repeat split; try discriminate; lia.
Qed.

Lemma stepOk_pushTools (tools : list ExecutedTool) : forall ex bs hc,
  stepOk bs hc (pushTools tools ex bs hc).
Proof.
  induction tools as [|t tools IH]; intros ex bs hc; [apply stepOk_refl|].
  cbn [pushTools]. destruct (negb _); [|apply IH].
  eapply stepOk_trans; [|apply IH].
  unfold stepOk. cbn [fst snd]. rewrite size_app. cbn.
  repeat split; try discriminate; lia.
Qed.

Lemma size_appendReasoning (bs : list MessageBlock) (r : string) :
  isEmpty r = false -> size bs < size (appendReasoning bs r).
Proof.
  intros Hr.
  assert (0 < String.length r) by (destruct r; [discriminate|simpl; lia]).
  destruct (appendReasoning_cases bs r)
    as [(init & last & sep & -> & _ & ->)|[_ ->]];
    rewrite !size_app; cbn.
  - pose proof (length_addSpaceBetweenWords (last ++ sep ++ r)) as L.
    rewrite !length_append in L. lia.
  - lia.
Qed.

Lemma size_handleContent (bs : list MessageBlock) (c : string) :
  isEmpty c = false -> size bs < size (handleContent bs c).
Proof.
  intros Hc.
  assert (0 < String.length c) by (destruct c; [discriminate|simpl; lia]).
  destruct (handleContent_cases bs c) as [(init & last & -> & ->)|[_ ->]];
    rewrite !size_app; cbn; rewrite ?length_append; lia.
Qed.

Lemma stepOk_handleReasoning (bs : list MessageBlock) (hc : bool)
    (r : string) :
  stepOk bs hc (handleReasoning bs hc r).
Proof.
  unfold handleReasoning. cbv zeta.
  pose proof (stepOk_pushOutputs
                (matchAll outputSpan (cleanedReasoning r)) bs hc) as P.
  destruct (pushOutputs _ bs hc) as [nb hc'].
  destruct (isEmpty (withoutOutput _ _)) eqn:E; cbn [negb]; [exact P|].
  eapply stepOk_trans; [exact P|]. cbn [fst snd].
  pose proof (size_appendReasoning nb _ E) as S.
  unfold stepOk. cbn [fst snd].
  repeat split; try discriminate; lia.
Qed.

Lemma stepOk_handleChunk (bs : list MessageBlock) (chunk : StreamChunk) :
  stepOk bs false (handleChunk bs chunk).
Proof.
  unfold handleChunk. cbv zeta.
  set (p := match reasoning chunk with
            | Some r => if negb (isEmpty r) then handleReasoning bs false r
                        else (bs, false)
            | None => (bs, false)
            end).
  assert (Hp : stepOk bs false p).
  { subst p. destruct (reasoning chunk) as [r|]; [|apply stepOk_refl].
    destruct (negb (isEmpty r));
      [apply stepOk_handleReasoning|apply stepOk_refl]. }
  destruct p as [nb hc].
  set (q := match executed_tools chunk with
            | Some (t :: ts) => handleTools nb hc (t :: ts)
            | _ => (nb, hc)
            end).
  assert (Hq : stepOk nb hc q).
  { subst q. destruct (executed_tools chunk) as [[|t ts]|];
      try apply stepOk_refl. apply stepOk_pushTools. }
  assert (Hpq : stepOk bs false q) by (eapply stepOk_trans; eauto).
  destruct q as [nb' hc'].
  destruct (Api.content chunk) as [c|]; [|exact Hpq].
  destruct (isEmpty c) eqn:E; cbn [negb]; [exact Hpq|].
  eapply stepOk_trans; [exact Hpq|]. cbn [fst snd].
  pose proof (size_handleContent nb' c E) as S.
  unfold stepOk. cbn [fst snd].
  repeat split; try discriminate; lia.
Qed.

Lemma handleChunk_changes (bs : list MessageBlock) (chunk : StreamChunk) :
  (snd (handleChunk bs chunk) = false -> fst (handleChunk bs chunk) = bs)
  /\ (snd (handleChunk bs chunk) = true ->
      size bs < size (fst (handleChunk bs chunk))).
Proof.
  destruct (stepOk_handleChunk bs chunk) as (S1 & S2 & S3). split.
  - intros H. now destruct (S2 H).
  - intros H. destruct (S3 H) as [D|D]; [discriminate|exact D].
Qed.

Lemma applyChunk_fst (blocks : list MessageBlock) (chunk : StreamChunk) :
  applyChunk blocks chunk = fst (handleChunk blocks chunk).
Proof.
  destruct (handleChunk_changes blocks chunk) as [F _]. unfold applyChunk.
  destruct (handleChunk blocks chunk) as [nb [|]]; cbn [fst snd] in *; auto.
  now rewrite F.
Qed.

(** X9: [hasChanges] is exact: the handler sets it exactly when the new
    blocks differ from the current ones, and then the new blocks are
    larger; so the blocks kept when it is not set are the new blocks as
    well. *)
Theorem hasChanges_iff_changed
    (blocks : list MessageBlock) (chunk : StreamChunk) :
  (snd (handleChunk blocks chunk) = true
   <-> fst (handleChunk blocks chunk) <> blocks)
  /\ (snd (handleChunk blocks chunk) = true ->
      size blocks < size (fst (handleChunk blocks chunk)))
  /\ applyChunk blocks chunk = fst (handleChunk blocks chunk).
Proof.
  destruct (handleChunk_changes blocks chunk) as [F T].
  split; [|split; [exact T|apply applyChunk_fst]].
  destruct (snd (handleChunk blocks chunk)) eqn:E.
  - split; [|reflexivity]. intros _ E'. specialize (T eq_refl).
    rewrite E' in T. lia.
  - split; [discriminate|]. intros N. elim N. now apply F.
Qed.

End Transcript.

(* ================================================================== *)
(** ** Further properties: content and reasoning are kept *)
(* ================================================================== *)

Module Assembly.
Import JsString Regex Json Api App Turn Props MoreProps Helpers StringFacts
  TagFacts Repair Blocks RepairMore Transcript.

(** *** The handler, stage by stage *)

Lemma fst_pushTools_hc (tools : list ExecutedTool) : forall ex bs hc hc',
  fst (pushTools tools ex bs hc) = fst (pushTools tools ex bs hc').
Proof.
  induction tools as [|t tools IH]; intros ex bs hc hc'; [reflexivity|].
  cbn [pushTools]. destruct (negb _); auto.
Qed.

Lemma fst_handleReasoning (bs : list MessageBlock) (hc : bool) (r : string) :
  fst (handleReasoning bs hc r)
  = let cleaned := cleanedReasoning r in
    let outputMatches := matchAll outputSpan cleaned in
    let b := fst (pushOutputs outputMatches bs hc) in
    if isEmpty (withoutOutput cleaned outputMatches) then b
    else appendReasoning b (withoutOutput cleaned outputMatches).
Proof.
  unfold handleReasoning. cbv zeta.
  destruct (pushOutputs _ bs hc) as [nb hc'].
  now destruct (isEmpty _).
Qed.

Lemma fst_handleChunk (bs : list MessageBlock) (chunk : StreamChunk) :
  fst (handleChunk bs chunk)
  = let b1 := match reasoning chunk with
              | Some r => if isEmpty r then bs
                          else fst (handleReasoning bs false r)
              | None => bs
              end in
    let b2 := match executed_tools chunk with
              | Some (t :: ts) =>
                  fst (pushTools (t :: ts) (toolIndices b1) b1 false)
              | _ => b1
              end in
    match Api.content chunk with
    | Some c => if isEmpty c then b2 else handleContent b2 c
    | None => b2
    end.
Proof.
  unfold handleChunk. cbv zeta.
  set (p := match reasoning chunk with
            | Some r => if negb (isEmpty r) then handleReasoning bs false r
                        else (bs, false)
            | None => (bs, false)
            end).
  assert (Hp : fst p = match reasoning chunk with
                       | Some r => if isEmpty r then bs
                                   else fst (handleReasoning bs false r)
                       | None => bs
                       end).
  { subst p. destruct (reasoning chunk) as [r|]; [|reflexivity].
    now destruct (isEmpty r). }
  rewrite <- Hp. destruct p as [b1 h1]. cbn [fst].
  set (q := match executed_tools chunk with
            | Some (t :: ts) => handleTools b1 h1 (t :: ts)
            | _ => (b1, h1)
            end).
  assert (Hq : fst q = match executed_tools chunk with
                       | Some (t :: ts) =>
                           fst (pushTools (t :: ts) (toolIndices b1) b1 false)
                       | _ => b1
                       end).
  { subst q. destruct (executed_tools chunk) as [[|t ts]|]; try reflexivity.
    apply fst_pushTools_hc. }
  rewrite <- Hq. destruct q as [b2 h2]. cbn [fst].
  destruct (Api.content chunk) as [c|]; [|reflexivity].
  now destruct (isEmpty c).
Qed.

(** Both loops that push tool blocks only append tool blocks. *)
Lemma pushOutputs_shape (ms : list string) : forall bs hc,
  exists ts, fst (pushOutputs ms bs hc) = (bs ++ map Tool ts)%list.
Proof.
  induction ms as [|m ms IH]; intros bs hc.
  - exists []. cbn. now rewrite app_nil_r.
  - cbn [pushOutputs]. destruct (firstCapture m) as [cap|]; [|apply IH].
    destruct (_ && _); [|apply IH].
    destruct (IH (bs ++ [Tool (outputTool (trim cap))])%list true) as (ts & E).
    exists (outputTool (trim cap) :: ts). rewrite E, <- app_assoc.
    reflexivity.
Qed.

Lemma pushTools_shape (tools : list ExecutedTool) : forall ex bs hc,
  exists ts, fst (pushTools tools ex bs hc) = (bs ++ map Tool ts)%list.
Proof.
  induction tools as [|t tools IH]; intros ex bs hc.
  - exists []. cbn. now rewrite app_nil_r.
  - cbn [pushTools]. destruct (negb _); [|apply IH].
    destruct (IH (index t :: ex) (bs ++ [Tool t])%list true) as (ts & E).
    exists (t :: ts). rewrite E, <- app_assoc. reflexivity.
Qed.

(** *** Content *)

Lemma contentOf_app (a b : list MessageBlock) :
  contentOf (a ++ b) = contentOf a ++ contentOf b.
Proof.
  induction a as [|[c|t|c] a IH]; cbn [app contentOf]; auto.
  now rewrite IH, append_assoc.
Qed.

Lemma contentOf_tools (ts : list ExecutedTool) : contentOf (map Tool ts) = "".
Proof. induction ts; auto. Qed.

Lemma contentOf_push_tools (bs : list MessageBlock) (ts : list ExecutedTool) :
  contentOf (bs ++ map Tool ts) = contentOf bs.
Proof. now rewrite contentOf_app, contentOf_tools, append_nil_r. Qed.

Lemma contentOf_appendReasoning (bs : list MessageBlock) (r : string) :
  contentOf (appendReasoning bs r) = contentOf bs.
Proof.
  destruct (appendReasoning_cases bs r)
    as [(init & last & sep & -> & _ & ->)|[_ ->]];
    rewrite !contentOf_app; cbn [contentOf]; now rewrite ?append_nil_r.
Qed.

Lemma contentOf_handleContent (bs : list MessageBlock) (c : string) :
  contentOf (handleContent bs c) = contentOf bs ++ c.
Proof.
  destruct (handleContent_cases bs c) as [(init & last & -> & ->)|[_ ->]];
    rewrite !contentOf_app; cbn [contentOf];
    now rewrite ?append_nil_r, ?append_assoc.
Qed.

Lemma contentOf_handleReasoning
    (bs : list MessageBlock) (hc : bool) (r : string) :
  contentOf (fst (handleReasoning bs hc r)) = contentOf bs.
Proof.
  rewrite fst_handleReasoning. cbv zeta.
  destruct (pushOutputs_shape (matchAll outputSpan (cleanedReasoning r)) bs hc)
    as (ts & ->).
  destruct (isEmpty _);
    now rewrite ?contentOf_appendReasoning, contentOf_push_tools.
Qed.

Lemma contentOf_applyChunk (bs : list MessageBlock) (chunk : StreamChunk) :
  contentOf (applyChunk bs chunk) = contentOf bs ++ contentFragment chunk.
Proof.
  rewrite applyChunk_fst, fst_handleChunk. cbv zeta.
  set (b1 := match reasoning chunk with Some _ => _ | None => _ end).
  assert (H1 : contentOf b1 = contentOf bs).
  { subst b1. destruct (reasoning chunk) as [r|]; auto.
    destruct (isEmpty r); auto. apply contentOf_handleReasoning. }
  set (b2 := match executed_tools chunk with Some _ => _ | None => _ end).
  assert (H2 : contentOf b2 = contentOf bs).
  { subst b2. destruct (executed_tools chunk) as [[|t ts]|]; auto.
    destruct (pushTools_shape (t :: ts) (toolIndices b1) b1 false) as (l & ->).
    now rewrite contentOf_push_tools. }
  unfold contentFragment.
  destruct (Api.content chunk) as [c|]; [|now rewrite append_nil_r].
  destruct (isEmpty c) eqn:E.
  - destruct c; [|discriminate]. now rewrite append_nil_r.
  - now rewrite contentOf_handleContent, H2.
Qed.

Lemma contentOf_fold
    (chunks : list StreamChunk) (blocks : list MessageBlock) :
  contentOf (fold_left applyChunk chunks blocks)
  = contentOf blocks ++ String.concat "" (map contentFragment chunks).
Proof.
  revert blocks. induction chunks as [|c chunks IH]; intros blocks.
  - cbn. now rewrite append_nil_r.
  - cbn [fold_left map]. rewrite IH, contentOf_applyChunk, append_assoc.
    f_equal. destruct chunks as [|c' chunks]; cbn [map String.concat].
    + now rewrite append_nil_r.
    + reflexivity.
Qed.


(** *** Reasoning *)

Lemma stripSpaces_app (a b : string) :
  stripSpaces (a ++ b) = stripSpaces a ++ stripSpaces b.
Proof.
  induction a as [|c a IH]; cbn [append stripSpaces]; auto.
  destruct (Ascii.eqb c " "); cbn [append]; now rewrite IH.
Qed.

Lemma reasoningOf_app (a b : list MessageBlock) :
  reasoningOf (a ++ b) = reasoningOf a ++ reasoningOf b.
Proof.
  induction a as [|[c|t|c] a IH]; cbn [app reasoningOf]; auto.
  now rewrite IH, append_assoc.
Qed.

Lemma reasoningOf_tools (ts : list ExecutedTool) :
  reasoningOf (map Tool ts) = "".
Proof. induction ts; auto. Qed.

Lemma reasoningOf_push_tools
    (bs : list MessageBlock) (ts : list ExecutedTool) :
  reasoningOf (bs ++ map Tool ts) = reasoningOf bs.
Proof. now rewrite reasoningOf_app, reasoningOf_tools, append_nil_r. Qed.

Lemma reasoningOf_handleContent (bs : list MessageBlock) (c : string) :
  reasoningOf (handleContent bs c) = reasoningOf bs.
Proof.
  destruct (handleContent_cases bs c) as [(init & last & -> & ->)|[_ ->]];
    rewrite !reasoningOf_app; cbn [reasoningOf]; now rewrite ?append_nil_r.
Qed.

Lemma strip_addSpaceBetweenWords (s : string) :
  stripSpaces (addSpaceBetweenWords s) = stripSpaces s.
Proof. apply spaced_strip, spaced_addSpaceBetweenWords. Qed.

Lemma reasoningOf_appendReasoning (bs : list MessageBlock) (r : string) :
  stripSpaces (reasoningOf (appendReasoning bs r))
  = stripSpaces (reasoningOf bs) ++ stripSpaces r.
Proof.
  destruct (appendReasoning_cases bs r)
    as [(init & last & sep & -> & Hs & ->)|[_ ->]];
    rewrite !reasoningOf_app; cbn [reasoningOf];
    rewrite !append_nil_r, !stripSpaces_app, strip_addSpaceBetweenWords;
    auto.
  rewrite !stripSpaces_app.
  destruct Hs as [-> | ->]; cbn [stripSpaces Ascii.eqb append];
    now rewrite append_assoc.
Qed.

Lemma reasoningOf_applyChunk (bs : list MessageBlock) (chunk : StreamChunk) :
  plainReasoning chunk = true ->
  stripSpaces (reasoningOf (applyChunk bs chunk))
  = stripSpaces (reasoningOf bs) ++ stripSpaces (reasoningFragment chunk).
Proof.
  unfold plainReasoning, reasoningFragment. intros Hp.
  rewrite applyChunk_fst, fst_handleChunk. cbv zeta.
  set (b1 := match reasoning chunk with Some _ => _ | None => _ end).
  assert (H1 : stripSpaces (reasoningOf b1)
               = stripSpaces (reasoningOf bs)
                 ++ stripSpaces match reasoning chunk with
                                | Some r => r
                                | None => ""
                                end).
  { subst b1. destruct (reasoning chunk) as [r|];
      [|now rewrite append_nil_r].
    rewrite (handleReasoning_noLt bs false r Hp).
    destruct (isEmpty r) eqn:E; cbn [negb fst].
    - destruct r; [|discriminate]. now rewrite append_nil_r.
    - apply reasoningOf_appendReasoning. }
  set (b2 := match executed_tools chunk with Some _ => _ | None => _ end).
  assert (H2 : reasoningOf b2 = reasoningOf b1).
  { subst b2. destruct (executed_tools chunk) as [[|t ts]|]; auto.
    destruct (pushTools_shape (t :: ts) (toolIndices b1) b1 false) as (l & ->).
    now rewrite reasoningOf_push_tools. }
  rewrite <- H1, <- H2.
  destruct (Api.content chunk) as [c|]; auto.
  destruct (isEmpty c); auto. now rewrite reasoningOf_handleContent.
Qed.

(** X11: reasoning without a tag is kept up to spaces: when no chunk has
    a ["<"] in its reasoning, the texts of the reasoning blocks put end to
    end are, spaces apart, those of before followed by the reasoning of
    each chunk in turn. *)
Theorem plain_reasoning_reassembled
    (chunks : list StreamChunk) (blocks : list MessageBlock) :
  forallb plainReasoning chunks = true ->
  stripSpaces (reasoningOf (fold_left applyChunk chunks blocks))
  = stripSpaces
      (reasoningOf blocks ++ String.concat "" (map reasoningFragment chunks)).
Proof.
  revert blocks. induction chunks as [|c chunks IH]; intros blocks H.
  - cbn. now rewrite append_nil_r.
  - cbn [forallb] in H. apply andb_true_iff in H as [Hc H].
    cbn [fold_left map]. rewrite (IH _ H), !stripSpaces_app.
    rewrite (reasoningOf_applyChunk _ _ Hc), append_assoc.
    f_equal. destruct chunks as [|c' chunks]; cbn [map String.concat].
    + now rewrite append_nil_r.
    + now rewrite !stripSpaces_app.
Qed.

Lemma plain_reasoning_reassembled_witness :
  let chunks := [reasoningChunk "theUser"; contentChunk "Hi";
                 reasoningChunk "asks"] in
  forallb plainReasoning chunks = true
  /\ stripSpaces (reasoningOf (fold_left applyChunk chunks []))
     = stripSpaces
         (reasoningOf [] ++ String.concat "" (map reasoningFragment chunks)).
Proof.
  cbv zeta. split; [reflexivity|].
  apply plain_reasoning_reassembled. reflexivity.
Defined.

End Assembly.

(* ================================================================== *)
(** ** Further properties: the shape of the list of blocks *)
(* ================================================================== *)

Module Shape.
Import JsString Regex Json Api App Turn Props MoreProps Helpers StringFacts
  TagFacts Repair Blocks RepairMore Transcript Assembly.

(** *** A property kept by every stage is kept by the handler *)

Lemma push_tools_invariant (P : list MessageBlock -> Prop) :
  (forall bs t, P bs -> P (bs ++ [Tool t])%list) ->
  forall ts bs, P bs -> P (bs ++ map Tool ts)%list.
Proof.
  intros Hp. induction ts as [|t ts IH]; intros bs H.
  - now rewrite app_nil_r.
  - cbn [map].
    change (Tool t :: map Tool ts) with ([Tool t] ++ map Tool ts)%list.
    rewrite app_assoc. apply IH, Hp, H.
Qed.

Lemma applyChunk_invariant (P : list MessageBlock -> Prop)
    (chunk : StreamChunk) :
  (forall bs ms hc, P bs -> P (fst (pushOutputs ms bs hc))) ->
  (forall bs r, isEmpty r = false -> P bs -> P (appendReasoning bs r)) ->
  (noTools chunk = false ->
   forall bs ts ex hc, P bs -> P (fst (pushTools ts ex bs hc))) ->
  (forall bs c, isEmpty c = false -> P bs -> P (handleContent bs c)) ->
  forall bs, P bs -> P (applyChunk bs chunk).
Proof.
  intros Ho Hr Ht Hc bs H.
  rewrite applyChunk_fst, fst_handleChunk. cbv zeta.
  set (b1 := match reasoning chunk with Some _ => _ | None => _ end).
  assert (H1 : P b1).
  { subst b1. destruct (reasoning chunk) as [r|]; auto.
    destruct (isEmpty r); auto.
    rewrite fst_handleReasoning. cbv zeta.
    destruct (isEmpty (withoutOutput _ _)) eqn:E; auto. }
  set (b2 := match executed_tools chunk with Some _ => _ | None => _ end).
  assert (H2 : P b2).
  { subst b2. unfold noTools in Ht.
    destruct (executed_tools chunk) as [[|t ts]|]; auto. }
  destruct (Api.content chunk) as [c|]; auto.
  destruct (isEmpty c) eqn:E; auto.
Qed.

Lemma fold_applyChunk_invariant (P : list MessageBlock -> Prop)
    (chunks : list StreamChunk) :
  (forall chunk bs, In chunk chunks -> P bs -> P (applyChunk bs chunk)) ->
  forall bs, P bs -> P (fold_left applyChunk chunks bs).
Proof.
  induction chunks as [|c chunks IH]; intros Hs bs H; [exact H|].
  cbn [fold_left]. apply IH.
  - intros chunk b Hin. apply Hs. now right.
  - apply Hs; auto. now left.
Qed.

(** *** Text blocks of one type never follow one another *)

Lemma coalesced_snoc (bs : list MessageBlock) (b : MessageBlock) :
  coalesced (bs ++ [b])
  = coalesced bs && match lastBlock bs with
                    | Some l => negb (sameText l b)
                    | None => true
                    end.
Proof.
  induction bs as [|x bs IH]; [reflexivity|].
  destruct bs as [|y bs].
  - cbn. now destruct (sameText x b).
  - change (coalesced ((x :: y :: bs) ++ [b]))
      with (negb (sameText x y) && coalesced ((y :: bs) ++ [b])).
    rewrite IH.
    change (lastBlock (x :: y :: bs)) with (lastBlock (y :: bs)).
    change (coalesced (x :: y :: bs))
      with (negb (sameText x y) && coalesced (y :: bs)).
    now rewrite andb_assoc.
Qed.

Lemma coalesced_push_tool (bs : list MessageBlock) (t : ExecutedTool) :
  coalesced bs = true -> coalesced (bs ++ [Tool t]) = true.
Proof.
  intros H. rewrite coalesced_snoc, H.
  now destruct (lastBlock bs) as [[l|u|l]|].
Qed.

Lemma coalesced_appendReasoning (bs : list MessageBlock) (r : string) :
  coalesced bs = true -> coalesced (appendReasoning bs r) = true.
Proof.
  destruct (appendReasoning_cases bs r)
    as [(init & last & sep & -> & _ & ->)|[N ->]];
    rewrite !coalesced_snoc.
  - now destruct (lastBlock init) as [[l|u|l]|].
  - intros ->. destruct (lastBlock bs) as [[l|u|l]|] eqn:E; auto.
    now elim (N l).
Qed.

Lemma coalesced_handleContent (bs : list MessageBlock) (c : string) :
  coalesced bs = true -> coalesced (handleContent bs c) = true.
Proof.
  destruct (handleContent_cases bs c) as [(init & last & -> & ->)|[N ->]];
    rewrite !coalesced_snoc.
  - now destruct (lastBlock init) as [[l|u|l]|].
  - intros ->. destruct (lastBlock bs) as [[l|u|l]|] eqn:E; auto.
    now elim (N l).
Qed.

Lemma coalesced_applyChunk (chunk : StreamChunk) (bs : list MessageBlock) :
  coalesced bs = true -> coalesced (applyChunk bs chunk) = true.
Proof.
  apply (applyChunk_invariant (fun l => coalesced l = true)).
  - intros b ms hc H. destruct (pushOutputs_shape ms b hc) as (ts & ->).
    revert ts b H. apply push_tools_invariant, coalesced_push_tool.
  - intros b r _. apply coalesced_appendReasoning.
  - intros _ b ts ex hc H. destruct (pushTools_shape ts ex b hc) as (l & ->).
    revert l b H. apply push_tools_invariant, coalesced_push_tool.
  - intros b c _. apply coalesced_handleContent.
Qed.

(** X12: text blocks are merged: when no two text blocks of one type
    follow one another, none do after any chunks; each run of reasoning,
    and of content, is one block. *)
Theorem text_blocks_coalesced
    (chunks : list StreamChunk) (blocks : list MessageBlock) :
  coalesced blocks = true ->
  coalesced (fold_left applyChunk chunks blocks) = true.
Proof.
  apply (fold_applyChunk_invariant (fun l => coalesced l = true)).
  intros chunk bs _. apply coalesced_applyChunk.
Qed.

Lemma text_blocks_coalesced_witness :
  let chunks := [reasoningChunk "a"; reasoningChunk "b"; contentChunk "c";
                 contentChunk "d"; toolsChunk [searchTool];
                 contentChunk "e"] in
  coalesced [] = true
  /\ coalesced (fold_left applyChunk chunks []) = true.
Proof.
  cbv zeta. split; [reflexivity|].
  apply text_blocks_coalesced. reflexivity.
Defined.

(** *** No text block is empty *)

Lemma isEmpty_append_r (a b : string) :
  isEmpty b = false -> isEmpty (a ++ b) = false.
Proof. destruct a, b; auto. Qed.

Lemma isEmpty_addSpaceBetweenWords (s : string) :
  isEmpty s = false -> isEmpty (addSpaceBetweenWords s) = false.
Proof.
  intros H. pose proof (spaced_length _ _ (spaced_addSpaceBetweenWords s)) as L.
  destruct s; [discriminate|].
  destruct (addSpaceBetweenWords _); [simpl in L; lia|reflexivity].
Qed.

Lemma hasText_snoc (bs : list MessageBlock) (b : MessageBlock) :
  forallb hasText (bs ++ [b]) = forallb hasText bs && hasText b.
Proof. rewrite forallb_app. cbn. now rewrite andb_true_r. Qed.

Lemma hasText_appendReasoning (bs : list MessageBlock) (r : string) :
  isEmpty r = false ->
  forallb hasText bs = true -> forallb hasText (appendReasoning bs r) = true.
Proof.
  intros Hr.
  destruct (appendReasoning_cases bs r)
    as [(init & last & sep & -> & _ & ->)|[N ->]];
    rewrite !hasText_snoc; cbn [hasText]; intros H;
    apply andb_true_iff in H || idtac.
  - destruct H as [-> _]. cbn [andb].
    rewrite isEmpty_addSpaceBetweenWords; [reflexivity|].
    apply isEmpty_append_r, isEmpty_append_r, Hr.
  - rewrite H. cbn [andb]. now rewrite isEmpty_addSpaceBetweenWords.
Qed.

Lemma hasText_handleContent (bs : list MessageBlock) (c : string) :
  isEmpty c = false ->
  forallb hasText bs = true -> forallb hasText (handleContent bs c) = true.
Proof.
  intros Hc.
  destruct (handleContent_cases bs c) as [(init & last & -> & ->)|[N ->]];
    rewrite !hasText_snoc; cbn [hasText]; intros H;
    apply andb_true_iff in H || idtac.
  - destruct H as [-> _]. cbn [andb].
    rewrite isEmpty_append_r; [reflexivity|exact Hc].
  - rewrite H, Hc. reflexivity.
Qed.

Lemma hasText_push_tool (bs : list MessageBlock) (t : ExecutedTool) :
  forallb hasText bs = true -> forallb hasText (bs ++ [Tool t]) = true.
Proof. intros H. now rewrite hasText_snoc, H. Qed.

(** X13: no text block is empty: when every reasoning and content block
    has a text, so has every one after any chunks. *)
Theorem no_empty_text_block
    (chunks : list StreamChunk) (blocks : list MessageBlock) :
  forallb hasText blocks = true ->
  forallb hasText (fold_left applyChunk chunks blocks) = true.
Proof.
  apply (fold_applyChunk_invariant (fun l => forallb hasText l = true)).
  intros chunk bs _.
  apply (applyChunk_invariant (fun l => forallb hasText l = true)).
  - intros b ms hc H. destruct (pushOutputs_shape ms b hc) as (ts & ->).
    revert ts b H. apply push_tools_invariant, hasText_push_tool.
  - apply hasText_appendReasoning.
  - intros _ b ts ex hc H. destruct (pushTools_shape ts ex b hc) as (l & ->).
    revert l b H. apply push_tools_invariant, hasText_push_tool.
  - apply hasText_handleContent.
Qed.

Lemma no_empty_text_block_witness :
  let chunks := [reasoningChunk "<think>"; contentChunk "";
                 reasoningChunk "a"] in
  forallb hasText [] = true
  /\ forallb hasText (fold_left applyChunk chunks []) = true.
Proof.
  cbv zeta. split; [reflexivity|].
  apply no_empty_text_block. reflexivity.
Defined.

(** *** History *)

Lemma keepsHistory_refl (bs : list MessageBlock) : keepsHistory bs bs.
Proof. split; auto. Qed.

Lemma keepsHistory_trans (a b c : list MessageBlock) :
  keepsHistory a b -> keepsHistory b c -> keepsHistory a c.
Proof.
  intros [L1 F1] [L2 F2]. split; [lia|].
  rewrite <- F1.
  replace (List.length a - 1) with (Nat.min (List.length a - 1)
                                      (List.length b - 1)) by lia.
  rewrite <- !firstn_firstn. now rewrite F2.
Qed.

Lemma keepsHistory_app (bs tail : list MessageBlock) :
  keepsHistory bs (bs ++ tail).
Proof.
  split; [rewrite length_app; lia|].
  rewrite firstn_app.
  replace (List.length bs - 1 - List.length bs) with 0 by lia.
  cbn. now rewrite app_nil_r.
Qed.

Lemma keepsHistory_last (init : list MessageBlock) (b b' : MessageBlock) :
  keepsHistory (init ++ [b]) (init ++ [b']).
Proof.
  split; [rewrite !length_app; cbn; lia|].
  rewrite length_app. cbn [List.length].
  replace (List.length init + 1 - 1) with (List.length init + 0) by lia.
  now rewrite !firstn_app_2.
Qed.

Lemma keepsHistory_appendReasoning (bs : list MessageBlock) (r : string) :
  keepsHistory bs (appendReasoning bs r).
Proof.
  destruct (appendReasoning_cases bs r)
    as [(init & last & sep & -> & _ & ->)|[N ->]].
  - apply keepsHistory_last.
  - apply keepsHistory_app.
Qed.

Lemma keepsHistory_handleContent (bs : list MessageBlock) (c : string) :
  keepsHistory bs (handleContent bs c).
Proof.
  destruct (handleContent_cases bs c) as [(init & last & -> & ->)|[N ->]].
  - apply keepsHistory_last.
  - apply keepsHistory_app.
Qed.

Lemma keepsHistory_applyChunk (bs : list MessageBlock) (chunk : StreamChunk) :
  keepsHistory bs (applyChunk bs chunk).
Proof.
  apply (applyChunk_invariant (keepsHistory bs)); try apply keepsHistory_refl.
  - intros b ms hc H. destruct (pushOutputs_shape ms b hc) as (ts & ->).
    eapply keepsHistory_trans; [exact H|apply keepsHistory_app].
  - intros b r _ H.
    eapply keepsHistory_trans; [exact H|apply keepsHistory_appendReasoning].
  - intros _ b ts ex hc H. destruct (pushTools_shape ts ex b hc) as (l & ->).
    eapply keepsHistory_trans; [exact H|apply keepsHistory_app].
  - intros b c _ H.
    eapply keepsHistory_trans; [exact H|apply keepsHistory_handleContent].
Qed.

(** X14: what is shown is never taken back: after any chunks the list
    of blocks is no shorter, and every block but the last of before is
    where it was, unchanged. *)
Theorem history_never_rewritten
    (chunks : list StreamChunk) (blocks : list MessageBlock) :
  List.length blocks <= List.length (fold_left applyChunk chunks blocks)
  /\ firstn (List.length blocks - 1) (fold_left applyChunk chunks blocks)
     = firstn (List.length blocks - 1) blocks.
Proof.
  change (keepsHistory blocks (fold_left applyChunk chunks blocks)).
  revert blocks. induction chunks as [|c chunks IH]; intros blocks.
  - apply keepsHistory_refl.
  - cbn [fold_left].
    eapply keepsHistory_trans; [apply keepsHistory_applyChunk|apply IH].
Qed.

(** *** Tool blocks *)

Lemma toolsOf_app (a b : list MessageBlock) :
  toolsOf (a ++ b) = (toolsOf a ++ toolsOf b)%list.
Proof. apply flat_map_app. Qed.

Lemma toolsOf_tools (ts : list ExecutedTool) : toolsOf (map Tool ts) = ts.
Proof.
  induction ts as [|t ts IH]; [reflexivity|].
  cbn [map]. change (toolsOf (Tool t :: map Tool ts))
    with (t :: toolsOf (map Tool ts)). now rewrite IH.
Qed.

Lemma toolsOf_appendReasoning (bs : list MessageBlock) (r : string) :
  toolsOf (appendReasoning bs r) = toolsOf bs.
Proof.
  destruct (appendReasoning_cases bs r)
    as [(init & last & sep & -> & _ & ->)|[N ->]];
    rewrite !toolsOf_app; cbn; now rewrite ?app_nil_r.
Qed.

Lemma toolsOf_handleContent (bs : list MessageBlock) (c : string) :
  toolsOf (handleContent bs c) = toolsOf bs.
Proof.
  destruct (handleContent_cases bs c) as [(init & last & -> & ->)|[N ->]];
    rewrite !toolsOf_app; cbn; now rewrite ?app_nil_r.
Qed.

Lemma toolsOf_applyChunk (chunk : StreamChunk) (bs0 bs : list MessageBlock) :
  (exists added, toolsOf bs = (toolsOf bs0 ++ added)%list) ->
  exists added, toolsOf (applyChunk bs chunk) = (toolsOf bs0 ++ added)%list.
Proof.
  apply (applyChunk_invariant
           (fun l => exists added, toolsOf l = (toolsOf bs0 ++ added)%list)).
  - intros b ms hc (added & E).
    destruct (pushOutputs_shape ms b hc) as (ts & ->).
    exists (added ++ ts)%list.
    now rewrite toolsOf_app, toolsOf_tools, E, app_assoc.
  - intros b r _. now rewrite toolsOf_appendReasoning.
  - intros _ b ts ex hc (added & E).
    destruct (pushTools_shape ts ex b hc) as (l & ->).
    exists (added ++ l)%list.
    now rewrite toolsOf_app, toolsOf_tools, E, app_assoc.
  - intros b c _. now rewrite toolsOf_handleContent.
Qed.

(** X15: tool blocks are only added, at the end: after any chunks the
    tools of the tool blocks are those of before, in their order, followed
    by the added ones. *)
Theorem tool_blocks_only_appended
    (chunks : list StreamChunk) (blocks : list MessageBlock) :
  exists added,
    toolsOf (fold_left applyChunk chunks blocks)
    = (toolsOf blocks ++ added)%list.
Proof.
  apply (fold_applyChunk_invariant
           (fun l => exists added, toolsOf l = (toolsOf blocks ++ added)%list)).
  - intros chunk bs _. apply toolsOf_applyChunk.
  - exists []. now rewrite app_nil_r.
Qed.

End Shape.

(* ================================================================== *)
(** ** Further properties: tools, outputs, the text read aloud *)
(* ================================================================== *)

Module ToolsMore.
Import JsString Regex Json Api App Turn Props MoreProps Helpers StringFacts
  TagFacts Repair Blocks RepairMore Transcript Assembly Shape.

(** *** The tool loop on fresh and on known indices *)

(** X16: tools with new indices, all different, are all shown, in the
    order of the chunk, after the blocks there are; [hasChanges] is set
    when there is one. *)
Theorem fresh_tools_appended_in_order
    (newBlocks : list MessageBlock) (hasChanges : bool)
    (tools : list ExecutedTool) :
  NoDup (map index tools) ->
  forallb (freshTool (toolIndices newBlocks)) tools = true ->
  handleTools newBlocks hasChanges tools
  = ((newBlocks ++ map Tool tools)%list,
     hasChanges || negb (isEmpty_list tools)).
Proof.
  unfold handleTools. generalize (toolIndices newBlocks) as ex.
  revert newBlocks hasChanges.
  induction tools as [|t tools IH]; intros bs hc ex Hnd Hf.
  - cbn. now rewrite app_nil_r, orb_false_r.
  - cbn [forallb] in Hf. apply andb_true_iff in Hf as [Ht Hf].
    unfold freshTool in Ht. cbn [pushTools]. rewrite Ht.
    cbn [map] in Hnd. apply NoDup_cons_iff in Hnd as [Hn Hnd].
    rewrite IH; auto.
    + rewrite <- app_assoc. cbn. now rewrite orb_true_r.
    + apply forallb_forall. intros u Hu.
      rewrite forallb_forall in Hf. specialize (Hf u Hu).
      unfold freshTool, hasIndex in *. cbn [existsb].
      apply negb_true_iff in Hf. rewrite Hf, orb_false_r.
      apply negb_true_iff, Z.eqb_neq. intros E. apply Hn.
      rewrite <- E. now apply in_map.
Qed.

(** X17: tools whose indices the blocks already hold are ignored: the
    blocks and [hasChanges] are left as they were. *)
Theorem known_tools_ignored
    (newBlocks : list MessageBlock) (hasChanges : bool)
    (tools : list ExecutedTool) :
  forallb (knownTool (toolIndices newBlocks)) tools = true ->
  handleTools newBlocks hasChanges tools = (newBlocks, hasChanges).
Proof.
  unfold handleTools. generalize (toolIndices newBlocks) as ex.
  induction tools as [|t tools IH]; intros ex Hk; [reflexivity|].
  cbn [forallb] in Hk. apply andb_true_iff in Hk as [Ht Hk].
  unfold knownTool in Ht. cbn [pushTools]. rewrite Ht. cbn [negb].
  now apply IH.
Qed.

Lemma fresh_tools_appended_in_order_witness :
  let other := {| index := 1; type := "search"; arguments := None;
                  search_results := None; output := None |} in
  NoDup (map index [searchTool; other])
  /\ forallb (freshTool (toolIndices [Content "a"])) [searchTool; other]
     = true
  /\ handleTools [Content "a"] false [searchTool; other]
     = ([Content "a"; Tool searchTool; Tool other], true).
Proof.
  cbv zeta.
  assert (N : NoDup (map index
                       [searchTool;
                        {| index := 1; type := "search"; arguments := None;
                           search_results := None; output := None |}])).
  { repeat constructor; cbn; intuition discriminate. }
  split; [exact N|]. split; [reflexivity|].
  apply (fresh_tools_appended_in_order [Content "a"] false _ N).
  reflexivity.
Defined.

Lemma known_tools_ignored_witness :
  forallb (knownTool (toolIndices [Tool searchTool]))
    [searchTool; searchTool] = true
  /\ handleTools [Tool searchTool] false [searchTool; searchTool]
     = ([Tool searchTool], false).
Proof.
  split; [reflexivity|].
  apply known_tools_ignored. reflexivity.
Defined.

(** *** Output blocks *)

Lemma outputTexts_app (a b : list MessageBlock) :
  outputTexts (a ++ b) = (outputTexts a ++ outputTexts b)%list.
Proof. apply flat_map_app. Qed.

Lemma outputTexts_filter (oc : string) (bs : list MessageBlock) :
  In oc (outputTexts bs) -> filter (isOutputBlock oc) bs <> [].
Proof.
  induction bs as [|b bs IH]; [intros []|].
  change (b :: bs) with ([b] ++ bs)%list at 1. rewrite outputTexts_app.
  intros H. apply in_app_or in H as [H|H].
  - destruct b as [c|t|c]; try (now destruct H).
    cbn in H. cbn [filter isOutputBlock].
    destruct (String.eqb (type t) "output"); [|now destruct H].
    destruct (output t) as [o|]; [|now destruct H].
    destruct H as [->|[]]. now rewrite String.eqb_refl.
  - cbn [filter]. destruct (isOutputBlock oc b); [discriminate|auto].
Qed.

Lemma NoDup_snoc_string (l : list string) (x : string) :
  NoDup l -> ~ In x l -> NoDup (l ++ [x]).
Proof.
  intros Hl Hx. apply NoDup_app; auto.
  - repeat constructor. intros [].
  - intros y Hy [<-|[]]. contradiction.
Qed.

Lemma NoDup_pushOutputs (ms : list string) : forall bs hc,
  NoDup (outputTexts bs) -> NoDup (outputTexts (fst (pushOutputs ms bs hc))).
Proof.
  induction ms as [|m ms IH]; intros bs hc H; [exact H|].
  cbn [pushOutputs]. destruct (firstCapture m) as [cap|]; [|now apply IH].
  destruct (negb _ && _) eqn:E; [|now apply IH].
  apply andb_true_iff in E as [_ E]. apply IH.
  rewrite outputTexts_app. apply NoDup_snoc_string; auto.
  intros Hin. apply outputTexts_filter in Hin.
  now destruct (filter _ bs).
Qed.

Lemma outputTexts_appendReasoning (bs : list MessageBlock) (r : string) :
  outputTexts (appendReasoning bs r) = outputTexts bs.
Proof.
  destruct (appendReasoning_cases bs r)
    as [(init & last & sep & -> & _ & ->)|[N ->]];
    rewrite !outputTexts_app; cbn; now rewrite ?app_nil_r.
Qed.

Lemma outputTexts_handleContent (bs : list MessageBlock) (c : string) :
  outputTexts (handleContent bs c) = outputTexts bs.
Proof.
  destruct (handleContent_cases bs c) as [(init & last & -> & ->)|[N ->]];
    rewrite !outputTexts_app; cbn; now rewrite ?app_nil_r.
Qed.

(** X18: an output is shown once: when no chunk carries tools and no
    two output blocks hold the same text, none do after any chunks,
    however often the reasoning repeats an output span. *)
Theorem outputs_extracted_once
    (chunks : list StreamChunk) (blocks : list MessageBlock) :
  forallb noTools chunks = true ->
  NoDup (outputTexts blocks) ->
  NoDup (outputTexts (fold_left applyChunk chunks blocks)).
Proof.
  intros Hn.
  apply (fold_applyChunk_invariant (fun l => NoDup (outputTexts l))).
  intros chunk bs Hin. rewrite forallb_forall in Hn. specialize (Hn _ Hin).
  apply (applyChunk_invariant (fun l => NoDup (outputTexts l))).
  - intros b ms hc. apply NoDup_pushOutputs.
  - intros b r _. now rewrite outputTexts_appendReasoning.
  - congruence.
  - intros b c _. now rewrite outputTexts_handleContent.
Qed.

Lemma outputs_extracted_once_witness :
  let chunks := [reasoningChunk "<output>4</output>";
                 reasoningChunk "so <output> 4 </output>"] in
  forallb noTools chunks = true
  /\ NoDup (outputTexts [])
  /\ NoDup (outputTexts (fold_left applyChunk chunks [])).
Proof.
  cbv zeta. split; [reflexivity|]. split; [constructor|].
  apply outputs_extracted_once; [reflexivity|constructor].
Defined.

(** *** The text that is read aloud *)

Lemma applyChunk_contentOnly (chunk : StreamChunk) (bs : list MessageBlock) :
  contentOnly chunk = true ->
  applyChunk bs chunk
  = if isEmpty (contentFragment chunk) then bs
    else handleContent bs (contentFragment chunk).
Proof.
  unfold contentOnly, reasoningFragment, noTools, contentFragment.
  intros H. apply andb_true_iff in H as [Hr Ht].
  rewrite applyChunk_fst, fst_handleChunk. cbv zeta.
  assert (E1 : match reasoning chunk with
               | Some r => if isEmpty r then bs
                           else fst (handleReasoning bs false r)
               | None => bs
               end = bs).
  { destruct (reasoning chunk) as [r|]; auto. now rewrite Hr. }
  rewrite E1.
  destruct (executed_tools chunk) as [[|t ts]|]; try discriminate;
    now destruct (Api.content chunk).
Qed.

Lemma single_content_handleContent (bs : list MessageBlock) (c : string) :
  (bs = [] \/ exists t, bs = [Content t]) ->
  exists t, handleContent bs c = [Content t].
Proof. intros [->|(t & ->)]; cbn; eauto. Qed.

Lemma single_content_fold (chunks : list StreamChunk) :
  forallb contentOnly chunks = true ->
  forall bs, (bs = [] \/ exists t, bs = [Content t]) ->
  let r := fold_left applyChunk chunks bs in
  r = [] \/ exists t, r = [Content t].
Proof.
  intros Hc. cbv zeta.
  apply (fold_applyChunk_invariant
           (fun l => l = [] \/ exists t, l = [Content t])).
  intros chunk bs Hin H. rewrite forallb_forall in Hc.
  rewrite (applyChunk_contentOnly _ _ (Hc _ Hin)).
  destruct (isEmpty _); auto. right.
  now apply single_content_handleContent.
Qed.

(** X19: [getContentText] of a turn that streamed content only is the
    content of the chunks put end to end: one content block holds it all,
    so that no separator is put in. *)
Theorem content_only_turn_read_whole
    (chunks : list StreamChunk) (message : Message) :
  forallb contentOnly chunks = true ->
  blocks message = Some (fold_left applyChunk chunks []) ->
  getContentText message = String.concat "" (map contentFragment chunks).
Proof.
  intros Hc Hb. unfold getContentText. rewrite Hb.
  pose proof (contentOf_fold chunks []) as K. cbn [contentOf] in K.
  change (append "" ?x) with x in K. rewrite <- K.
  destruct (single_content_fold chunks Hc [] (or_introl eq_refl))
    as [->|(t & ->)]; [reflexivity|].
  cbn. now rewrite append_nil_r.
Qed.

Lemma content_only_turn_read_whole_witness :
  let chunks := [contentChunk "Hel"; contentChunk "lo"] in
  let message := {| role := assistant; App.content := None;
                    audioUrl := None;
                    blocks := Some (fold_left applyChunk chunks []) |} in
  forallb contentOnly chunks = true
  /\ blocks message = Some (fold_left applyChunk chunks [])
  /\ getContentText message = "Hello".
Proof.
  cbv zeta. split; [reflexivity|]. split; [reflexivity|].
  apply (content_only_turn_read_whole [contentChunk "Hel"; contentChunk "lo"]);
    reflexivity.
Defined.

End ToolsMore.

(* ================================================================== *)
(** ** Further properties: after the turn, failure, the timer *)
(* ================================================================== *)

Module Settled.
Import JsString Regex Json Api App Turn Props MoreProps Helpers StringFacts.

(** *** Once the streaming index is reset *)

Lemma handle_settled (st : State) (ev : event) :
  streamingMessageIndexRef st = (-1)%Z ->
  messages (handle st ev) = messages st
  /\ streamingMessageIndexRef (handle st ev) = (-1)%Z.
Proof.
  intros H. destruct ev as [chunk| |err|w]; cbn [handle].
  - unfold onChunk. rewrite H. cbn. auto.
  - cbn. auto.
  - unfold onError. rewrite H. cbn. auto.
  - auto.
Qed.

(** X20: once the streaming index is reset, by [onComplete] or by
    [onError], no event changes the messages: a chunk that comes after the
    completion is not shown. *)
Theorem settled_turn_ignores_events (events : list event) (st : State) :
  streamingMessageIndexRef st = (-1)%Z ->
  messages (fold_left handle events st) = messages st
  /\ streamingMessageIndexRef (fold_left handle events st) = (-1)%Z.
Proof.
  revert st. induction events as [|ev events IH]; intros st H; [auto|].
  cbn [fold_left]. destruct (handle_settled st ev H) as [Hm Hi].
  destruct (IH _ Hi) as [Hm' Hi']. split; congruence.
Qed.

Lemma settled_turn_ignores_events_witness :
  let st := onComplete (streaming [] "q" [Content "a"]) in
  let events := [Chunk {| reasoning := None; executed_tools := None;
                          Api.content := Some "late" |};
                 Complete; Failed ResponseBodyNull] in
  streamingMessageIndexRef st = (-1)%Z
  /\ messages (fold_left handle events st) = messages st
  /\ streamingMessageIndexRef (fold_left handle events st) = (-1)%Z.
Proof.
  cbv zeta. split; [reflexivity|].
  apply settled_turn_ignores_events. reflexivity.
Defined.

(** *** A failure during the turn *)

Lemma nth_error_placeholder (prev : list Message) (q : string)
    (bs : list MessageBlock) :
  nth_error (messages (streaming prev q bs))
    (Z.to_nat (streamingMessageIndexRef (streaming prev q bs)))
  = Some {| role := assistant; App.content := None; audioUrl := None;
            blocks := Some bs |}.
Proof.
  cbn [streaming messages streamingMessageIndexRef].
  replace (Z.to_nat (Z.of_nat (List.length prev) + 1))
    with (List.length prev + 1) by lia.
  rewrite nth_error_app2 by lia.
  replace (List.length prev + 1 - List.length prev) with 1 by lia.
  reflexivity.
Qed.

Lemma removeNth_app (prev : list Message) (a b : Message) :
  removeNth (List.length prev + 1) (prev ++ [a; b]) = (prev ++ [a])%list.
Proof.
  induction prev as [|x prev IH]; [reflexivity|].
  cbn [List.length app plus removeNth]. now rewrite IH.
Qed.

(** X21: a failure removes the placeholder of the answer only when it
    is empty: of the messages of a turn under way, [onError] drops the
    last when it has no block and keeps all otherwise; the error is kept
    and the loading flag cleared. *)
Theorem onError_drops_only_empty_placeholder
    (prev : list Message) (userMessage : string) (bs : list MessageBlock)
    (err : Api.error) :
  let st := streaming prev userMessage bs in
  messages (onError st err)
  = (if isEmpty_list bs then removelast (messages st) else messages st)
  /\ error (onError st err) = Some err
  /\ isLoading (onError st err) = false.
Proof.
  cbv zeta. split; [|split; reflexivity].
  unfold onError. cbn [messages].
  rewrite nth_error_placeholder.
  cbn [streaming messages streamingMessageIndexRef blocksOf blocks].
  replace (0 <=? Z.of_nat (List.length prev) + 1)%Z with true
    by (symmetry; apply Z.leb_le; lia).
  cbn [andb]. destruct bs as [|b bs]; cbn [isEmpty_list]; [|reflexivity].
  replace (Z.to_nat (Z.of_nat (List.length prev) + 1))
    with (List.length prev + 1) by lia.
  rewrite removeNth_app.
  change [?a; ?b] with ([a] ++ [b])%list. rewrite app_assoc.
  now rewrite removelast_last.
Qed.

(** *** The recording timer *)

Lemma toString_two_digits (k : nat) :
  k < 60 ->
  padStart 2 "0" (toString k)
  = String (digit (k / 10)) (String (digit (k mod 10)) "").
Proof.
  intros H.
  do 60 (destruct k as [|k]; [reflexivity|]). lia.
Qed.

(** X22: [formatDuration] shows the minutes, a colon and the seconds
    within the minute on two digits. *)
Theorem formatDuration_two_digit_seconds (seconds : nat) :
  formatDuration seconds
  = toString (seconds / 60) ++ ":"
    ++ String (digit (seconds mod 60 / 10))
         (String (digit (seconds mod 60 mod 10)) "").
Proof.
  unfold formatDuration. cbv zeta.
  rewrite toString_two_digits; [reflexivity|].
  apply Nat.mod_upper_bound. discriminate.
Qed.

End Settled.

(* ================================================================== *)
(** ** Further properties: every turn ends *)
(* ================================================================== *)

Module TurnEnd.
Import JsString Regex Json Api App Turn Props MoreProps StringFacts Reader.

(** *** Every turn ends *)

Lemma isFinal_isComplete (evs : list event) :
  existsb isComplete_event evs = true -> existsb isFinal evs = true.
Proof.
  induction evs as [|e evs IH]; [discriminate|].
  cbn [existsb]. unfold isFinal at 1.
  destruct (isComplete_event e); [reflexivity|]. cbn [orb].
  intros H. rewrite (IH H). apply orb_true_r.
Qed.

Lemma readLoop_final (reads : list readResult) : forall st,
  isComplete st = false -> existsb isFinal (readLoop reads st) = true.
Proof.
  induction reads as [|[chunk|m] reads IH]; intros st C; cbn [readLoop].
  - rewrite C. cbn [negb]. rewrite existsb_app. cbn. apply orb_true_r.
  - destruct (isEmpty chunk); [now apply IH|].
    destruct (splitLines (buffer st ++ chunk)) as [lines rest].
    pose proof (processLines_isComplete lines rest (isComplete st)
                  (processedIds st)) as P.
    destruct (processLines lines rest (isComplete st) (processedIds st))
      as [evs st']. cbn [fst snd] in P.
    rewrite existsb_app.
    destruct (isComplete st') eqn:C'.
    + destruct (P eq_refl) as [P'|P']; [congruence|].
      now rewrite (isFinal_isComplete _ P').
    + rewrite (IH st' C'). apply orb_true_r.
  - reflexivity.
Qed.

Lemma askQuestionStream_final (r : response) :
  existsb isFinal (askQuestionStream r) = true.
Proof.
  destruct r as [m|status text| |reads]; try reflexivity.
  now apply readLoop_final.
Qed.

Lemma handle_idle (st : State) (ev : event) :
  idle st -> idle (handle st ev).
Proof.
  intros [L I]. destruct ev as [chunk| |err|w]; cbn [handle].
  - unfold onChunk. rewrite I. cbn. now split.
  - now split.
  - now split.
  - now split.
Qed.

Lemma fold_handle_idle (evs : list event) : forall st,
  idle st -> idle (fold_left handle evs st).
Proof.
  induction evs as [|e evs IH]; intros st H; [exact H|].
  cbn [fold_left]. apply IH, handle_idle, H.
Qed.

Lemma handle_final (st : State) (ev : event) :
  isFinal ev = true -> idle (handle st ev).
Proof. destruct ev; try discriminate; intros _; now split. Qed.

Lemma fold_handle_final (evs : list event) : forall st,
  existsb isFinal evs = true -> idle (fold_left handle evs st).
Proof.
  induction evs as [|e evs IH]; intros st H; [discriminate|].
  cbn [existsb] in H. cbn [fold_left].
  destruct (isFinal e) eqn:F.
  - apply fold_handle_idle, handle_final, F.
  - now apply IH.
Qed.

(** X23: every turn ends: whatever the response, after the events of
    [askQuestionStream] are handled from the start of a turn, the loading
    flag is cleared and no message is the streaming one. *)
Theorem turn_always_ends
    (r : response) (prev : list Message) (userMessage : string) :
  let st := fold_left handle (askQuestionStream r)
              (startTurn prev userMessage) in
  isLoading st = false /\ streamingMessageIndexRef st = (-1)%Z.
Proof.
  cbv zeta. apply fold_handle_final, askQuestionStream_final.
Qed.

End TurnEnd.
